(** * generate_map.py: timestamp codec, coordinate codec, closest-match
    resolver, metadata writer and batch orchestrator

    A shallow embedding of [generate_map.py] and the properties of its
    specification.

    Conventions of the embedding.
    - A Python [str] is a Rocq [string], read as a sequence of code points
      below 256.  In that range the decimal digits matched by [\d] are
      exactly ['0'..'9'], and [str.lower] maps ['A'..'Z'] and the Latin-1
      capitals to their small letters.
    - Python integers are [Z].
    - Python floats are binary64 values, held as the rationals they
      denote, plus a separate [NaN]; every operation rounds to the nearest
      value, ties to even.  Infinities are not modelled.
    - Exceptions are explicit: a computation returns an [outcome], and code
      that touches files or prints runs in a state-and-exception monad over
      a [world] (files on disk, printed lines, and the faults of the
      environment). *)

From Stdlib Require Import ZArith QArith Qround Qabs Qpower Lqa String Ascii List Lia
  Bool Permutation Sorted.
From stdpp Require Import gmap strings.
Import ListNotations.

Local Open Scope string_scope.
Local Open Scope Z_scope.

(** ** Exceptions and outcomes *)

(** The exception classes that the modelled code can meet.  [OSError]
    stands for itself and its subclasses ([FileNotFoundError],
    [PermissionError], [NotADirectoryError], PIL's
    [UnidentifiedImageError]); [InvalidImageDataError] is piexif's subclass
    of [ValueError]; [StructError] is [struct.error]. *)
Inductive exn : Type :=
  | ValueError
  | IndexError
  | OverflowError
  | ImportError
  | AttributeError
  | OSError
  | InvalidImageDataError
  | StructError.

(** [except ValueError] also catches the subclasses of [ValueError]. *)
Definition is_ValueError (e : exn) : bool :=
  match e with ValueError | InvalidImageDataError => true | _ => false end.

(** [except OSError]. *)
Definition is_OSError (e : exn) : bool :=
  match e with OSError => true | _ => false end.

(** [except ImportError]. *)
Definition is_ImportError (e : exn) : bool :=
  match e with ImportError => true | _ => false end.

Inductive outcome (A : Type) : Type :=
  | Ok (a : A)
  | Raise (e : exn).
Arguments Ok {A} a.
Arguments Raise {A} e.

(** ** Strings *)

Module Str.

Definition code (c : ascii) : Z := Z.of_nat (nat_of_ascii c).

(** [\d] on code points below 256. *)
Definition is_digit (c : ascii) : bool := (48 <=? code c) && (code c <=? 57).

Definition digit_value (c : ascii) : Z := code c - 48.

(** [int(s)] for a string of decimal digits. *)
Fixpoint int_acc (acc : Z) (s : string) : Z :=
  match s with
  | EmptyString => acc
  | String c t => int_acc (10 * acc + digit_value c) t
  end.
Definition int (s : string) : Z := int_acc 0 s.

(** [c.lower()] for one code point below 256: ['A'..'Z'], and the Latin-1
    capitals U+00C0..U+00DE without the multiplication sign U+00D7. *)
Definition lower_char (c : ascii) : ascii :=
  let n := code c in
  if ((65 <=? n) && (n <=? 90))
     || ((192 <=? n) && (n <=? 222) && negb (n =? 215))
  then ascii_of_nat (nat_of_ascii c + 32)
  else c.

Fixpoint lower (s : string) : string :=
  match s with
  | EmptyString => EmptyString
  | String c t => String (lower_char c) (lower t)
  end.

Definition startswith (s p : string) : bool := String.prefix p s.

Fixpoint drop (n : nat) (s : string) : string :=
  match n, s with
  | O, _ => s
  | S n', String _ t => drop n' t
  | S _, EmptyString => EmptyString
  end.

Fixpoint take (n : nat) (s : string) : string :=
  match n, s with
  | S n', String c t => String c (take n' t)
  | _, _ => EmptyString
  end.

(** [s.endswith(p)]. *)
Definition endswith (s p : string) : bool :=
  (String.length p <=? String.length s)%nat
  && String.eqb (drop (String.length s - String.length p) s) p.

(** [s.endswith((p1, p2, ...))]. *)
Definition endswith_any (s : string) (ps : list string) : bool :=
  existsb (endswith s) ps.

(** [s.rfind(c)], as [None] for -1. *)
Fixpoint rfind (c : ascii) (s : string) : option nat :=
  match s with
  | EmptyString => None
  | String a t =>
      match rfind c t with
      | Some i => Some (S i)
      | None => if Ascii.eqb a c then Some O else None
      end
  end.

(** Is every character of [s] equal to [c]? *)
Fixpoint all_eq (c : ascii) (s : string) : bool :=
  match s with
  | EmptyString => true
  | String a t => Ascii.eqb a c && all_eq c t
  end.

End Str.

(** ** Paths ([os.path], POSIX flavour) *)

Module OsPath.

(** [os.path.basename(p)]: what follows the last slash. *)
Definition basename (p : string) : string :=
  match Str.rfind "/" p with
  | Some i => Str.drop (S i) p
  | None => p
  end.

(** [os.path.splitext(p)]: the extension starts at the last dot of the
    last component, unless that component is nothing but dots before it. *)
Definition splitext (p : string) : string * string :=
  let start := match Str.rfind "/" p with Some i => S i | None => O end in
  match Str.rfind "." p with
  | Some dot =>
      if (start <=? dot)%nat
         && negb (Str.all_eq "." (Str.take (dot - start) (Str.drop start p)))
      then (Str.take dot p, Str.drop dot p)
      else (p, EmptyString)
  | None => (p, EmptyString)
  end.

(** [os.path.join(d, f)] for a directory name without a trailing slash
    and a file name that is not absolute. *)
Definition join (d f : string) : string := d ++ "/" ++ f.

End OsPath.

(** ** [datetime] and [timedelta] *)

Module Datetime.

(** A naive [datetime]; the microsecond is always 0 in this program. *)
Record datetime : Type := mkDatetime {
  year : Z; month : Z; day : Z; hour : Z; minute : Z; second : Z
}.

Definition is_leap (y : Z) : bool :=
  (y mod 4 =? 0) && (negb (y mod 100 =? 0) || (y mod 400 =? 0)).

Definition days_in_month_table (m : Z) : Z :=
  match m with
  | 1 => 31 | 2 => 28 | 3 => 31 | 4 => 30 | 5 => 31 | 6 => 30
  | 7 => 31 | 8 => 31 | 9 => 30 | 10 => 31 | 11 => 30 | 12 => 31
  | _ => -1
  end.

Definition days_before_month_table (m : Z) : Z :=
  match m with
  | 1 => 0 | 2 => 31 | 3 => 59 | 4 => 90 | 5 => 120 | 6 => 151
  | 7 => 181 | 8 => 212 | 9 => 243 | 10 => 273 | 11 => 304 | 12 => 334
  | _ => -1
  end.

Definition days_in_month (y m : Z) : Z :=
  if (m =? 2) && is_leap y then 29 else days_in_month_table m.

Definition days_before_year (y : Z) : Z :=
  let y' := y - 1 in y' * 365 + y' / 4 - y' / 100 + y' / 400.

Definition days_before_month (y m : Z) : Z :=
  days_before_month_table m + (if (2 <? m) && is_leap y then 1 else 0).

(** [date.toordinal]: 0001-01-01 is day 1. *)
Definition ymd2ord (y m d : Z) : Z :=
  days_before_year y + days_before_month y m + d.

(** [date.fromordinal], as the standard library computes it. *)
Definition ord2ymd (n0 : Z) : Z * Z * Z :=
  let n := n0 - 1 in
  let n400 := n / 146097 in
  let n := n mod 146097 in
  let n100 := n / 36524 in
  let n := n mod 36524 in
  let n4 := n / 1461 in
  let n := n mod 1461 in
  let n1 := n / 365 in
  let n := n mod 365 in
  let y := n400 * 400 + 1 + n100 * 100 + n4 * 4 + n1 in
  if (n1 =? 4) || (n100 =? 4) then (y - 1, 12, 31)
  else
    let leapyear := (n1 =? 3) && (negb (n4 =? 24) || (n100 =? 3)) in
    let m := Z.shiftr (n + 50) 5 in
    let preceding :=
      days_before_month_table m + (if (2 <? m) && leapyear then 1 else 0) in
    if n <? preceding then
      let m' := m - 1 in
      let preceding' :=
        preceding
        - (days_in_month_table m' + (if (m' =? 2) && leapyear then 1 else 0))
      in (y, m', n - preceding' + 1)
    else (y, m, n - preceding + 1).

Definition MAXORDINAL : Z := 3652059.

(** The checks of the [datetime] constructor. *)
Definition valid (y mo d h mi s : Z) : bool :=
  (1 <=? y) && (y <=? 9999)
  && (1 <=? mo) && (mo <=? 12)
  && (1 <=? d) && (d <=? days_in_month y mo)
  && (0 <=? h) && (h <=? 23)
  && (0 <=? mi) && (mi <=? 59)
  && (0 <=? s) && (s <=? 59).

(** [datetime(y, mo, d, h, mi, s)]: [ValueError] outside the calendar. *)
Definition make (y mo d h mi s : Z) : outcome datetime :=
  if valid y mo d h mi s then Ok (mkDatetime y mo d h mi s)
  else Raise ValueError.

Definition toordinal (t : datetime) : Z := ymd2ord (year t) (month t) (day t).

Definition seconds_of_day (t : datetime) : Z :=
  hour t * 3600 + minute t * 60 + second t.

(** Seconds since the start of day 0 of the proleptic calendar: the
    [(days, seconds)] pair of the standard library, flattened. *)
Definition timestamp (t : datetime) : Z :=
  toordinal t * 86400 + seconds_of_day t.

(** A [timedelta] in whole seconds ([days * 86400 + seconds]); comparing
    two of them compares these numbers. *)
Definition timedelta : Type := Z.

Definition hours (n : Z) : timedelta := n * 3600.

(** [t - delta]: normalise to days and seconds of the day, rebuild the
    date from the ordinal; [OverflowError] outside years 1..9999. *)
Definition sub_timedelta (t : datetime) (delta : timedelta) : outcome datetime :=
  let total := timestamp t - delta in
  let days := total / 86400 in
  let secs := total mod 86400 in
  let h := secs / 3600 in
  let rem := secs mod 3600 in
  if (0 <? days) && (days <=? MAXORDINAL) then
    let '(y, m, d) := ord2ymd days in
    Ok (mkDatetime y m d h (rem / 60) (rem mod 60))
  else Raise OverflowError.

(** [t1 - t2] for two datetimes. *)
Definition diff (t1 t2 : datetime) : timedelta := timestamp t1 - timestamp t2.

(** [abs(delta)]. *)
Definition abs_delta (d : timedelta) : timedelta := Z.abs d.

End Datetime.

(** ** Timestamp codec *)

(** The atoms of the regular expression: a literal character or [\d]. *)
Inductive atom : Type :=
  | Lit (c : ascii)
  | Digit.

Definition atom_matches (a : atom) (c : ascii) : bool :=
  match a with
  | Lit l => Ascii.eqb l c
  | Digit => Str.is_digit c
  end.

(** Match a sequence of atoms at the start of [s]; the matched text. *)
Fixpoint match_prefix (p : list atom) (s : string) : option string :=
  match p with
  | [] => Some EmptyString
  | a :: p' =>
      match s with
      | EmptyString => None
      | String c t =>
          if atom_matches a c then
            match match_prefix p' t with
            | Some m => Some (String c m)
            | None => None
            end
          else None
      end
  end.

(** [re.search]: the match at the leftmost position that has one. *)
Fixpoint re_search (p : list atom) (s : string) : option string :=
  match match_prefix p s with
  | Some m => Some m
  | None =>
      match s with
      | EmptyString => None
      | String _ t => re_search p t
      end
  end.

(** [2022(\d{2})(\d{2})_(\d{2})(\d{2})(\d{2})] *)
Definition timestamp_pattern : list atom :=
  [Lit "2"; Lit "0"; Lit "2"; Lit "2"; Digit; Digit; Digit; Digit;
   Lit "_"; Digit; Digit; Digit; Digit; Digit; Digit]%char.

(** [map(int, match.groups())]: the five groups of a match, as integers. *)
Definition groups (m : string) : Z * Z * Z * Z * Z :=
  (Str.int (Str.take 2 (Str.drop 4 m)),
   Str.int (Str.take 2 (Str.drop 6 m)),
   Str.int (Str.take 2 (Str.drop 9 m)),
   Str.int (Str.take 2 (Str.drop 11 m)),
   Str.int (Str.take 2 (Str.drop 13 m))).

(** [extract_timestamp(filename)].  The [ValueError] of the constructor is
    caught and turned into [None]; nothing else is caught. *)
Definition extract_timestamp (filename : string) : outcome (option Datetime.datetime) :=
  match re_search timestamp_pattern filename with
  | Some m =>
      let '(month, day, hour, minute, second) := groups m in
      match Datetime.make 2022 month day hour minute second with
      | Ok dt =>
          if Str.startswith filename "SAMSUNG" then
            match Datetime.sub_timedelta dt (Datetime.hours 9) with
            | Ok dt' => Ok (Some dt')
            | Raise e => if is_ValueError e then Ok None else Raise e
            end
          else Ok (Some dt)
      | Raise e => if is_ValueError e then Ok None else Raise e
      end
  | None => Ok None
  end.

(** ** Floats *)

(** A Python float: a finite binary64 value, held as the rational it
    denotes, or not-a-number.  Infinities and overflow are not modelled:
    the values of this program stay far below [2 ^ 1024]. *)
Inductive pyfloat : Type :=
  | Fin (q : Q)
  | NaN.

Module Float.

(** Round half to even on a rational. *)
Definition round_half_even (x : Q) : Z :=
  let f := Qfloor x in
  match (x - inject_Z f ?= 1 # 2)%Q with
  | Lt => f
  | Gt => f + 1
  | Eq => if Z.even f then f else f + 1
  end.

(** For [q > 0], the integer [e] with [2 ^ e <= q < 2 ^ (e + 1)]: the
    difference of the bit lengths of numerator and denominator, or one
    less. *)
Definition ilog2 (q : Q) : Z :=
  let k := Z.log2 (Qnum q) - Z.log2 (Zpos (Qden q)) in
  if Qle_bool (2 ^ k) q then k else k - 1.

(** The binary64 value nearest to a rational, ties to even: a significand
    of 53 bits, exponents from -1022 up, below that the subnormal grid of
    step [2 ^ -1074].  The result is in lowest terms. *)
Definition binary64 (q : Q) : Q :=
  if Qeq_bool q 0 then 0%Q
  else
    let e := ilog2 (Qabs q) in
    let ex := Z.max e (-1022) - 52 in
    Qred (inject_Z (round_half_even (q / 2 ^ ex)) * 2 ^ ex).

(** Every arithmetic operation rounds its exact result. *)
Definition lift2 (f : Q -> Q -> Q) (a b : pyfloat) : pyfloat :=
  match a, b with
  | Fin x, Fin y => Fin (binary64 (f x y))
  | _, _ => NaN
  end.

Definition add : pyfloat -> pyfloat -> pyfloat := lift2 Qplus.
Definition sub : pyfloat -> pyfloat -> pyfloat := lift2 Qminus.
Definition mul : pyfloat -> pyfloat -> pyfloat := lift2 Qmult.

(** Division by a non-zero constant. *)
Definition div : pyfloat -> pyfloat -> pyfloat := lift2 Qdiv.

(** Negation and absolute value are exact. *)
Definition neg (a : pyfloat) : pyfloat :=
  match a with Fin x => Fin (- x) | NaN => NaN end.

(** [abs(a)]. *)
Definition abs (a : pyfloat) : pyfloat :=
  match a with Fin x => Fin (Qabs x) | NaN => NaN end.

(** [a < 0]: false on not-a-number. *)
Definition ltb0 (a : pyfloat) : bool :=
  match a with
  | Fin x => match x ?= 0 with Lt => true | _ => false end
  | NaN => false
  end%Q.

(** [bool(a)]: zero is the one falsy float. *)
Definition truthy (a : pyfloat) : bool :=
  match a with
  | Fin x => negb (Qeq_bool x 0)
  | NaN => true
  end.

(** [float(n)] for an integer, [float(n / d)] for a fraction. *)
Definition of_Z (n : Z) : pyfloat := Fin (binary64 (inject_Z n)).
Definition of_fraction (n d : Z) : pyfloat :=
  Fin (binary64 (inject_Z n / inject_Z d)).

(** [int(a)]: truncation towards zero; [ValueError] on not-a-number. *)
Definition int (a : pyfloat) : outcome Z :=
  match a with
  | Fin x => Ok (Z.quot (Qnum x) (Zpos (Qden x)))
  | NaN => Raise ValueError
  end.

(** [round(a)]: to the nearest integer, ties to even; [ValueError] on
    not-a-number. *)
Definition round (a : pyfloat) : outcome Z :=
  match a with
  | Fin x => Ok (round_half_even x)
  | NaN => Raise ValueError
  end.

End Float.

(** Truthiness of an optional float ([None] is falsy). *)
Definition truthy_opt (a : option pyfloat) : bool :=
  match a with
  | Some x => Float.truthy x
  | None => false
  end.

(** ** Coordinate codec *)

(** A RATIONAL of the metadata: numerator and denominator. *)
Definition rational : Type := Z * Z.

(** The float that a stored rational becomes in arithmetic with a float:
    PIL hands out an [IFDRational], a fraction that is converted by
    [float], or not-a-number for a zero denominator. *)
Definition ifd_value (r : rational) : pyfloat :=
  let '(n, d) := r in
  if d =? 0 then NaN else Float.of_fraction n d.

(** [ref in ['S', 'W']] *)
Definition is_south_or_west (ref : string) : bool :=
  String.eqb ref "S" || String.eqb ref "W".

(** [get_decimal_from_dms(dms, ref)]: indexing the tuple raises
    [IndexError] when it is too short. *)
Definition get_decimal_from_dms (dms : list rational) (ref : string) : outcome pyfloat :=
  match nth_error dms 0 with
  | None => Raise IndexError
  | Some degrees =>
      match nth_error dms 1 with
      | None => Raise IndexError
      | Some minutes =>
          match nth_error dms 2 with
          | None => Raise IndexError
          | Some seconds =>
              let decimal :=
                Float.add
                  (Float.add (ifd_value degrees)
                             (Float.div (ifd_value minutes) (Fin 60)))
                  (Float.div (ifd_value seconds) (Fin 3600)) in
              Ok (if is_south_or_west ref then Float.neg decimal else decimal)
          end
      end
  end.

(** [to_deg(value, loc)], the local function of [set_gps_location]. *)
Definition to_deg (value : pyfloat) (loc : list string) : outcome (list rational * string) :=
  match (if Float.ltb0 value then nth_error loc 1 else nth_error loc 0) with
  | None => Raise IndexError
  | Some loc_value =>
      let abs_value := Float.abs value in
      match Float.int abs_value with
      | Raise e => Raise e
      | Ok deg =>
          let t1 := Float.mul (Float.sub abs_value (Float.of_Z deg)) (Fin 60) in
          match Float.int t1 with
          | Raise e => Raise e
          | Ok min =>
              match Float.round
                      (Float.mul
                         (Float.mul (Float.sub t1 (Float.of_Z min)) (Fin 60))
                         (Fin 10000)) with
              | Raise e => Raise e
              | Ok sec => Ok ([(deg, 1); (min, 1); (sec, 10000)], loc_value)
              end
          end
      end
  end.

(** The GPS directory of a file's metadata, as far as the program reads and
    writes it; [gps_rest] stands for every other GPS tag. *)
Record gps_info : Type := mkGps {
  GPSLatitudeRef : option string;
  GPSLatitude : option (list rational);
  GPSLongitudeRef : option string;
  GPSLongitude : option (list rational);
  gps_rest : Z
}.

Definition empty_gps : gps_info := mkGps None None None None 0.

(** [get_lat_lon(exif_data)], with [exif_data.get("GPSInfo")] for the
    dictionary.  The four values must be there and truthy: a non-empty
    tuple, a non-empty string. *)
Definition get_lat_lon (gps : option gps_info) : outcome (option pyfloat * option pyfloat) :=
  match gps with
  | Some gps_info =>
      match GPSLatitude gps_info, GPSLatitudeRef gps_info,
            GPSLongitude gps_info, GPSLongitudeRef gps_info with
      | Some (d :: l), Some (String c r), Some (d' :: l'), Some (String c' r') =>
          match get_decimal_from_dms (d :: l) (String c r) with
          | Raise e => Raise e
          | Ok lat =>
              match get_decimal_from_dms (d' :: l') (String c' r') with
              | Raise e => Raise e
              | Ok lon => Ok (Some lat, Some lon)
              end
          end
      | _, _, _, _ => Ok (None, None)
      end
  | None => Ok (None, None)
  end.

(** ** The world: files, printed lines, environment *)

(** What a file holds, whatever its name says. *)
Inductive container : Type :=
  | JPEG | PNG | TIFF | WEBP | GIF | BMP | NotAnImage.

(** The picture and the tags other than GPS.  [ConvertedRGB c] is what
    [img.convert('RGB')] followed by [save(.., "JPEG", quality=95)] makes of
    [c]; [Torn c] is what is left of [c] in a file that was truncated for
    rewriting and whose rewriting was cut short. *)
Inductive content : Type :=
  | Original (id : Z)
  | ConvertedRGB (c : content)
  | Torn (c : content).

Record file : Type := mkFile {
  fmt : container;
  gps : option gps_info;
  body : content
}.

(** The lines the program prints, one constructor per [print]. *)
Inductive msg : Type :=
  | ErrorExtractingTimestamp (filename : string)
  | NoTimestampFound (filename : string)
  | WarnReferenceDirMissing (directory : string)
  | IndexingImages (directory : string)
  | WarnNoTargetTimestamp (target : string)
  | NoCandidates
  | FoundClosest (filename : string) (delta : Z)
  | ErrorProcessingReference (filename : string) (e : exn)
  | DidntFindCandidates
  | WarnPiexifMissing
  | Converting (name : string)
  | ErrorConverting (name : string) (e : exn)
  | WarnFormatNotSupported (name : string)
  | SavedGps (path : string)
  | RemovedOriginal (name : string)
  | ErrorSavingGps (path : string) (e : exn)
  | Skipping (filename : string)
  | ErrorProcessing (filename : string) (e : exn)
  | ErrorPhotosDirMissing.

(** The operations of the environment that can fail for reasons the model
    does not see (permissions, damaged data, a full disk).  An insertion can
    fail in two places: [OpInsert] before the file is touched, [OpWrite]
    while the file is written back. *)
Inductive op : Type :=
  | OpOpen | OpSave | OpLoad | OpDump | OpInsert | OpWrite | OpRemove | OpListdir.

Record world : Type := mkWorld {
  files : gmap string file;          (* path -> file *)
  printed : list msg;                (* oldest first *)
  piexif_installed : bool;
  fault : op -> string -> bool;      (* does [op] fail on this path? *)
  listing : string -> option (list string)
                                     (* [os.listdir]; [None]: no such directory *)
}.

Definition with_files (fs : gmap string file) (w : world) : world :=
  mkWorld fs (printed w) (piexif_installed w) (fault w) (listing w).

Definition with_printed (l : list msg) (w : world) : world :=
  mkWorld (files w) l (piexif_installed w) (fault w) (listing w).

(** ** The state-and-exception monad *)

Definition M (A : Type) : Type := world -> world * outcome A.

Definition ret {A} (a : A) : M A := fun w => (w, Ok a).

Definition bind {A B} (m : M A) (k : A -> M B) : M B :=
  fun w =>
    match m w with
    | (w', Ok a) => k a w'
    | (w', Raise e) => (w', Raise e)
    end.

Definition raise {A} (e : exn) : M A := fun w => (w, Raise e).

(** [try: m  except <catches> as e: h e]; what the world has become when
    the exception is raised stays. *)
Definition try_except {A} (m : M A) (catches : exn -> bool) (h : exn -> M A) : M A :=
  fun w =>
    match m w with
    | (w', Raise e) => if catches e then h e w' else (w', Raise e)
    | r => r
    end.

(** [except Exception]: every class of [exn]. *)
Definition Exception (e : exn) : bool := true.

Definition lift {A} (o : outcome A) : M A := fun w => (w, o).

Definition print (m : msg) : M unit :=
  fun w => (with_printed (printed w ++ [m])%list w, Ok tt).

Declare Scope monad_scope.
Delimit Scope monad_scope with monad.
Notation "x <- m ;; k" := (bind m (fun x => k))
  (at level 100, m at next level, right associativity) : monad_scope.
Notation "m ;; k" := (bind m (fun _ => k))
  (at level 100, right associativity) : monad_scope.
Local Open Scope monad_scope.

(** ** The environment's operations *)

(** [os.path.exists(p)] for a file. *)
Definition os_path_exists (p : string) : M bool :=
  fun w => (w, Ok (bool_decide (is_Some (files w !! p)))).

(** [os.remove(p)] *)
Definition os_remove (p : string) : M unit :=
  fun w =>
    if fault w OpRemove p then (w, Raise OSError)
    else match files w !! p with
         | Some _ => (with_files (delete p (files w)) w, Ok tt)
         | None => (w, Raise OSError)
         end.

(** [os.listdir(d)] *)
Definition os_listdir (d : string) : M (list string) :=
  fun w =>
    if fault w OpListdir d then (w, Raise OSError)
    else match listing w d with
         | Some l => (w, Ok l)
         | None => (w, Raise OSError)
         end.

(** [os.path.exists(d)] for a directory. *)
Definition os_dir_exists (d : string) : M bool :=
  fun w => (w, Ok (match listing w d with Some _ => true | None => false end)).

(** [Image.open(p)]: the file must be there and hold an image. *)
Definition Image_open (p : string) : M file :=
  fun w =>
    if fault w OpOpen p then (w, Raise OSError)
    else match files w !! p with
         | Some f =>
             match fmt f with
             | NotAnImage => (w, Raise OSError)
             | _ => (w, Ok f)
             end
         | None => (w, Raise OSError)
         end.

(** [image._getexif()]: the image classes of JPEG, PNG and WebP files have
    the method, the others do not. *)
Definition getexif (image : file) : outcome (option gps_info) :=
  match fmt image with
  | JPEG | PNG | WEBP => Ok (gps image)
  | _ => Raise AttributeError
  end.

(** [get_exif_data(image)], restricted to the ["GPSInfo"] entry of the
    dictionary it builds. *)
Definition get_exif_data (image : file) : outcome (option gps_info) :=
  match getexif image with
  | Ok info => Ok info
  | Raise e => Raise e
  end.

(** [img.convert('RGB').save(new_filepath, "JPEG", quality=95)]: a new JPEG
    file without metadata. *)
Definition Image_save_jpeg (img : file) (new_filepath : string) : M unit :=
  fun w =>
    if fault w OpSave new_filepath then (w, Raise OSError)
    else (with_files
            (<[new_filepath := mkFile JPEG None (ConvertedRGB (body img))]> (files w)) w,
          Ok tt).

(** [piexif.load(p)]: the GPS directory of the file's metadata, empty when
    there is none.  piexif reads JPEG, TIFF and WebP data. *)
Definition piexif_load (p : string) : M gps_info :=
  fun w =>
    if fault w OpLoad p then (w, Raise OSError)
    else match files w !! p with
         | Some f =>
             match fmt f with
             | JPEG | TIFF | WEBP =>
                 (w, Ok (match gps f with Some g => g | None => empty_gps end))
             | _ => (w, Raise InvalidImageDataError)
             end
         | None => (w, Raise OSError)
         end.

(** A rational is packed as two unsigned 32-bit integers. *)
Definition packable (r : rational) : bool :=
  let '(n, d) := r in
  (0 <=? n) && (n <? 2 ^ 32) && (0 <=? d) && (d <? 2 ^ 32).

Definition packable_tuple (t : option (list rational)) : bool :=
  match t with
  | Some l => forallb packable l
  | None => true
  end.

(** [piexif.dump(exif_dict)]: [struct.error] for a rational that does not
    fit.  The result stands for the bytes. *)
Definition piexif_dump (p : string) (g : gps_info) : M gps_info :=
  fun w =>
    if fault w OpDump p then (w, Raise ValueError)
    else if packable_tuple (GPSLatitude g) && packable_tuple (GPSLongitude g)
         then (w, Ok g)
         else (w, Raise StructError).

(** What is left at a path when the rewriting of the file [f] was cut
    short: the file was truncated, and what has been written of the new data
    is no image to rely on. *)
Definition torn (f : file) : file := mkFile NotAnImage None (Torn (body f)).

(** [piexif.insert(exif_bytes, p)].  piexif reads the whole file, takes
    JPEG and WebP data only, and builds the new data in memory: a failure up
    to there, or of the second [open], leaves the file as it was.  Then the
    file is opened with mode [wb+], which truncates it, and the new data is
    written: a failure of that write leaves a torn file. *)
Definition piexif_insert (exif_bytes : gps_info) (p : string) : M unit :=
  fun w =>
    if fault w OpInsert p then (w, Raise OSError)
    else match files w !! p with
         | Some f =>
             match fmt f with
             | JPEG | WEBP =>
                 if fault w OpWrite p then
                   (with_files (<[p := torn f]> (files w)) w, Raise OSError)
                 else
                   (with_files
                      (<[p := mkFile (fmt f) (Some exif_bytes) (body f)]> (files w)) w,
                    Ok tt)
             | _ => (w, Raise InvalidImageDataError)
             end
         | None => (w, Raise OSError)
         end.

(** [import piexif] *)
Definition import_piexif : M unit :=
  fun w => if piexif_installed w then (w, Ok tt) else (w, Raise ImportError).

(** ** Reference index *)

(** An entry of the reference index: [{"time", "path", "filename"}]. *)
Record ref_entry : Type := mkRef {
  ref_time : Datetime.datetime;
  ref_path : string;
  ref_filename : string
}.

Definition image_extensions : list string :=
  [".png"; ".jpg"; ".jpeg"; ".tiff"; ".bmp"; ".gif"].

Definition is_image_name (filename : string) : bool :=
  Str.endswith_any (Str.lower filename) image_extensions.

(** What [extract_timestamp] prints on the way to its result. *)
Definition extract_timestamp_prints (filename : string) : list msg :=
  match re_search timestamp_pattern filename with
  | Some m =>
      let '(month, day, hour, minute, second) := groups m in
      match Datetime.make 2022 month day hour minute second with
      | Ok _ => []
      | Raise _ => [ErrorExtractingTimestamp filename]
      end
  | None => [NoTimestampFound filename]
  end.

Fixpoint print_all (l : list msg) : M unit :=
  match l with
  | [] => ret tt
  | m :: l' => print m ;; print_all l'
  end.

(** A call of [extract_timestamp] from code that runs in the world. *)
Definition call_extract_timestamp (filename : string) : M (option Datetime.datetime) :=
  print_all (extract_timestamp_prints filename) ;;
  lift (extract_timestamp filename).

(** The loop of [get_reference_images]. *)
Fixpoint index_files (directory : string) (names : list string)
    (references : list ref_entry) : M (list ref_entry) :=
  match names with
  | [] => ret references
  | filename :: rest =>
      if is_image_name filename then
        dt <- call_extract_timestamp filename ;;
        match dt with
        | Some t =>
            index_files directory rest
              (references ++ [mkRef t (OsPath.join directory filename) filename])%list
        | None => index_files directory rest references
        end
      else index_files directory rest references
  end.

(** [get_reference_images(directory)] *)
Definition get_reference_images (directory : string) : M (list ref_entry) :=
  present <- os_dir_exists directory ;;
  if negb present then
    print (WarnReferenceDirMissing directory) ;; ret []
  else
    print (IndexingImages directory) ;;
    names <- os_listdir directory ;;
    index_files directory names [].

(** ** Closest-match resolver *)

(** [list.sort(key=...)]: ascending and stable.  An element goes in front
    of the first element of the sorted rest whose key is not smaller. *)
Fixpoint insert_by_key {A} (key : A -> Z) (x : A) (l : list A) : list A :=
  match l with
  | [] => [x]
  | y :: t => if key x <=? key y then x :: y :: t else y :: insert_by_key key x t
  end.

Fixpoint sort_by_key {A} (key : A -> Z) (l : list A) : list A :=
  match l with
  | [] => []
  | x :: t => insert_by_key key x (sort_by_key key t)
  end.

(** The candidates of a target time: [(delta, ref)] for every entry. *)
Definition candidates_of (target_time : Datetime.datetime)
    (reference_images : list ref_entry) : list (Z * ref_entry) :=
  map (fun ref =>
         (Datetime.abs_delta (Datetime.diff (ref_time ref) target_time), ref))
      reference_images.

(** The body of the [try] in the loop over the candidates, up to the test
    [if lat and lon]. *)
Definition read_lat_lon (ref : ref_entry) : M (option pyfloat * option pyfloat) :=
  image <- Image_open (ref_path ref) ;;
  exif <- lift (get_exif_data image) ;;
  lift (get_lat_lon exif).

(** The body of the loop over the candidates: [Some] for
    [return lat, lon], [None] to go on with the next candidate. *)
Definition try_candidate (delta : Z) (ref : ref_entry)
    : M (option (option pyfloat * option pyfloat)) :=
  try_except
    (ll <- read_lat_lon ref ;;
     if truthy_opt (fst ll) && truthy_opt (snd ll) then
       print (FoundClosest (ref_filename ref) delta) ;;
       ret (Some ll)
     else ret None)
    Exception
    (fun e =>
       print (ErrorProcessingReference (ref_filename ref) e) ;;
       ret None).

(** [for delta, ref in candidates: ...] and what follows the loop. *)
Fixpoint scan_candidates (candidates : list (Z * ref_entry))
    : M (option pyfloat * option pyfloat) :=
  match candidates with
  | [] => print DidntFindCandidates ;; ret (None, None)
  | (delta, ref) :: rest =>
      r <- try_candidate delta ref ;;
      match r with
      | Some ll => ret ll
      | None => scan_candidates rest
      end
  end.

(** [find_closest_gps_in_reference(target_filename, reference_images)] *)
Definition find_closest_gps_in_reference (target_filename : string)
    (reference_images : list ref_entry) : M (option pyfloat * option pyfloat) :=
  target_time <- call_extract_timestamp target_filename ;;
  match target_time with
  | None =>
      print (WarnNoTargetTimestamp target_filename) ;; ret (None, None)
  | Some target_time =>
      let candidates := candidates_of target_time reference_images in
      match candidates with
      | [] => print NoCandidates ;; ret (None, None)
      | _ :: _ => scan_candidates (sort_by_key fst candidates)
      end
  end.

(** ** Metadata writer *)

(** The conversion of a PNG file: the [try] and its [except] in the format
    gate.  [inl p] to go on with the working path [p], [inr p] for
    [return p]. *)
Definition convert_png (filepath : string) : M (string + string) :=
  let original_filepath := filepath in
  try_except
    (print (Converting (OsPath.basename filepath)) ;;
     img <- Image_open filepath ;;
     let new_filepath := fst (OsPath.splitext filepath) ++ ".jpg" in
     Image_save_jpeg img new_filepath ;;
     ret (inl new_filepath))
    Exception
    (fun e =>
       print (ErrorConverting (OsPath.basename filepath) e) ;;
       ret (inr original_filepath)).

Definition tiff_family : list string := [".jpg"; ".jpeg"; ".tif"; ".tiff"].

(** The format gate of [set_gps_location]: [inl p] to go on with the
    working path [p], [inr p] for [return p]. *)
Definition format_gate (filepath : string) : M (string + string) :=
  let original_filepath := filepath in
  if negb (Str.endswith_any (Str.lower filepath) tiff_family) then
    if Str.endswith (Str.lower filepath) ".png" then convert_png filepath
    else
      print (WarnFormatNotSupported (OsPath.basename filepath)) ;;
      ret (inr original_filepath)
  else ret (inl filepath).

(** The four assignments to [exif_dict["GPS"]]. *)
Definition set_gps_fields (g : gps_info) (lat_ref : string) (lat_deg : list rational)
    (lon_ref : string) (lon_deg : list rational) : gps_info :=
  mkGps (Some lat_ref) (Some lat_deg) (Some lon_ref) (Some lon_deg) (gps_rest g).

(** [# If converted, remove original]: the statement that follows the
    insertion.  An [OSError] of [os.remove] is passed over. *)
Definition remove_original (filepath original_filepath : string) : M unit :=
  if negb (String.eqb filepath original_filepath) then
    present <- os_path_exists original_filepath ;;
    if present then
      try_except
        (os_remove original_filepath ;;
         print (RemovedOriginal (OsPath.basename original_filepath)))
        is_OSError
        (fun _ => ret tt)
    else ret tt
  else ret tt.

(** The body of the last [try] of [set_gps_location]. *)
Definition write_gps (filepath original_filepath : string) (lat lon : pyfloat)
    : M string :=
  exif_dict <- piexif_load filepath ;;
  lat_dms <- lift (to_deg lat ["N"; "S"]) ;;
  lon_dms <- lift (to_deg lon ["E"; "W"]) ;;
  let exif_dict :=
    set_gps_fields exif_dict (snd lat_dms) (fst lat_dms) (snd lon_dms) (fst lon_dms) in
  exif_bytes <- piexif_dump filepath exif_dict ;;
  piexif_insert exif_bytes filepath ;;
  print (SavedGps filepath) ;;
  remove_original filepath original_filepath ;;
  ret filepath.

(** The first [try] of [set_gps_location]: the import, with the warning
    and [raise(e)] of its [except ImportError]. *)
Definition require_piexif : M unit :=
  try_except import_piexif is_ImportError
    (fun e => print WarnPiexifMissing ;; raise e).

(** [set_gps_location(filepath, lat, lon)] *)
Definition set_gps_location (filepath : string) (lat lon : pyfloat) : M string :=
  require_piexif ;;
  let original_filepath := filepath in
  gate <- format_gate filepath ;;
  match gate with
  | inr p => ret p
  | inl filepath =>
      try_except
        (write_gps filepath original_filepath lat lon)
        Exception
        (fun e =>
           print (ErrorSavingGps filepath e) ;;
           ret original_filepath)
  end.

(** ** Batch orchestrator *)

(** [main] resolves every photo through the reference index alone:
    [get_manual_gps] and [get_vision_api_location] are defined in the
    source but never called (the call of the manual entry and its
    [if stop: break] are commented out), so they have no part in the loop.
    The window toolkit is left out; the splice into the HTML page, which
    follows the loop, is [inject] below. *)

Definition PHOTOS_DIR : string := "photos".
Definition screenshot_dir : string := "screenshot".

(** An entry of [new_photos_data]. *)
Record photo_data : Type := mkPhoto {
  photo_lat : pyfloat;
  photo_lon : pyfloat;
  photo_img : string;
  photo_title : string;
  photo_screenshot : option string
}.

(** The loop over the screenshot directory: the first name that does not
    start with a dot and has the target's base name. *)
Fixpoint find_screenshot (target_base : string) (names : list string) : option string :=
  match names with
  | [] => None
  | f :: rest =>
      if Str.startswith f "." then find_screenshot target_base rest
      else if String.eqb (Str.lower (fst (OsPath.splitext f))) target_base
           then Some (screenshot_dir ++ "/" ++ f)
           else find_screenshot target_base rest
  end.

(** What [main] does with the resolved pair: the statement
    [if lat and lon: ... else: ...]. *)
Definition process_resolved (filename filepath : string)
    (lat lon : option pyfloat) (new_photos_data : list photo_data)
    : M (list photo_data) :=
  match lat, lon with
  | Some la, Some lo =>
      if Float.truthy la && Float.truthy lo then
        final_path <- set_gps_location filepath la lo ;;
        let final_filename := OsPath.basename final_path in
        let web_path := PHOTOS_DIR ++ "/" ++ final_filename in
        present <- os_dir_exists screenshot_dir ;;
        shot <- (if present then
                   names <- os_listdir screenshot_dir ;;
                   ret (find_screenshot
                          (Str.lower (fst (OsPath.splitext final_filename))) names)
                 else ret None) ;;
        ret (new_photos_data ++ [mkPhoto la lo web_path final_filename shot])%list
      else print (Skipping filename) ;; ret new_photos_data
  | _, _ => print (Skipping filename) ;; ret new_photos_data
  end.

(** One turn of the loop of [main] for a name with an image extension. *)
Definition process_photo (filename : string) (reference_images : list ref_entry)
    (new_photos_data : list photo_data) : M (list photo_data) :=
  let filepath := OsPath.join PHOTOS_DIR filename in
  try_except
    (ll <- find_closest_gps_in_reference filename reference_images ;;
     process_resolved filename filepath (fst ll) (snd ll) new_photos_data)
    Exception
    (fun e => print (ErrorProcessing filename e) ;; ret new_photos_data).

(** [for filename in os.listdir(PHOTOS_DIR): ...] *)
Fixpoint photo_loop (names : list string) (reference_images : list ref_entry)
    (new_photos_data : list photo_data) : M (list photo_data) :=
  match names with
  | [] => ret new_photos_data
  | filename :: rest =>
      if is_image_name filename then
        data <- process_photo filename reference_images new_photos_data ;;
        photo_loop rest reference_images data
      else photo_loop rest reference_images new_photos_data
  end.

(** [main], from the index of the reference directory to the end of the
    loop; the result is [new_photos_data], or [None] for the early
    [return]. *)
Definition main (all_pictures_dir : string) : M (option (list photo_data)) :=
  reference_images <- get_reference_images all_pictures_dir ;;
  present <- os_dir_exists PHOTOS_DIR ;;
  if negb present then
    print ErrorPhotosDirMissing ;; ret None
  else
    names <- os_listdir PHOTOS_DIR ;;
    data <- photo_loop names reference_images [] ;;
    ret (Some data).

(** ** Notions used to state the properties *)

(** [matches p m]: the text [m] is matched, character by character, by the
    atoms [p]. *)
Inductive matches : list atom -> string -> Prop :=
  | matches_nil : matches [] EmptyString
  | matches_cons a p c m :
      atom_matches a c = true -> matches p m -> matches (a :: p) (String c m).

(** The fields of [t] pass the checks of the [datetime] constructor. *)
Definition valid_datetime (t : Datetime.datetime) : bool :=
  Datetime.valid (Datetime.year t) (Datetime.month t) (Datetime.day t)
                 (Datetime.hour t) (Datetime.minute t) (Datetime.second t).

(** The day before a day of 2022, written out on the calendar. *)
Definition day_before_2022 (mo d : Z) : Z * Z * Z :=
  if 1 <? d then (2022, mo, d - 1)
  else if 1 <? mo then (2022, mo - 1, Datetime.days_in_month 2022 (mo - 1))
  else (2021, 12, 31).

(** The check that, on a day of 2022, [ord2ymd] inverts [ymd2ord] and the
    ordinal before is the day before. *)
Definition ordinal_check (mo d : Z) : bool :=
  negb ((1 <=? d) && (d <=? Datetime.days_in_month 2022 mo))
  || (let n := Datetime.ymd2ord 2022 mo d in
      let '(y1, m1, d1) := Datetime.ord2ymd n in
      let '(y0, m0, d0) := Datetime.ord2ymd (n - 1) in
      let '(y', m', d') := day_before_2022 mo d in
      (y1 =? 2022) && (m1 =? mo) && (d1 =? d)
      && (y0 =? y') && (m0 =? m') && (d0 =? d')
      && (0 <? n - 1) && (n <=? Datetime.MAXORDINAL)).

(** Nine hours before a time of 2022, written out on the calendar. *)
Definition nine_hours_before_2022 (mo d h mi s : Z) : Datetime.datetime :=
  if 9 <=? h then Datetime.mkDatetime 2022 mo d (h - 9) mi s
  else
    let '(y', mo', d') := day_before_2022 mo d in
    Datetime.mkDatetime y' mo' d' (h + 15) mi s.

(** The unit roundoff of binary64 and half the step of its subnormal
    grid. *)
Definition u53 : Q := Eval vm_compute in (1 # 2 ^ 53).
Definition eta : Q := Eval vm_compute in (1 # 2 ^ 1075).

(** The rounding tolerance of the seconds: half a unit of the denominator
    10000, in degrees, [1 / (2 * 10000 * 3600)], and [10 ^ -12] of a degree
    for the roundings of the float operations on the way. *)
Definition dms_tolerance : Q := (1 # 72000000) + (1 # 1000000000000).

(** [y] is [x] up to the rounding tolerance. *)
Definition within_tolerance (y x : Q) : Prop := (Qabs (y - x) <= dms_tolerance)%Q.

(** Ascending order of keys. *)
Definition key_le {A} (key : A -> Z) (a b : A) : Prop := key a <= key b.

(** What reading the metadata of a reference entry gives in a world: the
    outcome of opening the image, taking its metadata and decoding the
    coordinate. *)
Definition gps_of (w : world) (ref : ref_entry) : outcome (option pyfloat * option pyfloat) :=
  snd (read_lat_lon ref w).

(** The metadata yields a coordinate: both values are there. *)
Definition present_gps (w : world) (ref : ref_entry) : option (pyfloat * pyfloat) :=
  match gps_of w ref with
  | Ok (Some lat, Some lon) => Some (lat, lon)
  | _ => None
  end.

(** The metadata yields a coordinate that passes the test [if lat and lon]:
    both values are there and neither is zero. *)
Definition usable_gps (w : world) (ref : ref_entry) : option (pyfloat * pyfloat) :=
  match present_gps w ref with
  | Some (lat, lon) => if Float.truthy lat && Float.truthy lon then Some (lat, lon) else None
  | None => None
  end.

(** The first candidate of a list with a usable coordinate. *)
Fixpoint first_usable (w : world) (candidates : list (Z * ref_entry))
    : option (pyfloat * pyfloat) :=
  match candidates with
  | [] => None
  | c :: rest =>
      match usable_gps w (snd c) with
      | Some ll => Some ll
      | None => first_usable w rest
      end
  end.

Definition pair_of (r : option (pyfloat * pyfloat)) : option pyfloat * option pyfloat :=
  match r with
  | Some (lat, lon) => (Some lat, Some lon)
  | None => (None, None)
  end.

(** The float is zero. *)
Definition is_zero (a : pyfloat) : Prop :=
  match a with Fin q => (q == 0)%Q | NaN => False end.

(** The absolute time difference between an entry and a target time. *)
Definition delta_to (t : Datetime.datetime) (ref : ref_entry) : Z :=
  Datetime.abs_delta (Datetime.diff (ref_time ref) t).

(** The candidates in the order in which the resolver walks them. *)
Definition walk_order (t : Datetime.datetime) (refs : list ref_entry) : list (Z * ref_entry) :=
  sort_by_key fst (candidates_of t refs).

(** The resolver's rule as the specification words it: the first candidate
    of the walk whose metadata yields a present coordinate wins. *)
Definition first_present_wins : Prop :=
  forall (w : world) (target : string) (refs : list ref_entry)
         (t : Datetime.datetime) (before after : list (Z * ref_entry))
         (c : Z * ref_entry) (lat lon : pyfloat),
    extract_timestamp target = Ok (Some t) ->
    walk_order t refs = (before ++ c :: after)%list ->
    (forall c', In c' before -> present_gps w (snd c') = None) ->
    present_gps w (snd c) = Some (lat, lon) ->
    snd (find_closest_gps_in_reference target refs w) = Ok (Some lat, Some lon).

(** What [Image.open] gives for a path in a world. *)
Definition opened (w : world) (p : string) : outcome file := snd (Image_open p w).

(** The path of the JPEG file that the conversion of [filepath] writes. *)
Definition converted_path (filepath : string) : string :=
  (fst (OsPath.splitext filepath) ++ ".jpg")%string.

(** The last [try] of the writer gets as far as the write of the insertion
    on the path [p]: the load, the two conversions and the dump succeed, and
    the insertion has read JPEG or WebP data and made the new data. *)
Definition reaches_write (w : world) (p : string) (lat lon : pyfloat) : Prop :=
  exists (g : gps_info) (lat_dms lon_dms : list rational * string) (f : file),
    snd (piexif_load p w) = Ok g
    /\ to_deg lat ["N"; "S"] = Ok lat_dms
    /\ to_deg lon ["E"; "W"] = Ok lon_dms
    /\ (exists exif_bytes,
          snd (piexif_dump p (set_gps_fields g (snd lat_dms) (fst lat_dms)
                                (snd lon_dms) (fst lon_dms)) w)
          = Ok exif_bytes)
    /\ fault w OpInsert p = false
    /\ files w !! p = Some f
    /\ (fmt f = JPEG \/ fmt f = WEBP).

(** The writer's rule as the specification words it: whenever the body of
    the last [try] raises, the original path is returned and the file that
    was given is as it was before the call. *)
Definition failed_write_leaves_file : Prop :=
  forall (w w1 w2 : world) (filepath work : string) (lat lon : pyfloat) (e : exn),
    piexif_installed w = true ->
    format_gate filepath w = (w1, Ok (inl work)) ->
    write_gps work filepath lat lon w1 = (w2, Raise e) ->
    let r := set_gps_location filepath lat lon w in
    snd r = Ok filepath
    /\ files (fst r) !! filepath = files w !! filepath.

(** The coordinate that reading a file's metadata gives: [get_exif_data]
    and [get_lat_lon] on the opened image. *)
Definition decode_file (f : file) : outcome (option pyfloat * option pyfloat) :=
  match get_exif_data f with
  | Ok exif => get_lat_lon exif
  | Raise e => Raise e
  end.

(** The lines that close the turn of a photo without an entry in
    [new_photos_data]: the photo was skipped, or its processing raised. *)
Definition is_closing (m : msg) : bool :=
  match m with
  | Skipping _ | ErrorProcessing _ _ => true
  | _ => false
  end.

Definition closing_events (l : list msg) : nat :=
  List.length (List.filter is_closing l).

(** [m] prints no closing line, and what it returns satisfies [P]. *)
Definition quiet_with {A} (P : A -> Prop) (m : M A) : Prop :=
  forall w, exists l,
    printed (fst (m w)) = (printed w ++ l)%list
    /\ closing_events l = 0%nat
    /\ match snd (m w) with Ok a => P a | Raise _ => True end.

Definition quiet {A} (m : M A) : Prop := quiet_with (fun _ => True) m.

(** The orchestrator's rule as the specification words it, for the missing
    dependency: when piexif is missing and the first photo resolves to a
    coordinate, so that the writer raises its [ImportError], the run is
    aborted: the loop ends in an exception. *)
Definition missing_dependency_aborts : Prop :=
  forall (w : world) (filename : string) (rest : list string)
         (refs : list ref_entry) (lat lon : pyfloat),
    piexif_installed w = false ->
    is_image_name filename = true ->
    snd (find_closest_gps_in_reference filename refs w) = Ok (Some lat, Some lon) ->
    exists e, snd (photo_loop (filename :: rest) refs [] w) = Raise e.

(** ** Example worlds *)

(** 48 51' 23.76" N, 2 21' 7.92" E. *)
Definition gps_paris : gps_info :=
  mkGps (Some "N") (Some [(48, 1); (51, 1); (237600, 10000)])
        (Some "E") (Some [(2, 1); (21, 1); (79200, 10000)]) 0.

(** 37 15' 32.913" N, 112 57' 3.6065" W. *)
Definition gps_zion : gps_info :=
  mkGps (Some "N") (Some [(37, 1); (15, 1); (329130, 10000)])
        (Some "W") (Some [(112, 1); (57, 1); (36065, 10000)]) 0.

(** A point on the equator: 0 0' 0" N, 10 0' 0" E. *)
Definition gps_equator : gps_info :=
  mkGps (Some "N") (Some [(0, 1); (0, 1); (0, 10000)])
        (Some "E") (Some [(10, 1); (0, 1); (0, 10000)]) 0.

Definition no_fault : op -> string -> bool := fun _ _ => false.

(** A reference directory with pictures taken 40, 5 and 12 minutes after
    noon of 15 August 2022, and a photo directory with two targets. *)
Definition trip_listing (d : string) : option (list string) :=
  if String.eqb d "photo_all" then
    Some ["IMG_20220815_124000.jpg"; "IMG_20220815_120500.jpg";
          "IMG_20220815_121200.jpg"; "notes.txt"]
  else if String.eqb d "photos" then
    Some ["IMG_20220815_120000.png"; "IMG_20220815_120100.jpg";
          "IMG_20220815_120200.bmp"]
  else None.

Definition trip_files (nearest : option gps_info) : gmap string file :=
  <["photo_all/IMG_20220815_124000.jpg" := mkFile JPEG (Some gps_zion) (Original 1)]>
  (<["photo_all/IMG_20220815_120500.jpg" := mkFile JPEG nearest (Original 2)]>
  (<["photo_all/IMG_20220815_121200.jpg" := mkFile JPEG (Some gps_paris) (Original 3)]>
  (<["photos/IMG_20220815_120000.png" := mkFile PNG None (Original 4)]>
  (<["photos/IMG_20220815_120100.jpg" := mkFile JPEG None (Original 5)]>
  (<["photos/IMG_20220815_120200.bmp" := mkFile BMP None (Original 6)]> ∅))))).

(** The nearest reference picture carries no coordinate. *)
Definition trip_world : world :=
  mkWorld (trip_files None) [] true no_fault trip_listing.

(** The nearest reference picture was taken on the equator. *)
Definition equator_world : world :=
  mkWorld (trip_files (Some gps_equator)) [] true no_fault trip_listing.

(** The original of a converted picture cannot be removed. *)
Definition remove_fault : op -> string -> bool :=
  fun o _ => match o with OpRemove => true | _ => false end.
Definition sticky_world : world :=
  mkWorld (trip_files None) [] true remove_fault trip_listing.

(** The metadata of the JPEG target cannot be loaded. *)
Definition load_fault : op -> string -> bool :=
  fun o _ => match o with OpLoad => true | _ => false end.
Definition unreadable_world : world :=
  mkWorld (trip_files None) [] true load_fault trip_listing.

(** The insertion cannot get at the file: it fails before the file is
    touched. *)
Definition insert_fault : op -> string -> bool :=
  fun o _ => match o with OpInsert => true | _ => false end.
Definition locked_world : world :=
  mkWorld (trip_files None) [] true insert_fault trip_listing.

(** The disk fills up while the insertion writes a file back. *)
Definition write_fault : op -> string -> bool :=
  fun o _ => match o with OpWrite => true | _ => false end.
Definition full_world : world :=
  mkWorld (trip_files None) [] true write_fault trip_listing.

(** The trip, on a machine without piexif. *)
Definition no_piexif_world : world :=
  mkWorld (trip_files None) [] false no_fault trip_listing.

Definition trip_index : list ref_entry :=
  [mkRef (Datetime.mkDatetime 2022 8 15 12 40 0)
         "photo_all/IMG_20220815_124000.jpg" "IMG_20220815_124000.jpg";
   mkRef (Datetime.mkDatetime 2022 8 15 12 5 0)
         "photo_all/IMG_20220815_120500.jpg" "IMG_20220815_120500.jpg";
   mkRef (Datetime.mkDatetime 2022 8 15 12 12 0)
         "photo_all/IMG_20220815_121200.jpg" "IMG_20220815_121200.jpg"].

Definition noon : Datetime.datetime := Datetime.mkDatetime 2022 8 15 12 0 0.

(** The decimal values of [gps_paris], as the codec computes them. *)
Definition dms_value (dms : list rational) : Q :=
  match get_decimal_from_dms dms "N" with
  | Ok (Fin q) => q
  | _ => 0%Q
  end.
Definition paris_lat_q : Q :=
  Eval vm_compute in dms_value [(48, 1); (51, 1); (237600, 10000)].
Definition paris_lon_q : Q :=
  Eval vm_compute in dms_value [(2, 1); (21, 1); (79200, 10000)].
Definition paris_lat : pyfloat := Fin paris_lat_q.
Definition paris_lon : pyfloat := Fin paris_lon_q.

(** ** The page: steps 2 to 4 of [main] *)

(** [s.find(sub)] from the start of [s], as [None] for -1: the lowest
    index at which [sub] starts. *)
Fixpoint find_here (sub s : string) : option nat :=
  if String.prefix sub s then Some O
  else match s with
       | EmptyString => None
       | String _ t => option_map S (find_here sub t)
       end.

(** [s.find(sub, start)]: the lowest index from [start] on. *)
Definition str_find (s sub : string) (start : nat) : option nat :=
  if (start <=? String.length s)%nat
  then option_map (Nat.add start) (find_here sub (Str.drop start s))
  else None.

Definition start_marker : string := "var photos = [".
Definition end_marker : string := "];".

(** The line that closes the run. *)
Inductive page_line : Type :=
  | SuccessCreated (locations : nat)
  | ErrorNoClosingMarker
  | ErrorNoStartMarker.

(** The splice of [main]: from the text of [INPUT_HTML] and the
    serialised [new_photos_data] to the text written to [OUTPUT_HTML], if
    any, and the line printed.  [js_data] is what [json.dumps] gave, and
    [locations] is [len(new_photos_data)]. *)
Definition inject (html_content js_data : string) (locations : nat)
    : option string * page_line :=
  match str_find html_content start_marker 0 with
  | Some start_index =>
      match str_find html_content end_marker start_index with
      | Some end_index =>
          let new_html :=
            Str.take start_index html_content
            ++ ("var photos = " ++ js_data ++ ";")
            ++ Str.drop (end_index + String.length end_marker) html_content in
          (Some new_html, SuccessCreated locations)
      | None => (None, ErrorNoClosingMarker)
      end
  | None => (None, ErrorNoStartMarker)
  end.

(** ** Landmark detection *)

(** A landmark annotation of the response, as far as the program reads it:
    the [lat_lng] of each of its locations. *)
Definition landmark_annotation : Type := list (pyfloat * pyfloat).

Inductive vision_line : Type :=
  | VisionApiError (name : string) (e : exn).

(** The two nested loops with their [return] at the first location. *)
Fixpoint first_location (landmarks : list landmark_annotation) : option (pyfloat * pyfloat) :=
  match landmarks with
  | [] => None
  | landmark :: rest =>
      match landmark with
      | lat_lng :: _ => Some lat_lng
      | [] => first_location rest
      end
  end.

(** [get_vision_api_location(filepath)].  [landmark_detection] stands for
    the body of the [try] up to [response.landmark_annotations]: the client,
    the read of the file and the call of the service, with whatever they
    raise.  The result comes with the lines printed. *)
Definition get_vision_api_location (VISION_API_AVAILABLE : bool)
    (landmark_detection : string -> outcome (list landmark_annotation)) (filepath : string)
    : list vision_line * (option pyfloat * option pyfloat) :=
  if negb VISION_API_AVAILABLE then ([], (None, None))
  else
    match landmark_detection filepath with
    | Ok landmarks =>
        match first_location landmarks with
        | Some (latitude, longitude) => ([], (Some latitude, Some longitude))
        | None => ([], (None, None))
        end
    | Raise e => ([VisionApiError (OsPath.basename filepath) e], (None, None))
    end.

(** ** Further notions used to state the properties *)

(** [sub in s]: [sub] starts somewhere in [s]. *)
Fixpoint contains (sub s : string) : bool :=
  String.prefix sub s
  || match s with
     | EmptyString => false
     | String _ t => contains sub t
     end.

(** The time written in a name, before any shift: the leftmost match, read
    on the calendar. *)
Definition parsed_time (filename : string) : option Datetime.datetime :=
  match re_search timestamp_pattern filename with
  | Some m =>
      let '(month, day, hour, minute, second) := groups m in
      match Datetime.make 2022 month day hour minute second with
      | Ok dt => Some dt
      | Raise _ => None
      end
  | None => None
  end.

(** The seconds by which the time of a name is moved back. *)
Definition shift_of (filename : string) : Z :=
  if Str.startswith filename "SAMSUNG" then 9 * 3600 else 0.

(** The four GPS values that [get_lat_lon] asks for are there and truthy. *)
Definition gps_complete (g : gps_info) : bool :=
  match GPSLatitude g, GPSLatitudeRef g, GPSLongitude g, GPSLongitudeRef g with
  | Some (_ :: _), Some (String _ _), Some (_ :: _), Some (String _ _) => true
  | _, _, _, _ => false
  end.

(** The entry of the reference index for a name of the directory, if the
    name gives one. *)
Definition index_entry (directory filename : string) : option ref_entry :=
  if is_image_name filename then
    match extract_timestamp filename with
    | Ok (Some t) => Some (mkRef t (OsPath.join directory filename) filename)
    | _ => None
    end
  else None.

(** The reference index of a listing: the entries of its names, in the
    order of the listing. *)
Definition index_of (directory : string) (names : list string) : list ref_entry :=
  flat_map (fun filename =>
              match index_entry directory filename with
              | Some entry => [entry]
              | None => []
              end) names.

(** A computation moves the world along [R], and what it returns
    satisfies [P]. *)
Definition keeps (R : world -> world -> Prop) {A} (P : A -> Prop) (m : M A) : Prop :=
  forall w, R w (fst (m w))
            /\ match snd (m w) with Ok a => P a | Raise _ => True end.

(** The environment is the same: the installed modules, the faults and
    the listings of the directories. *)
Definition same_env (w w' : world) : Prop :=
  piexif_installed w' = piexif_installed w
  /\ fault w' = fault w
  /\ listing w' = listing w.

(** From [w] to [w'] the environment is the same and no file has changed
    but those at the paths [touched]. *)
Definition touches (touched : list string) (w w' : world) : Prop :=
  same_env w w'
  /\ forall q, ~ In q touched -> files w' !! q = files w !! q.

(** The file at [p] can take the metadata: it is there and holds JPEG or
    WebP data. *)
Definition insertable (w : world) (p : string) : Prop :=
  exists f, files w !! p = Some f /\ (fmt f = JPEG \/ fmt f = WEBP).

(** Something stands in the way of the last [try] of the writer on the
    path [p] before any file is written: a coordinate that is not a number,
    or a fault of the load, of the dump, or of the insertion before its
    write. *)
Definition write_blocked (w : world) (p : string) (lat lon : pyfloat) : Prop :=
  lat = NaN \/ lon = NaN
  \/ fault w OpLoad p = true \/ fault w OpDump p = true \/ fault w OpInsert p = true.

(** The name of the screenshot directory goes with the base name
    [target_base]: it is not hidden and its own base name, in small letters,
    is the same. *)
Definition screenshot_match (target_base f : string) : bool :=
  negb (Str.startswith f ".")
  && String.eqb (Str.lower (fst (OsPath.splitext f))) target_base.


(** [rec] is an entry that the loop of [main] can add for the name
    [filename]: both coordinates pass [if lat and lon], the title is the base
    name of the photo or of its converted copy, and the image path is the
    title under [PHOTOS_DIR]. *)
Definition entry_of (filename : string) (rec : photo_data) : Prop :=
  Float.truthy (photo_lat rec) = true
  /\ Float.truthy (photo_lon rec) = true
  /\ photo_img rec = (PHOTOS_DIR ++ "/" ++ photo_title rec)%string
  /\ (photo_title rec = OsPath.basename (OsPath.join PHOTOS_DIR filename)
      \/ photo_title rec
         = OsPath.basename (converted_path (OsPath.join PHOTOS_DIR filename))).

(** The entries go with names of the listing, in the order of the
    listing, at most one per name, and only names with an image extension
    have one. *)
Inductive entries_of : list string -> list photo_data -> Prop :=
  | entries_nil : entries_of [] []
  | entries_skip filename names recs :
      entries_of names recs -> entries_of (filename :: names) recs
  | entries_cons filename names rec recs :
      is_image_name filename = true -> entry_of filename rec ->
      entries_of names recs -> entries_of (filename :: names) (rec :: recs).

(** ** Further example worlds *)

(** A page with the array of an earlier run. *)
Definition page_head : string := "<script>".
Definition page_old : string := "{'lat': 1.5}".
Definition page_tail : string := "</script>".
Definition page : string :=
  page_head ++ start_marker ++ page_old ++ end_marker ++ page_tail.

(** The trip with a reference picture in a format whose image class has no
    [_getexif]. *)
Definition bmp_reference : ref_entry :=
  mkRef (Datetime.mkDatetime 2022 8 15 12 2 0)
        "photos/IMG_20220815_120200.bmp" "IMG_20220815_120200.bmp".

(** The converted copy of the PNG target cannot be loaded. *)
Definition load_copy_fault : op -> string -> bool :=
  fun o p =>
    match o with
    | OpLoad => String.eqb p "photos/IMG_20220815_120000.jpg"
    | _ => false
    end.
Definition half_done_world : world :=
  mkWorld (trip_files None) [] true load_copy_fault trip_listing.


(** Two reference pictures as far from noon as each other, twelve minutes
    after and twelve minutes before; the one taken after comes first in the
    index. *)
Definition tie_files : gmap string file :=
  <["photo_all/IMG_20220815_114800.jpg" := mkFile JPEG (Some gps_zion) (Original 7)]>
  (trip_files None).
Definition tie_world : world :=
  mkWorld tie_files [] true no_fault trip_listing.
Definition after_noon : ref_entry :=
  mkRef (Datetime.mkDatetime 2022 8 15 12 12 0)
        "photo_all/IMG_20220815_121200.jpg" "IMG_20220815_121200.jpg".
Definition before_noon : ref_entry :=
  mkRef (Datetime.mkDatetime 2022 8 15 11 48 0)
        "photo_all/IMG_20220815_114800.jpg" "IMG_20220815_114800.jpg".

(** The paths that [set_gps_location] may write or remove for a path: the
    path itself and, for a PNG name, the path of the converted copy. *)
Definition touched_by (filepath : string) : list string :=
  filepath
  :: (if Str.endswith (Str.lower filepath) ".png" then [converted_path filepath]
      else []).

(** The paths that [set_gps_location] may return for a path. *)
Definition returned_for (filepath p : string) : Prop :=
  p = filepath
  \/ (Str.endswith (Str.lower filepath) ".png" = true /\ p = converted_path filepath).

(** The trip with a scanned picture among the photos: TIFF data under a
    name of the TIFF family. *)
Definition scan_world : world :=
  mkWorld (<["photos/IMG_20220815_120300.tiff" := mkFile TIFF None (Original 8)]>
             (trip_files None))
          [] true no_fault trip_listing.

(** * Properties *)

(** ** Regular-expression search *)

Lemma match_prefix_Some p : forall s m,
  match_prefix p s = Some m <-> matches p m /\ exists post, s = (m ++ post)%string.
Proof.
  induction p as [|a p IH]; intros s m; simpl.
  - split.
    + intros [= <-]. split; [constructor | now exists s].
    + intros [Hm _]. inversion Hm. reflexivity.
  - destruct s as [|c t].
    + split; [discriminate|]. intros [Hm [post Hs]].
      inversion Hm; subst. discriminate.
    + destruct (atom_matches a c) eqn:Ha.
      * destruct (match_prefix p t) as [m'|] eqn:Hp.
        -- apply IH in Hp. destruct Hp as [Hm' [post ->]]. split.
           ++ intros [= <-]. split; [now constructor | now exists post].
           ++ intros [Hm [post' Hs]]. inversion Hm; subst. simpl in Hs.
              injection Hs as Hs.
              assert (Hp : match_prefix p (m' ++ post)%string = Some m0).
              { apply IH. split; [assumption | now exists post']. }
              assert (Hp' : match_prefix p (m' ++ post)%string = Some m').
              { apply IH. split; [assumption | now exists post]. }
              congruence.
        -- split; [discriminate|]. intros [Hm [post Hs]].
           inversion Hm; subst. simpl in Hs. injection Hs as Hs.
           assert (Hp' : match_prefix p t = Some m0).
           { apply IH. split; [assumption | now exists post]. }
           congruence.
      * split; [discriminate|]. intros [Hm [post Hs]].
        inversion Hm; subst. simpl in Hs. injection Hs as <- Hs. congruence.
Qed.

(** [re_search] finds nothing exactly when the pattern occurs nowhere. *)
Lemma re_search_None p : forall s,
  re_search p s = None <->
  (forall pre m post, s = (pre ++ m ++ post)%string -> ~ matches p m).
Proof.
  induction s as [|c t IH]; simpl.
  - destruct (match_prefix p EmptyString) as [m|] eqn:Hp.
    + split; [discriminate|]. intros H. exfalso.
      apply match_prefix_Some in Hp. destruct Hp as [Hm [post Hs]].
      apply (H EmptyString m post); [exact Hs | exact Hm].
    + split; [|reflexivity]. intros _ pre m post Hs Hm.
      destruct pre; [|discriminate]. simpl in Hs.
      assert (match_prefix p EmptyString = Some m) by
        (apply match_prefix_Some; split; [assumption | now exists post]).
      congruence.
  - destruct (match_prefix p (String c t)) as [m|] eqn:Hp.
    + split; [discriminate|]. intros H. exfalso.
      apply match_prefix_Some in Hp. destruct Hp as [Hm [post Hs]].
      apply (H EmptyString m post); [exact Hs | exact Hm].
    + rewrite IH. split.
      * intros H pre m post Hs Hm. destruct pre as [|c' pre].
        -- simpl in Hs.
           assert (match_prefix p (String c t) = Some m) by
             (apply match_prefix_Some; split; [assumption | now exists post]).
           congruence.
        -- simpl in Hs. injection Hs as -> Hs. now apply (H pre m post).
      * intros H pre m post Hs Hm.
        apply (H (String c pre) m post); [simpl; now rewrite Hs | exact Hm].
Qed.

(** What [re_search] finds is an occurrence of the pattern, and no
    occurrence starts further left. *)
Lemma re_search_Some p : forall s m,
  re_search p s = Some m ->
  exists pre post,
    s = (pre ++ m ++ post)%string /\ matches p m /\
    (forall pre' m' post', s = (pre' ++ m' ++ post')%string -> matches p m' ->
       (String.length pre <= String.length pre')%nat).
Proof.
  induction s as [|c t IH]; intros m; simpl.
  - destruct (match_prefix p EmptyString) as [m0|] eqn:Hp; [|discriminate].
    intros [= <-]. apply match_prefix_Some in Hp. destruct Hp as [Hm [post Hs]].
    exists EmptyString, post. repeat split; [exact Hs | exact Hm |].
    intros; simpl; lia.
  - destruct (match_prefix p (String c t)) as [m0|] eqn:Hp.
    + intros [= <-]. apply match_prefix_Some in Hp. destruct Hp as [Hm [post Hs]].
      exists EmptyString, post. repeat split; [exact Hs | exact Hm |].
      intros; simpl; lia.
    + intros Hs. destruct (IH m Hs) as [pre [post [Ht [Hm Hleft]]]].
      exists (String c pre), post. repeat split.
      * simpl. now rewrite Ht.
      * exact Hm.
      * intros pre' m' post' Hs' Hm'. destruct pre' as [|c' pre'].
        -- simpl in Hs'.
           assert (match_prefix p (String c t) = Some m') by
             (apply match_prefix_Some; split; [assumption | now exists post']).
           congruence.
        -- simpl in Hs'. injection Hs' as -> Hs'. simpl.
           apply le_n_S. now apply (Hleft pre' m' post').
Qed.

(** ** Strings and paths *)

Lemma lower_app (a b : string) :
  Str.lower (a ++ b) = (Str.lower a ++ Str.lower b)%string.
Proof. induction a as [|c a IH]; simpl; [reflexivity | now rewrite IH]. Qed.

Lemma length_app_string (a b : string) :
  String.length (a ++ b) = (String.length a + String.length b)%nat.
Proof. induction a as [|c a IH]; simpl; [reflexivity | now rewrite IH]. Qed.

Lemma drop_app_length (a b : string) : Str.drop (String.length a) (a ++ b) = b.
Proof. induction a as [|c a IH]; simpl; [reflexivity | exact IH]. Qed.

Lemma drop_drop (n m : nat) : forall s, Str.drop m (Str.drop n s) = Str.drop (n + m) s.
Proof.
  induction n as [|n IH]; intros s; [reflexivity|].
  destruct s as [|c s]; simpl.
  - destruct m; reflexivity.
  - apply IH.
Qed.

Lemma endswith_app (a b : string) : Str.endswith (a ++ b) b = true.
Proof.
  unfold Str.endswith. rewrite length_app_string.
  apply andb_true_iff. split.
  - apply Nat.leb_le. lia.
  - replace (String.length a + String.length b - String.length b)%nat
      with (String.length a) by lia.
    rewrite drop_app_length. apply String.eqb_refl.
Qed.

(** Of two suffixes of a string, the shorter is a suffix of the longer. *)
Lemma endswith_nested (s p q : string) :
  Str.endswith s p = true -> Str.endswith s q = true ->
  (String.length q <= String.length p)%nat ->
  Str.endswith p q = true.
Proof.
  unfold Str.endswith. rewrite !andb_true_iff, !Nat.leb_le.
  intros [Hlp Hp] [Hlq Hq] Hle.
  apply String.eqb_eq in Hp, Hq.
  split; [exact Hle|]. apply String.eqb_eq.
  rewrite <- Hp at 2. rewrite drop_drop.
  replace (String.length s - String.length p + (String.length p - String.length q))%nat
    with (String.length s - String.length q)%nat by lia.
  exact Hq.
Qed.

(** A name that ends in [.png] does not end in an extension of the TIFF
    family. *)
Lemma png_not_tiff_family (s : string) :
  Str.endswith s ".png" = true -> Str.endswith_any s tiff_family = false.
Proof.
  intros Hpng. unfold Str.endswith_any, tiff_family. cbn [existsb].
  repeat match goal with
  | |- (Str.endswith s ?q || _) = false =>
      let H := fresh "H" in
      destruct (Str.endswith s q) eqn:H;
        [exfalso;
         first [ pose proof (endswith_nested s ".png" q Hpng H ltac:(simpl; lia));
                 discriminate
               | pose proof (endswith_nested s q ".png" H Hpng ltac:(simpl; lia));
                 discriminate ]
        | cbn [orb] ]
  end.
  reflexivity.
Qed.

(** The path of the converted file is not the path of the original. *)
Lemma converted_path_differs (filepath : string) :
  Str.endswith_any (Str.lower filepath) tiff_family = false ->
  (fst (OsPath.splitext filepath) ++ ".jpg")%string <> filepath.
Proof.
  intros Hgate Heq.
  assert (H : Str.endswith (Str.lower filepath) ".jpg" = true).
  { rewrite <- Heq at 1. rewrite lower_app. apply endswith_app. }
  unfold Str.endswith_any, tiff_family in Hgate. cbn [existsb] in Hgate.
  rewrite H in Hgate. discriminate.
Qed.

(** ** Timestamp codec *)

Lemma Z_range_forallb (P : Z -> bool) (lo n : nat) :
  forallb P (map Z.of_nat (seq lo n)) = true ->
  forall z, Z.of_nat lo <= z < Z.of_nat lo + Z.of_nat n -> P z = true.
Proof.
  intros H z Hz. rewrite forallb_forall in H. apply H.
  apply in_map_iff. exists (Z.to_nat z). split; [lia|].
  apply in_seq. lia.
Qed.

Lemma valid_2022_bounds mo d h mi s :
  Datetime.valid 2022 mo d h mi s = true ->
  1 <= mo <= 12 /\ 1 <= d <= Datetime.days_in_month 2022 mo /\ 1 <= d <= 31 /\
  0 <= h <= 23 /\ 0 <= mi <= 59 /\ 0 <= s <= 59.
Proof.
  unfold Datetime.valid. rewrite !andb_true_iff, !Z.leb_le.
  intros [[[[[[[[[[[_ _] Hm1] Hm2] Hd1] Hd2] Hh1] Hh2] Hi1] Hi2] Hs1] Hs2].
  assert (Hdim : Datetime.days_in_month 2022 mo <= 31).
  { assert (Hb : (Datetime.days_in_month 2022 mo <=? 31) = true).
    { apply (Z_range_forallb (fun m => Datetime.days_in_month 2022 m <=? 31) 1 12);
        [vm_compute; reflexivity | lia]. }
    now apply Z.leb_le. }
  lia.
Qed.

Lemma ordinal_check_all mo d :
  1 <= mo <= 12 -> 1 <= d <= 31 -> ordinal_check mo d = true.
Proof.
  intros Hmo Hd.
  assert (H : forallb (fun m => forallb (ordinal_check m) (map Z.of_nat (seq 1 31)))
                (map Z.of_nat (seq 1 12)) = true) by (vm_compute; reflexivity).
  apply (Z_range_forallb (ordinal_check mo) 1 31); [|lia].
  apply (Z_range_forallb
           (fun m => forallb (ordinal_check m) (map Z.of_nat (seq 1 31))) 1 12 H).
  lia.
Qed.

Lemma ord2ymd_2022 mo d :
  1 <= mo <= 12 -> 1 <= d <= Datetime.days_in_month 2022 mo -> 1 <= d <= 31 ->
  let n := Datetime.ymd2ord 2022 mo d in
  Datetime.ord2ymd n = (2022, mo, d)
  /\ Datetime.ord2ymd (n - 1) = day_before_2022 mo d
  /\ 1 < n <= Datetime.MAXORDINAL.
Proof.
  intros Hmo Hd Hd' n.
  pose proof (ordinal_check_all mo d Hmo Hd') as H.
  unfold ordinal_check in H. fold n in H.
  destruct ((1 <=? d) && (d <=? Datetime.days_in_month 2022 mo)) eqn:Hr.
  - cbn [negb orb] in H.
    destruct (Datetime.ord2ymd n) as [[y1 m1] d1].
    destruct (Datetime.ord2ymd (n - 1)) as [[y0 m0] d0].
    destruct (day_before_2022 mo d) as [[y' m'] d'].
    rewrite !andb_true_iff in H.
    destruct H as [[[[[[[H1 H2] H3] H4] H5] H6] H7] H8].
    apply Z.eqb_eq in H1, H2, H3, H4, H5, H6.
    apply Z.ltb_lt in H7. apply Z.leb_le in H8.
    subst. repeat split; lia.
  - rewrite andb_false_iff, !Z.leb_gt in Hr. lia.
Qed.

(** Splitting seconds of the day into hour, minute and second. *)
Lemma split_seconds h mi s :
  0 <= h -> 0 <= mi <= 59 -> 0 <= s <= 59 ->
  let secs := h * 3600 + mi * 60 + s in
  secs / 3600 = h /\ (secs mod 3600) / 60 = mi /\ (secs mod 3600) mod 60 = s.
Proof.
  intros Hh Hmi Hs secs.
  assert (H1 : secs / 3600 = h).
  { symmetry. apply (Z.div_unique secs 3600 h (mi * 60 + s)); unfold secs; lia. }
  assert (H2 : secs mod 3600 = mi * 60 + s).
  { symmetry. apply (Z.mod_unique secs 3600 h (mi * 60 + s)); unfold secs; lia. }
  rewrite H2. repeat split; [exact H1 | |].
  - symmetry. apply (Z.div_unique (mi * 60 + s) 60 mi s); lia.
  - symmetry. apply (Z.mod_unique (mi * 60 + s) 60 mi s); lia.
Qed.

(** Nine hours before a valid time of 2022. *)
Lemma sub_nine_hours mo d h mi s :
  Datetime.valid 2022 mo d h mi s = true ->
  Datetime.sub_timedelta (Datetime.mkDatetime 2022 mo d h mi s) (Datetime.hours 9)
  = Ok (nine_hours_before_2022 mo d h mi s).
Proof.
  intros Hv.
  destruct (valid_2022_bounds _ _ _ _ _ Hv) as (Hmo & Hd & Hd' & Hh & Hmi & Hs).
  destruct (ord2ymd_2022 mo d Hmo Hd Hd') as (Ho1 & Ho0 & Hn).
  unfold Datetime.sub_timedelta, Datetime.timestamp, Datetime.toordinal,
    Datetime.seconds_of_day, Datetime.hours, nine_hours_before_2022.
  cbn [Datetime.year Datetime.month Datetime.day Datetime.hour Datetime.minute
       Datetime.second].
  set (n := Datetime.ymd2ord 2022 mo d) in *.
  destruct (Z.leb_spec 9 h) as [H9|H9].
  - assert (Hq : (n * 86400 + (h * 3600 + mi * 60 + s) - 9 * 3600) / 86400 = n).
    { symmetry.
      apply (Z.div_unique _ 86400 n ((h - 9) * 3600 + mi * 60 + s)); lia. }
    assert (Hr : (n * 86400 + (h * 3600 + mi * 60 + s) - 9 * 3600) mod 86400
                 = (h - 9) * 3600 + mi * 60 + s).
    { symmetry.
      apply (Z.mod_unique _ 86400 n ((h - 9) * 3600 + mi * 60 + s)); lia. }
    rewrite Hq, Hr, Ho1.
    destruct (split_seconds (h - 9) mi s) as (E1 & E2 & E3); try lia.
    rewrite E1, E2, E3.
    replace ((0 <? n) && (n <=? Datetime.MAXORDINAL)) with true; [reflexivity|].
    symmetry. apply andb_true_iff. split; [apply Z.ltb_lt | apply Z.leb_le]; lia.
  - assert (Hq : (n * 86400 + (h * 3600 + mi * 60 + s) - 9 * 3600) / 86400 = n - 1).
    { symmetry.
      apply (Z.div_unique _ 86400 (n - 1) ((h + 15) * 3600 + mi * 60 + s)); lia. }
    assert (Hr : (n * 86400 + (h * 3600 + mi * 60 + s) - 9 * 3600) mod 86400
                 = (h + 15) * 3600 + mi * 60 + s).
    { symmetry.
      apply (Z.mod_unique _ 86400 (n - 1) ((h + 15) * 3600 + mi * 60 + s)); lia. }
    rewrite Hq, Hr, Ho0.
    destruct (split_seconds (h + 15) mi s) as (E1 & E2 & E3); try lia.
    rewrite E1, E2, E3.
    replace ((0 <? n - 1) && (n - 1 <=? Datetime.MAXORDINAL)) with true.
    + destruct (day_before_2022 mo d) as [[y' m'] d']. reflexivity.
    + symmetry. apply andb_true_iff. split; [apply Z.ltb_lt | apply Z.leb_le]; lia.
Qed.

(** The result of the subtraction is a calendar time, nine hours earlier on
    the axis of seconds. *)
Lemma nine_hours_before_spec mo d h mi s :
  Datetime.valid 2022 mo d h mi s = true ->
  valid_datetime (nine_hours_before_2022 mo d h mi s) = true
  /\ Datetime.timestamp (nine_hours_before_2022 mo d h mi s)
     = Datetime.timestamp (Datetime.mkDatetime 2022 mo d h mi s) - 9 * 3600.
Proof.
  intros Hv.
  destruct (valid_2022_bounds _ _ _ _ _ Hv) as (Hmo & Hd & Hd' & Hh & Hmi & Hs).
  assert (Hchk : forall m dd, 1 <= m <= 12 -> 1 <= dd <= 31 ->
            negb ((1 <=? dd) && (dd <=? Datetime.days_in_month 2022 m))
            || (let '(y', m', d') := day_before_2022 m dd in
                (1 <=? y') && (y' <=? 9999) && (1 <=? m') && (m' <=? 12)
                && (1 <=? d') && (d' <=? Datetime.days_in_month y' m')
                && (Datetime.ymd2ord y' m' d' =? Datetime.ymd2ord 2022 m dd - 1))
            = true).
  { intros m dd Hm Hdd.
    set (P := fun m dd =>
            negb ((1 <=? dd) && (dd <=? Datetime.days_in_month 2022 m))
            || (let '(y', m', d') := day_before_2022 m dd in
                (1 <=? y') && (y' <=? 9999) && (1 <=? m') && (m' <=? 12)
                && (1 <=? d') && (d' <=? Datetime.days_in_month y' m')
                && (Datetime.ymd2ord y' m' d' =? Datetime.ymd2ord 2022 m dd - 1))).
    assert (H : forallb (fun m => forallb (P m) (map Z.of_nat (seq 1 31)))
                  (map Z.of_nat (seq 1 12)) = true) by (vm_compute; reflexivity).
    apply (Z_range_forallb (P m) 1 31); [|lia].
    apply (Z_range_forallb
             (fun m => forallb (P m) (map Z.of_nat (seq 1 31))) 1 12 H). lia. }
  specialize (Hchk mo d Hmo Hd').
  replace ((1 <=? d) && (d <=? Datetime.days_in_month 2022 mo)) with true in Hchk
    by (symmetry; apply andb_true_iff; split; apply Z.leb_le; lia).
  cbn [negb orb] in Hchk.
  unfold nine_hours_before_2022.
  destruct (Z.leb_spec 9 h) as [H9|H9].
  - split.
    + unfold valid_datetime; simpl. unfold Datetime.valid in *.
      rewrite !andb_true_iff, !Z.leb_le in *. lia.
    + unfold Datetime.timestamp, Datetime.toordinal, Datetime.seconds_of_day.
      simpl. lia.
  - destruct (day_before_2022 mo d) as [[y' m'] d'].
    rewrite !andb_true_iff, !Z.leb_le, Z.eqb_eq in Hchk.
    split.
    + unfold valid_datetime; simpl. unfold Datetime.valid.
      rewrite !andb_true_iff, !Z.leb_le. lia.
    + unfold Datetime.timestamp, Datetime.toordinal, Datetime.seconds_of_day.
      simpl. lia.
Qed.

(** C2.  When the match that [re.search] finds in a file name has groups
    that form a calendar time of 2022, [extract_timestamp] returns exactly
    that time; for a name that starts with [SAMSUNG] it returns the time
    nine hours earlier: the calendar time written out by
    [nine_hours_before_2022], which is a valid [datetime] and lies exactly
    [9 * 3600] seconds before the parsed one. *)
Theorem extract_timestamp_valid (filename m : string) (mo d h mi s : Z) :
  re_search timestamp_pattern filename = Some m ->
  groups m = (mo, d, h, mi, s) ->
  Datetime.valid 2022 mo d h mi s = true ->
  let parsed := Datetime.mkDatetime 2022 mo d h mi s in
  if Str.startswith filename "SAMSUNG" then
    exists dt,
      extract_timestamp filename = Ok (Some dt)
      /\ dt = nine_hours_before_2022 mo d h mi s
      /\ valid_datetime dt = true
      /\ Datetime.timestamp dt = Datetime.timestamp parsed - 9 * 3600
  else extract_timestamp filename = Ok (Some parsed).
Proof.
  intros Hsearch Hgroups Hvalid parsed.
  unfold extract_timestamp. rewrite Hsearch, Hgroups.
  unfold Datetime.make. rewrite Hvalid.
  destruct (Str.startswith filename "SAMSUNG").
  - rewrite (sub_nine_hours _ _ _ _ _ Hvalid).
    destruct (nine_hours_before_spec _ _ _ _ _ Hvalid) as [Hv Ht].
    eexists. repeat split; [exact Hv | exact Ht].
  - reflexivity.
Qed.

Lemma extract_timestamp_valid_witness :
  extract_timestamp "SAMSUNG_20220101_031500.jpg"
    = Ok (Some (Datetime.mkDatetime 2021 12 31 18 15 0))
  /\ extract_timestamp "IMG_20220815_120000~2.jpg"
    = Ok (Some (Datetime.mkDatetime 2022 8 15 12 0 0)).
Proof.
  split.
  - destruct (extract_timestamp_valid "SAMSUNG_20220101_031500.jpg"
                "20220101_031500" 1 1 3 15 0)
      as [dt [H [Hdt _]]]; [reflexivity | reflexivity | reflexivity |].
    rewrite H, Hdt. reflexivity.
  - apply (extract_timestamp_valid "IMG_20220815_120000~2.jpg"
             "20220815_120000" 8 15 12 0 0); reflexivity.
Defined.

(** C8.  When the pattern occurs nowhere in the file name, or when the
    groups of the match that [re.search] finds do not form a calendar time
    (a month 13, say), [extract_timestamp] returns [None]; it does not
    raise. *)
Theorem extract_timestamp_absent (filename : string) :
  (forall pre m post,
      filename = (pre ++ m ++ post)%string -> ~ matches timestamp_pattern m)
  \/ (exists m mo d h mi s,
        re_search timestamp_pattern filename = Some m
        /\ groups m = (mo, d, h, mi, s)
        /\ Datetime.valid 2022 mo d h mi s = false) ->
  extract_timestamp filename = Ok None.
Proof.
  intros [Hnone | (m & mo & d & h & mi & s & Hsearch & Hgroups & Hinvalid)].
  - apply re_search_None in Hnone.
    unfold extract_timestamp. now rewrite Hnone.
  - unfold extract_timestamp. rewrite Hsearch, Hgroups.
    unfold Datetime.make. now rewrite Hinvalid.
Qed.

Lemma extract_timestamp_absent_witness :
  extract_timestamp "IMG_20221301_120000.jpg" = Ok None
  /\ extract_timestamp "holiday.jpg" = Ok None.
Proof.
  split.
  - apply extract_timestamp_absent. right.
    exists "20221301_120000", 13, 1, 12, 0, 0.
    repeat split; reflexivity.
  - apply extract_timestamp_absent. left.
    apply re_search_None. reflexivity.
Defined.

(** [extract_timestamp] never raises. *)
Lemma extract_timestamp_total (filename : string) :
  exists r, extract_timestamp filename = Ok r.
Proof.
  unfold extract_timestamp.
  destruct (re_search timestamp_pattern filename) as [m|]; [|now exists None].
  destruct (groups m) as [[[[mo d] h] mi] s].
  unfold Datetime.make.
  destruct (Datetime.valid 2022 mo d h mi s) eqn:Hv; [|now exists None].
  destruct (Str.startswith filename "SAMSUNG"); [|eexists; reflexivity].
  rewrite (sub_nine_hours _ _ _ _ _ Hv). eexists; reflexivity.
Qed.

(** ** Coordinate codec *)

Section Codec.
Local Open Scope Q_scope.

(** On a float that is not negative, [int] is the floor. *)
Lemma int_nonneg (q : Q) :
  0 <= q -> Float.int (Fin q) = Ok (Qfloor q).
Proof.
  destruct q as [n d]. unfold Qle. simpl. intros H.
  rewrite Z.quot_div_nonneg; [reflexivity | lia | lia].
Qed.

(** The exponent found for a positive rational [q] is its binade:
    [2 ^ e <= q < 2 ^ (e + 1)]. *)
Lemma ilog2_lower (q : Q) : 0 < q -> 2 ^ Float.ilog2 q <= q.
Proof.
  intros Hq. unfold Float.ilog2.
  set (n := Qnum q). set (d := Z.pos (Qden q)).
  set (k := (Z.log2 n - Z.log2 d)%Z).
  destruct (Qle_bool (2 ^ k) q) eqn:E; [now apply Qle_bool_iff|].
  assert (Hn : (0 < n)%Z).
  { unfold n. destruct q as [qn qd]. unfold Qlt in Hq. simpl in *. lia. }
  assert (Hd : (0 < d)%Z) by (unfold d; lia).
  destruct (Z.log2_spec n Hn) as [Hn1 _].
  destruct (Z.log2_spec d Hd) as [_ Hd2].
  pose proof (Z.log2_nonneg n) as Ha. pose proof (Z.log2_nonneg d) as Hb.
  replace (k - 1)%Z with (Z.log2 n - Z.succ (Z.log2 d))%Z by (unfold k; lia).
  rewrite Qpower_minus by discriminate.
  change 2 with (inject_Z 2).
  rewrite <- !Zpower_Qpower by lia.
  apply Qle_shift_div_r.
  - change 0 with (inject_Z 0). rewrite <- Zlt_Qlt. lia.
  - destruct q as [qn qd]. unfold Qle, Qmult, inject_Z. simpl in *.
    unfold n, d in *. simpl in *. nia.
Qed.

Lemma ilog2_upper (q : Q) : 0 < q -> q < 2 ^ (Float.ilog2 q + 1).
Proof.
  intros Hq. unfold Float.ilog2.
  set (n := Qnum q). set (d := Z.pos (Qden q)).
  set (k := (Z.log2 n - Z.log2 d)%Z).
  destruct (Qle_bool (2 ^ k) q) eqn:E.
  - assert (Hn : (0 < n)%Z).
    { unfold n. destruct q as [qn qd]. unfold Qlt in Hq. simpl in *. lia. }
    assert (Hd : (0 < d)%Z) by (unfold d; lia).
    destruct (Z.log2_spec n Hn) as [_ Hn2].
    destruct (Z.log2_spec d Hd) as [Hd1 _].
    pose proof (Z.log2_nonneg n) as Ha. pose proof (Z.log2_nonneg d) as Hb.
    replace (k + 1)%Z with (Z.succ (Z.log2 n) - Z.log2 d)%Z by (unfold k; lia).
    rewrite Qpower_minus by discriminate.
    change 2 with (inject_Z 2).
    rewrite <- !Zpower_Qpower by lia.
    apply Qlt_shift_div_l.
    + change 0 with (inject_Z 0). rewrite <- Zlt_Qlt. lia.
    + destruct q as [qn qd]. unfold Qlt, Qmult, inject_Z. simpl in *.
      unfold n, d in *. simpl in *. nia.
  - replace (k - 1 + 1)%Z with k by lia.
    apply Qnot_le_lt. intros Hle. apply Qle_bool_iff in Hle. congruence.
Qed.

(** One tenth, as binary64 has it. *)
Example binary64_tenth :
  Float.binary64 (1 # 10) = 3602879701896397 # 36028797018963968.
Proof. reflexivity. Qed.

Lemma round_half_even_error (u : Q) :
  - (1 # 2) <= inject_Z (Float.round_half_even u) - u <= 1 # 2.
Proof.
  unfold Float.round_half_even.
  pose proof (Qfloor_le u) as Hlo.
  pose proof (Qlt_floor u) as Hhi.
  rewrite inject_Z_plus in Hhi. change (inject_Z 1) with 1 in Hhi.
  destruct (u - inject_Z (Qfloor u) ?= 1 # 2) eqn:Hc.
  - apply Qeq_alt in Hc.
    destruct (Z.even (Qfloor u)).
    + lra.
    + rewrite inject_Z_plus. change (inject_Z 1) with 1. lra.
  - apply Qlt_alt in Hc. lra.
  - apply Qgt_alt in Hc. rewrite inject_Z_plus. change (inject_Z 1) with 1. lra.
Qed.

Lemma round_half_even_nonneg (x : Q) : 0 <= x -> (0 <= Float.round_half_even x)%Z.
Proof.
  intros Hx. assert (H0 : (0 <= Qfloor x)%Z).
  { change 0%Z with (Qfloor 0). now apply Qfloor_resp_le. }
  unfold Float.round_half_even.
  destruct (x - inject_Z (Qfloor x) ?= 1 # 2); [destruct (Z.even _)| |]; lia.
Qed.

Lemma round_half_even_int (x : Q) (m : Z) :
  x == inject_Z m -> Float.round_half_even x = m.
Proof.
  intros Hx. unfold Float.round_half_even.
  assert (Hf : Qfloor x = m) by (rewrite Hx; apply Qfloor_Z).
  rewrite Hf.
  assert (Hlt : x - inject_Z m < 1 # 2) by (rewrite Hx; lra).
  destruct (Qcompare_spec (x - inject_Z m) (1 # 2)) as [He|Hl|Hg];
    [lra | reflexivity | lra].
Qed.

(** The scaled error of one rounding. *)
Lemma binary64_scaled (q : Q) :
  ~ q == 0 ->
  let ex := (Z.max (Float.ilog2 (Qabs q)) (-1022) - 52)%Z in
  Float.binary64 q == inject_Z (Float.round_half_even (q / 2 ^ ex)) * 2 ^ ex.
Proof.
  intros Hq ex. unfold Float.binary64.
  destruct (Qeq_bool q 0) eqn:E; [apply Qeq_bool_iff in E; contradiction|].
  fold ex. apply Qred_correct.
Qed.

Lemma binary64_zero (q : Q) : q == 0 -> Float.binary64 q = 0.
Proof.
  intros Hq. unfold Float.binary64.
  now rewrite (proj2 (Qeq_bool_iff q 0) Hq).
Qed.

Lemma binary64_error (q B : Q) :
  Qabs q <= B -> Qabs (Float.binary64 q - q) <= B * u53 + eta.
Proof.
  intros HB.
  pose proof (Qabs_nonneg q) as Hq0.
  destruct (Qeq_dec q 0) as [Hz|Hnz].
  - rewrite (binary64_zero q Hz). rewrite Hz.
    change (Qabs (0 - 0)) with 0. unfold u53, eta. lra.
  - rewrite (binary64_scaled q Hnz). cbv zeta.
    assert (Hpos : 0 < Qabs q).
    { destruct (Qlt_le_dec 0 (Qabs q)) as [|Hle]; [assumption|].
      exfalso. apply Hnz. apply Qabs_Qle_condition in Hle. lra. }
    pose proof (ilog2_lower _ Hpos) as He.
    set (e := Float.ilog2 (Qabs q)) in *.
    set (ex := (Z.max e (-1022) - 52)%Z).
    assert (Hp : 0 < 2 ^ ex) by (apply Qpower_0_lt; reflexivity).
    set (p := 2 ^ ex) in *.
    pose proof (round_half_even_error (q / p)) as Hr.
    set (r := inject_Z (Float.round_half_even (q / p))) in *.
    assert (Hdiv : q / p * p == q) by (field; lra).
    assert (Hhalf : Qabs (r * p - q) <= (1 # 2) * p).
    { apply Qabs_Qle_condition.
      assert (H1 : r * p - q == (r - q / p) * p) by (rewrite <- Hdiv at 1; ring).
      rewrite H1. split; nra. }
    eapply Qle_trans; [exact Hhalf|].
    destruct (Z.max_spec e (-1022)) as [[Hlt Hm]|[Hge Hm]].
    + assert (Hpv : p == 2 * eta).
      { unfold p, ex. rewrite Hm. vm_compute. reflexivity. }
      rewrite Hpv. unfold u53, eta in *. nra.
    + assert (Hpv : p == 2 ^ e * (2 * u53)).
      { unfold p, ex. rewrite Hm.
        replace (e - 52)%Z with (e + (-52))%Z by lia.
        rewrite Qpower_plus by discriminate.
        apply Qmult_comp; [reflexivity | vm_compute; reflexivity]. }
      rewrite Hpv. unfold u53, eta in *. nra.
Qed.

Lemma binary64_nonneg (q : Q) : 0 <= q -> 0 <= Float.binary64 q.
Proof.
  intros Hq. destruct (Qeq_dec q 0) as [Hz|Hnz].
  - rewrite (binary64_zero q Hz). apply Qle_refl.
  - rewrite (binary64_scaled q Hnz). cbv zeta.
    set (ex := (Z.max _ _ - 52)%Z).
    assert (Hp : 0 < 2 ^ ex) by (apply Qpower_0_lt; reflexivity).
    apply Qmult_le_0_compat; [|lra].
    change 0 with (inject_Z 0). rewrite <- Zle_Qle.
    apply round_half_even_nonneg.
    apply Qle_shift_div_l; [exact Hp | lra].
Qed.

(** Integers of up to 53 bits are binary64 values. *)
Lemma binary64_exact_int (n : Z) :
  (Z.abs n < 2 ^ 53)%Z -> Float.binary64 (inject_Z n) == inject_Z n.
Proof.
  intros Hn. destruct (Z.eq_dec n 0%Z) as [->|Hnz]; [reflexivity|].
  assert (Hq : ~ inject_Z n == 0).
  { intros H. apply Hnz. unfold Qeq in H. simpl in H. lia. }
  rewrite (binary64_scaled _ Hq). cbv zeta.
  assert (Habs : Qabs (inject_Z n) == inject_Z (Z.abs n)) by reflexivity.
  assert (Hpos : 0 < Qabs (inject_Z n)).
  { rewrite Habs. change 0 with (inject_Z 0). rewrite <- Zlt_Qlt. lia. }
  pose proof (ilog2_lower _ Hpos) as He.
  set (e := Float.ilog2 (Qabs (inject_Z n))) in *.
  assert (He53 : (e < 53)%Z).
  { apply (Qpower_lt_compat_l_inv 2); [|reflexivity].
    eapply Qle_lt_trans; [exact He|].
    rewrite Habs. change 2 with (inject_Z 2).
    rewrite <- Zpower_Qpower by lia. rewrite <- Zlt_Qlt. exact Hn. }
  set (ex := (Z.max e (-1022) - 52)%Z).
  set (m := (- ex)%Z).
  assert (Hm : (0 <= m)%Z) by (unfold m, ex; lia).
  assert (Hex : 2 ^ ex == / inject_Z (2 ^ m)).
  { replace ex with (- m)%Z by (unfold m; lia).
    rewrite Qpower_opp. change 2 with (inject_Z 2) at 1.
    now rewrite <- Zpower_Qpower by lia. }
  assert (HP : 0 < inject_Z (2 ^ m)).
  { change 0 with (inject_Z 0). rewrite <- Zlt_Qlt. lia. }
  assert (Harg : inject_Z n / 2 ^ ex == inject_Z (n * 2 ^ m)).
  { rewrite Hex, inject_Z_mult. field. lra. }
  rewrite (round_half_even_int _ _ Harg), Hex, inject_Z_mult. field. lra.
Qed.

Lemma fl_err (q B : Q) :
  Qabs q <= B ->
  - ((B + 1) * (1 # 9007199254740992)) <= Float.binary64 q - q
  /\ Float.binary64 q - q <= (B + 1) * (1 # 9007199254740992).
Proof.
  intros HB. pose proof (binary64_error q B HB) as H.
  pose proof (Qabs_nonneg q) as H0.
  apply Qabs_Qle_condition in H. unfold u53, eta in H. split; lra.
Qed.

Lemma Qabs_le_of (q lo hi B : Q) : lo <= q -> q <= hi -> - B <= lo -> hi <= B -> Qabs q <= B.
Proof. intros. apply Qabs_Qle_condition. split; lra. Qed.

Lemma floor_between (q : Q) (lo hi : Z) :
  inject_Z lo <= q -> q < inject_Z (hi + 1) -> (lo <= Qfloor q <= hi)%Z.
Proof.
  intros Hlo Hhi. split.
  - rewrite <- (Qfloor_Z lo). now apply Qfloor_resp_le.
  - pose proof (Qfloor_le q) as H.
    assert (Hlt : inject_Z (Qfloor q) < inject_Z (hi + 1)) by lra.
    rewrite <- Zlt_Qlt in Hlt. lia.
Qed.

Lemma dms_chain (a : Q) :
  0 <= a -> a <= 180 ->
  let rn := Float.binary64 in
  let deg := Qfloor a in
  let t1 := rn (rn (a - rn (inject_Z deg)) * 60) in
  let mn := Qfloor t1 in
  let v := rn (rn (rn (t1 - rn (inject_Z mn)) * 60) * 10000) in
  let sec := Float.round_half_even v in
  let y := rn (rn (rn (inject_Z deg / inject_Z 1)
                   + rn (rn (inject_Z mn / inject_Z 1) / 60))
               + rn (rn (inject_Z sec / inject_Z 10000) / 3600)) in
  0 <= t1
  /\ (0 <= deg <= 180)%Z /\ (0 <= mn <= 60)%Z /\ (0 <= sec <= 700000)%Z
  /\ - dms_tolerance <= y - a /\ y - a <= dms_tolerance.
Proof.
  intros Ha0 Ha180 rn deg.
  pose proof (Qfloor_le a) as Hd1. pose proof (Qlt_floor a) as Hd2.
  fold deg in Hd1, Hd2.
  rewrite inject_Z_plus in Hd2. change (inject_Z 1) with 1 in Hd2.
  assert (Hdeg : (0 <= deg <= 180)%Z).
  { apply floor_between; [exact Ha0|]. change (inject_Z (180 + 1)) with 181. lra. }
  assert (Ed : rn (inject_Z deg) == inject_Z deg)
    by (apply binary64_exact_int; lia).
  assert (Hdq : 0 <= inject_Z deg /\ inject_Z deg <= 180).
  { change 0 with (inject_Z 0). change 180 with (inject_Z 180).
    rewrite <- !Zle_Qle. lia. }
  (* encoding *)
  set (f1 := rn (a - rn (inject_Z deg))).
  destruct (fl_err (a - rn (inject_Z deg)) 1) as [E1a E1b];
    [apply (Qabs_le_of _ 0 1); lra|]. fold rn in E1a, E1b. fold f1 in E1a, E1b.
  assert (N1 : 0 <= f1) by (apply binary64_nonneg; lra).
  intros t1.
  destruct (fl_err (f1 * 60) 61) as [E2a E2b];
    [apply (Qabs_le_of _ 0 61); lra|]. fold rn in E2a, E2b. fold t1 in E2a, E2b.
  assert (N2 : 0 <= t1) by (apply binary64_nonneg; lra).
  intros mn.
  pose proof (Qfloor_le t1) as Hm1. pose proof (Qlt_floor t1) as Hm2.
  fold mn in Hm1, Hm2.
  rewrite inject_Z_plus in Hm2. change (inject_Z 1) with 1 in Hm2.
  assert (Hmn : (0 <= mn <= 60)%Z).
  { apply floor_between; [exact N2|]. change (inject_Z (60 + 1)) with 61. lra. }
  assert (Em : rn (inject_Z mn) == inject_Z mn)
    by (apply binary64_exact_int; lia).
  assert (Hmq : 0 <= inject_Z mn /\ inject_Z mn <= 60).
  { change 0 with (inject_Z 0). change 60 with (inject_Z 60).
    rewrite <- !Zle_Qle. lia. }
  set (g := rn (t1 - rn (inject_Z mn))).
  destruct (fl_err (t1 - rn (inject_Z mn)) 1) as [E3a E3b];
    [apply (Qabs_le_of _ 0 1); lra|]. fold rn in E3a, E3b. fold g in E3a, E3b.
  assert (N3 : 0 <= g) by (apply binary64_nonneg; lra).
  set (h := rn (g * 60)).
  destruct (fl_err (g * 60) 61) as [E4a E4b];
    [apply (Qabs_le_of _ 0 61); lra|]. fold rn in E4a, E4b. fold h in E4a, E4b.
  assert (N4 : 0 <= h) by (apply binary64_nonneg; lra).
  intros v.
  destruct (fl_err (h * 10000) 620000) as [E5a E5b];
    [apply (Qabs_le_of _ 0 620000); lra|]. fold rn in E5a, E5b. fold v in E5a, E5b.
  assert (N5 : 0 <= v) by (apply binary64_nonneg; lra).
  intros sec.
  pose proof (round_half_even_error v) as Er. fold sec in Er.
  assert (Hsec : (0 <= sec <= 700000)%Z).
  { split; [now apply round_half_even_nonneg|].
    assert (Hlt : inject_Z sec < inject_Z 700001)
      by (change (inject_Z 700001) with 700001; lra).
    rewrite <- Zlt_Qlt in Hlt. lia. }
  assert (Hsq : 0 <= inject_Z sec /\ inject_Z sec <= 700000).
  { change 0 with (inject_Z 0). change 700000 with (inject_Z 700000).
    rewrite <- !Zle_Qle. lia. }
  (* decoding *)
  unfold Qdiv. change (/ inject_Z 1) with 1. change (/ inject_Z 10000) with (1 # 10000).
  change (/ 60) with (1 # 60). change (/ 3600) with (1 # 3600).
  set (D := rn (inject_Z deg * 1)).
  destruct (fl_err (inject_Z deg * 1) 180) as [E6a E6b];
    [apply (Qabs_le_of _ 0 180); lra|]. fold rn in E6a, E6b. fold D in E6a, E6b.
  set (M := rn (inject_Z mn * 1)).
  destruct (fl_err (inject_Z mn * 1) 61) as [E7a E7b];
    [apply (Qabs_le_of _ 0 61); lra|]. fold rn in E7a, E7b. fold M in E7a, E7b.
  set (M60 := rn (M * (1 # 60))).
  destruct (fl_err (M * (1 # 60)) 2) as [E8a E8b];
    [apply (Qabs_le_of _ (-(1)) 2); lra|]. fold rn in E8a, E8b. fold M60 in E8a, E8b.
  set (S := rn (inject_Z sec * (1 # 10000))).
  destruct (fl_err (inject_Z sec * (1 # 10000)) 71) as [E9a E9b];
    [apply (Qabs_le_of _ 0 71); lra|]. fold rn in E9a, E9b. fold S in E9a, E9b.
  set (S3600 := rn (S * (1 # 3600))).
  destruct (fl_err (S * (1 # 3600)) 1) as [E10a E10b];
    [apply (Qabs_le_of _ (-(1)) 1); lra|]. fold rn in E10a, E10b.
  fold S3600 in E10a, E10b.
  set (s1 := rn (D + M60)).
  destruct (fl_err (D + M60) 183) as [E11a E11b];
    [apply (Qabs_le_of _ (-(1)) 183); lra|]. fold rn in E11a, E11b.
  fold s1 in E11a, E11b.
  destruct (fl_err (s1 + S3600) 184) as [E12a E12b];
    [apply (Qabs_le_of _ (-(1)) 184); lra|]. fold rn in E12a, E12b.
  unfold dms_tolerance.
  repeat split; try lia; try assumption; lra.
Qed.

End Codec.

(** Encoding a coordinate and decoding the result. *)
Lemma to_deg_get_decimal (x : Q) (pos neg : string) :
  (Qabs x <= 180)%Q ->
  is_south_or_west pos = false -> is_south_or_west neg = true ->
  exists dms ref y,
    to_deg (Fin x) [pos; neg] = Ok (dms, ref)
    /\ get_decimal_from_dms dms ref = Ok (Fin y)
    /\ within_tolerance y x
    /\ exists deg mn sec, dms = [(deg, 1); (mn, 1); (sec, 10000)]
         /\ (ref = pos \/ ref = neg)
         /\ 0 <= deg <= 180 /\ 0 <= mn <= 60 /\ 0 <= sec <= 700000.
Proof.
  intros Hx Hpos Hneg.
  pose proof (Qabs_nonneg x) as Ha.
  pose proof (dms_chain (Qabs x) Ha Hx) as Hchain. cbv zeta in Hchain.
  destruct Hchain as (Ht1 & Hdeg & Hmn & Hsec & Hlo & Hhi).
  unfold to_deg.
  set (ref := if Float.ltb0 (Fin x) then neg else pos).
  assert (Hloc : (if Float.ltb0 (Fin x) then nth_error [pos; neg] 1
                  else nth_error [pos; neg] 0) = Some ref).
  { unfold ref. destruct (Float.ltb0 (Fin x)); reflexivity. }
  rewrite Hloc.
  cbn [Float.abs]. rewrite (int_nonneg _ Ha).
  cbn [Float.sub Float.mul Float.of_Z Float.lift2].
  rewrite (int_nonneg _ Ht1).
  cbn [Float.round].
  set (deg := Qfloor (Qabs x)) in *.
  set (t1 := Float.binary64
               (Float.binary64 (Qabs x - Float.binary64 (inject_Z deg)) * 60)) in *.
  set (mn := Qfloor t1) in *.
  set (sec := Float.round_half_even _) in *.
  set (mag := Float.binary64 _) in Hlo, Hhi.
  assert (Hdec : get_decimal_from_dms [(deg, 1); (mn, 1); (sec, 10000)] ref
                 = Ok (if is_south_or_west ref then Fin (- mag) else Fin mag)).
  { unfold get_decimal_from_dms. cbn [nth_error ifd_value].
    change (1 =? 0) with false. change (10000 =? 0) with false.
    cbn [Float.add Float.div Float.of_fraction Float.lift2 Float.neg].
    fold mag. destruct (is_south_or_west ref); reflexivity. }
  assert (Hshape : exists deg0 mn0 sec0,
             [(deg, 1); (mn, 1); (sec, 10000)] = [(deg0, 1); (mn0, 1); (sec0, 10000)]
             /\ (ref = pos \/ ref = neg)
             /\ 0 <= deg0 <= 180 /\ 0 <= mn0 <= 60 /\ 0 <= sec0 <= 700000).
  { exists deg, mn, sec. split; [reflexivity|].
    split; [unfold ref; destruct (Float.ltb0 (Fin x)); auto|]. auto. }
  unfold within_tolerance.
  destruct (Float.ltb0 (Fin x)) eqn:Hlt.
  - assert (Hx0 : (x < 0)%Q).
    { unfold Float.ltb0 in Hlt.
      destruct (Qcompare_spec x 0); [discriminate | assumption | discriminate]. }
    exists [(deg, 1); (mn, 1); (sec, 10000)], ref, (- mag)%Q.
    split; [reflexivity|]. split.
    { rewrite Hdec. unfold ref. now rewrite Hneg. }
    split; [|exact Hshape].
    apply Qabs_Qle_condition.
    assert (Hax : (Qabs x == - x)%Q) by (apply Qabs_neg; lra).
    rewrite Hax in Hlo, Hhi. lra.
  - assert (Hx0 : (0 <= x)%Q).
    { unfold Float.ltb0 in Hlt.
      destruct (Qcompare_spec x 0) as [He | Hl | Hg]; [|discriminate|].
      - rewrite He. apply Qle_refl.
      - now apply Qlt_le_weak. }
    exists [(deg, 1); (mn, 1); (sec, 10000)], ref, mag.
    split; [reflexivity|]. split.
    { rewrite Hdec. unfold ref. now rewrite Hpos. }
    split; [|exact Hshape].
    apply Qabs_Qle_condition.
    assert (Hax : (Qabs x == x)%Q) by (apply Qabs_pos; lra).
    rewrite Hax in Hlo, Hhi. lra.
Qed.

(** C3.  For a decimal coordinate [x] between -180 and 180 and either
    hemisphere pair, [to_deg] followed by [get_decimal_from_dms] (which
    applies the hemisphere reference) returns a value that differs from [x]
    by at most the rounding tolerance of the seconds' denominator 10000:
    half a unit of it, [1 / 72000000] of a degree, and [10 ^ -12] of a
    degree for the roundings of the binary64 operations.  The three
    rationals of the encoding fit the metadata's unsigned 32-bit fields. *)
Theorem dms_roundtrip (x : Q) (loc : list string) :
  (- (180) <= x)%Q -> (x <= 180)%Q ->
  loc = ["N"; "S"] \/ loc = ["E"; "W"] ->
  exists dms ref y,
    to_deg (Fin x) loc = Ok (dms, ref)
    /\ forallb packable dms = true
    /\ get_decimal_from_dms dms ref = Ok (Fin y)
    /\ within_tolerance y x.
Proof.
  intros Hlo Hhi Hloc.
  assert (H : exists pos neg, loc = [pos; neg]
              /\ is_south_or_west pos = false /\ is_south_or_west neg = true).
  { destruct Hloc as [-> | ->]; [exists "N", "S" | exists "E", "W"];
      repeat split; reflexivity. }
  destruct H as (pos & neg & -> & Hpos & Hneg).
  assert (Hx : (Qabs x <= 180)%Q) by (apply Qabs_Qle_condition; split; assumption).
  destruct (to_deg_get_decimal x pos neg Hx Hpos Hneg)
    as (dms & ref & y & H1 & H2 & H3 & deg & mn & sec & -> & _ & Hd & Hm & Hs).
  exists [(deg, 1); (mn, 1); (sec, 10000)], ref, y.
  repeat split; try assumption.
  cbn [forallb packable].
  rewrite !andb_true_iff, !Z.leb_le, !Z.ltb_lt.
  change (2 ^ 32) with 4294967296. lia.
Qed.

Lemma dms_roundtrip_witness :
  exists dms ref y,
    to_deg (Fin (- (1129510018 # 10000000))) ["E"; "W"] = Ok (dms, ref)
    /\ forallb packable dms = true
    /\ get_decimal_from_dms dms ref = Ok (Fin y)
    /\ within_tolerance y (- (1129510018 # 10000000)).
Proof.
  apply (dms_roundtrip (- (1129510018 # 10000000)) ["E"; "W"]).
  - vm_compute. discriminate.
  - vm_compute. discriminate.
  - right. reflexivity.
Defined.

(** ** Sorting by key *)

Section SortByKey.
Context {A : Type} (key : A -> Z).

Lemma insert_by_key_perm (x : A) (l : list A) :
  Permutation (insert_by_key key x l) (x :: l).
Proof.
  induction l as [|y t IH]; simpl.
  - apply Permutation_refl.
  - destruct (key x <=? key y).
    + apply Permutation_refl.
    + eapply perm_trans; [apply perm_skip, IH | apply perm_swap].
Qed.

Lemma sort_by_key_perm (l : list A) : Permutation (sort_by_key key l) l.
Proof.
  induction l as [|x t IH]; simpl.
  - apply perm_nil.
  - eapply perm_trans; [apply insert_by_key_perm | apply perm_skip, IH].
Qed.

Lemma insert_by_key_sorted (x : A) (l : list A) :
  StronglySorted (key_le key) l -> StronglySorted (key_le key) (insert_by_key key x l).
Proof.
  induction l as [|y t IH]; simpl; intros Hs.
  - constructor; [constructor | constructor].
  - inversion Hs as [|? ? Ht Hy]; subst.
    destruct (Z.leb_spec (key x) (key y)) as [Hle|Hgt].
    + constructor; [assumption|]. constructor; [exact Hle|].
      eapply Forall_impl; [exact Hy|]. unfold key_le. intros; lia.
    + constructor; [now apply IH|].
      eapply Permutation_Forall; [apply Permutation_sym, insert_by_key_perm|].
      constructor; [unfold key_le; lia | exact Hy].
Qed.

Lemma sort_by_key_sorted (l : list A) : StronglySorted (key_le key) (sort_by_key key l).
Proof.
  induction l as [|x t IH]; simpl.
  - constructor.
  - now apply insert_by_key_sorted.
Qed.

(** Stability: the elements of one key keep their order. *)
Lemma insert_by_key_stable (k : Z) (x : A) (l : list A) :
  StronglySorted (key_le key) l ->
  List.filter (fun a => key a =? k) (insert_by_key key x l)
  = List.filter (fun a => key a =? k) (x :: l).
Proof.
  induction l as [|y t IH]; intros Hs; [reflexivity|].
  inversion Hs as [|? ? Ht Hy]; subst.
  cbn [insert_by_key].
  destruct (Z.leb_spec (key x) (key y)) as [Hle|Hgt]; [reflexivity|].
  cbn [List.filter]. rewrite (IH Ht). cbn [List.filter].
  destruct (Z.eqb_spec (key y) k) as [Hyk|Hyk];
    destruct (Z.eqb_spec (key x) k) as [Hxk|Hxk]; try reflexivity.
  lia.
Qed.

Lemma sort_by_key_stable (k : Z) (l : list A) :
  List.filter (fun a => key a =? k) (sort_by_key key l)
  = List.filter (fun a => key a =? k) l.
Proof.
  induction l as [|x t IH]; [reflexivity|].
  cbn [sort_by_key].
  rewrite insert_by_key_stable by apply sort_by_key_sorted.
  cbn [List.filter]. now rewrite IH.
Qed.

End SortByKey.

(** ** Closest-match resolver *)

(** Printing changes nothing but the printed lines. *)
Lemma print_all_run (l : list msg) : forall w,
  print_all l w = (with_printed (printed w ++ l)%list w, Ok tt).
Proof.
  induction l as [|m l IH]; intros w; simpl.
  - unfold ret. rewrite app_nil_r. destruct w; reflexivity.
  - unfold bind, print. rewrite IH. cbn [printed with_printed files
      piexif_installed fault listing]. now rewrite <- app_assoc.
Qed.

Lemma with_printed_printed (w : world) : with_printed (printed w) w = w.
Proof. destruct w; reflexivity. Qed.

(** Reading the metadata of an entry leaves the world as it is, and does
    not depend on what has been printed. *)
Lemma read_lat_lon_run (ref : ref_entry) (w : world) :
  read_lat_lon ref w = (w, gps_of w ref).
Proof.
  unfold gps_of, read_lat_lon, bind, Image_open, lift.
  destruct (fault w OpOpen (ref_path ref)); [reflexivity|].
  destruct (files w !! ref_path ref) as [f|]; [|reflexivity].
  destruct (fmt f); try reflexivity;
    destruct (get_exif_data f); reflexivity.
Qed.

Lemma gps_of_with_printed (l : list msg) (w : world) (ref : ref_entry) :
  gps_of (with_printed l w) ref = gps_of w ref.
Proof.
  unfold gps_of, read_lat_lon, bind, Image_open, lift.
  cbn [with_printed fault files].
  destruct (fault w OpOpen (ref_path ref)); [reflexivity|].
  destruct (files w !! ref_path ref) as [f|]; [|reflexivity].
  destruct (fmt f); try reflexivity;
    destruct (get_exif_data f); reflexivity.
Qed.

Lemma usable_gps_with_printed (l : list msg) (w : world) (ref : ref_entry) :
  usable_gps (with_printed l w) ref = usable_gps w ref.
Proof. unfold usable_gps, present_gps. now rewrite gps_of_with_printed. Qed.

Lemma first_usable_with_printed (l : list msg) (w : world)
    (candidates : list (Z * ref_entry)) :
  first_usable (with_printed l w) candidates = first_usable w candidates.
Proof.
  induction candidates as [|c rest IH]; [reflexivity|].
  cbn [first_usable]. now rewrite usable_gps_with_printed, IH.
Qed.

(** The body of the loop, run. *)
Lemma try_candidate_run (delta : Z) (ref : ref_entry) (w : world) :
  try_candidate delta ref w =
  match gps_of w ref with
  | Ok ll =>
      if truthy_opt (fst ll) && truthy_opt (snd ll) then
        (with_printed (printed w ++ [FoundClosest (ref_filename ref) delta])%list w,
         Ok (Some ll))
      else (w, Ok None)
  | Raise e =>
      (with_printed (printed w ++ [ErrorProcessingReference (ref_filename ref) e])%list w,
       Ok None)
  end.
Proof.
  unfold try_candidate, try_except, bind. rewrite read_lat_lon_run.
  destruct (gps_of w ref) as [ll|e]; [|reflexivity].
  destruct (truthy_opt (fst ll) && truthy_opt (snd ll)); reflexivity.
Qed.

(** One turn of the loop: a usable coordinate is returned, anything else
    (no coordinate, a zero, an exception) leads to the next candidate. *)
Lemma scan_candidates_step (delta : Z) (ref : ref_entry)
    (rest : list (Z * ref_entry)) (w : world) :
  match usable_gps w ref with
  | Some (lat, lon) =>
      scan_candidates ((delta, ref) :: rest) w
      = (with_printed (printed w ++ [FoundClosest (ref_filename ref) delta])%list w,
         Ok (Some lat, Some lon))
  | None =>
      exists l, scan_candidates ((delta, ref) :: rest) w
                = scan_candidates rest (with_printed (printed w ++ l)%list w)
  end.
Proof.
  unfold usable_gps, present_gps.
  cbn [scan_candidates]. unfold bind. rewrite try_candidate_run.
  destruct (gps_of w ref) as [[[lat|] [lon|]]|e]; cbn [fst snd truthy_opt].
  - destruct (Float.truthy lat && Float.truthy lon).
    + reflexivity.
    + exists []. now rewrite app_nil_r, with_printed_printed.
  - rewrite andb_false_r. exists [].
    now rewrite app_nil_r, with_printed_printed.
  - exists []. cbn [andb].
    now rewrite app_nil_r, with_printed_printed.
  - exists []. cbn [andb].
    now rewrite app_nil_r, with_printed_printed.
  - exists [ErrorProcessingReference (ref_filename ref) e]. reflexivity.
Qed.

(** The walk returns the first usable coordinate, and changes nothing but
    the printed lines. *)
Lemma scan_candidates_run (candidates : list (Z * ref_entry)) : forall w,
  exists l,
    scan_candidates candidates w
    = (with_printed (printed w ++ l)%list w, Ok (pair_of (first_usable w candidates))).
Proof.
  induction candidates as [|[delta ref] rest IH]; intros w.
  - exists [DidntFindCandidates]. reflexivity.
  - pose proof (scan_candidates_step delta ref rest w) as Hstep.
    cbn [first_usable snd].
    destruct (usable_gps w ref) as [[lat lon]|] eqn:Hu.
    + eexists. rewrite Hstep. reflexivity.
    + destruct Hstep as [l Hstep]. rewrite Hstep.
      destruct (IH (with_printed (printed w ++ l)%list w)) as [l' Hl'].
      exists (l ++ l')%list. rewrite Hl'. cbn [printed with_printed].
      rewrite <- app_assoc. now rewrite first_usable_with_printed.
Qed.

(** The first usable candidate of a list, located. *)
Lemma first_usable_Some (w : world) (candidates : list (Z * ref_entry)) ll :
  first_usable w candidates = Some ll ->
  exists before c after,
    candidates = (before ++ c :: after)%list
    /\ usable_gps w (snd c) = Some ll
    /\ forall c', In c' before -> usable_gps w (snd c') = None.
Proof.
  induction candidates as [|c rest IH]; [discriminate|].
  cbn [first_usable]. destruct (usable_gps w (snd c)) as [ll'|] eqn:Hu.
  - intros [= <-]. exists [], c, rest. repeat split; [assumption|].
    intros c' [].
  - intros H. destruct (IH H) as (before & c0 & after & -> & Hc0 & Hb).
    exists (c :: before), c0, after. repeat split; [assumption|].
    intros c' [<- | Hin]; [assumption | now apply Hb].
Qed.

Lemma first_usable_None (w : world) (candidates : list (Z * ref_entry)) :
  first_usable w candidates = None ->
  forall c, In c candidates -> usable_gps w (snd c) = None.
Proof.
  induction candidates as [|c rest IH]; [intros _ c []|].
  cbn [first_usable]. destruct (usable_gps w (snd c)) as [ll'|] eqn:Hu;
    [discriminate|].
  intros H c' [<- | Hin]; [assumption | now apply IH].
Qed.

(** The resolver with a target time: the first usable candidate of the
    walk. *)
Lemma find_closest_run (target : string) (refs : list ref_entry)
    (t : Datetime.datetime) (w : world) :
  extract_timestamp target = Ok (Some t) ->
  exists l,
    find_closest_gps_in_reference target refs w
    = (with_printed (printed w ++ l)%list w,
       Ok (pair_of (first_usable w (walk_order t refs)))).
Proof.
  intros Ht.
  unfold find_closest_gps_in_reference, call_extract_timestamp.
  unfold bind at 1. unfold bind at 1. rewrite print_all_run.
  unfold lift. rewrite Ht. cbn beta iota.
  set (w1 := with_printed _ w).
  assert (Hfu : forall cs, first_usable w1 cs = first_usable w cs)
    by (intros; apply first_usable_with_printed).
  destruct (candidates_of t refs) as [|c cs] eqn:Hc.
  - exists (extract_timestamp_prints target ++ [NoCandidates])%list.
    unfold walk_order. rewrite Hc. unfold bind, print, ret. cbn.
    now rewrite <- app_assoc.
  - destruct (scan_candidates_run (sort_by_key fst (c :: cs)) w1) as [l Hl].
    exists (extract_timestamp_prints target ++ l)%list.
    rewrite Hl, Hfu. unfold walk_order. rewrite Hc.
    unfold w1. cbn [printed with_printed]. now rewrite <- app_assoc.
Qed.

(** The resolver without a target time. *)
Lemma find_closest_no_time (target : string) (refs : list ref_entry) (w : world) :
  extract_timestamp target = Ok None ->
  exists l,
    find_closest_gps_in_reference target refs w
    = (with_printed (printed w ++ l)%list w, Ok (None, None)).
Proof.
  intros Ht.
  unfold find_closest_gps_in_reference, call_extract_timestamp.
  unfold bind at 1. unfold bind at 1. rewrite print_all_run.
  unfold lift. rewrite Ht. cbn beta iota.
  exists (extract_timestamp_prints target ++ [WarnNoTargetTimestamp target])%list.
  unfold bind, print, ret. cbn [printed with_printed].
  now rewrite <- app_assoc.
Qed.

(** The resolver never raises and changes nothing but the printed lines. *)
Lemma find_closest_total (target : string) (refs : list ref_entry) (w : world) :
  exists l r,
    find_closest_gps_in_reference target refs w
    = (with_printed (printed w ++ l)%list w, Ok r)
    /\ (forall lat lon, r = (Some lat, Some lon) ->
          Float.truthy lat = true /\ Float.truthy lon = true)
    /\ (truthy_opt (fst r) && truthy_opt (snd r) = false -> r = (None, None)).
Proof.
  destruct (extract_timestamp_total target) as [[t|] Ht].
  - destruct (find_closest_run target refs t w Ht) as [l Hl].
    exists l, (pair_of (first_usable w (walk_order t refs))).
    split; [exact Hl|].
    destruct (first_usable w (walk_order t refs)) as [[la lo]|] eqn:Hfu.
    + apply first_usable_Some in Hfu.
      destruct Hfu as (before & c & after & _ & Hu & _).
      unfold usable_gps in Hu.
      destruct (present_gps w (snd c)) as [[la' lo']|]; [|discriminate].
      destruct (Float.truthy la' && Float.truthy lo') eqn:Htr; [|discriminate].
      injection Hu as -> ->. apply andb_true_iff in Htr.
      split.
      * intros lat lon [= <- <-]. exact Htr.
      * cbn [pair_of fst snd truthy_opt]. destruct Htr as [-> ->]. discriminate.
    + split; [discriminate | reflexivity].
  - destruct (find_closest_no_time target refs w Ht) as [l Hl].
    exists l, (None, None). split; [exact Hl|].
    split; [discriminate | reflexivity].
Qed.

Lemma candidates_of_In (t : Datetime.datetime) (refs : list ref_entry) c :
  In c (candidates_of t refs) <-> exists r, In r refs /\ c = (delta_to t r, r).
Proof.
  unfold candidates_of. rewrite in_map_iff. split.
  - intros [r [<- Hr]]. now exists r.
  - intros [r [Hr ->]]. now exists r.
Qed.

Lemma truthy_not_zero (a : pyfloat) : Float.truthy a = true <-> ~ is_zero a.
Proof.
  destruct a as [q|]; simpl.
  - rewrite negb_true_iff. split.
    + intros H Hz. apply Qeq_bool_iff in Hz. congruence.
    + intros H. destruct (Qeq_bool q 0) eqn:E; [|reflexivity].
      apply Qeq_bool_iff in E. contradiction.
  - split; [intros _ [] | reflexivity].
Qed.

(** The walk of the resolver.  With a target time, the resolver walks the
    candidates in ascending order of absolute time difference (a stable
    sort of the index) and returns the coordinate of the first candidate
    that passes its test [if lat and lon]: its metadata yields latitude and
    longitude and neither is zero.  Every candidate before it is passed over, the returned pair
    is that one candidate's pair, no usable entry of the index is closer in
    time, and the files are left as they were.  Without a usable candidate
    the result is [(None, None)]. *)
Theorem find_closest_first_usable (target : string) (refs : list ref_entry)
    (t : Datetime.datetime) (w : world) :
  extract_timestamp target = Ok (Some t) ->
  let walk := walk_order t refs in
  let result := find_closest_gps_in_reference target refs w in
  Permutation walk (candidates_of t refs)
  /\ StronglySorted (key_le fst) walk
  /\ (forall k, List.filter (fun c => fst c =? k) walk
                = List.filter (fun c => fst c =? k) (candidates_of t refs))
  /\ files (fst result) = files w
  /\ ((exists before c after lat lon,
          walk = (before ++ c :: after)%list
          /\ (forall c', In c' before -> usable_gps w (snd c') = None)
          /\ usable_gps w (snd c) = Some (lat, lon)
          /\ snd result = Ok (Some lat, Some lon)
          /\ (forall r, In r refs -> usable_gps w r <> None -> fst c <= delta_to t r))
      \/ ((forall r, In r refs -> usable_gps w r = None)
          /\ snd result = Ok (None, None))).
Proof.
  intros Ht walk result.
  assert (Hperm : Permutation walk (candidates_of t refs))
    by apply sort_by_key_perm.
  assert (Hsorted : StronglySorted (key_le fst) walk)
    by apply sort_by_key_sorted.
  split; [exact Hperm|]. split; [exact Hsorted|].
  split; [intros k; apply sort_by_key_stable|].
  destruct (find_closest_run target refs t w Ht) as [l Hl].
  fold walk in Hl. fold result in Hl. rewrite Hl. cbn [fst snd with_printed files].
  split; [reflexivity|].
  destruct (first_usable w walk) as [[lat lon]|] eqn:Hfu.
  - left. destruct (first_usable_Some _ _ _ Hfu)
      as (before & c & after & Hwalk & Hc & Hbefore).
    exists before, c, after, lat, lon. repeat split; try assumption.
    intros r Hr Hur.
    assert (Hin : In (delta_to t r, r) walk).
    { eapply Permutation_in; [apply Permutation_sym, Hperm|].
      apply candidates_of_In. now exists r. }
    rewrite Hwalk in Hin, Hsorted.
    apply in_app_or in Hin. destruct Hin as [Hin | [Heq | Hin]].
    + specialize (Hbefore _ Hin). cbn [snd] in Hbefore. contradiction.
    + rewrite Heq. cbn [fst]. lia.
    + clear -Hsorted Hin. induction before as [|b before IH].
      * cbn [app] in Hsorted. inversion Hsorted as [|? ? _ Hall]; subst.
        apply (proj1 (List.Forall_forall _ _) Hall _ Hin).
      * cbn [app] in Hsorted. inversion Hsorted; subst. now apply IH.
  - right. split; [|reflexivity].
    intros r Hr.
    assert (Hin : In (delta_to t r, r) walk).
    { eapply Permutation_in; [apply Permutation_sym, Hperm|].
      apply candidates_of_In. now exists r. }
    apply (first_usable_None _ _ Hfu _ Hin).
Qed.

Lemma find_closest_first_usable_witness :
  extract_timestamp "IMG_20220815_120000.png" = Ok (Some noon)
  /\ map fst (walk_order noon trip_index) = [300; 720; 2400]
  /\ snd (find_closest_gps_in_reference "IMG_20220815_120000.png" trip_index trip_world)
     = Ok (Some paris_lat, Some paris_lon)
  /\ files (fst (find_closest_gps_in_reference
                   "IMG_20220815_120000.png" trip_index trip_world))
     = files trip_world.
Proof.
  split; [reflexivity|]. split; [reflexivity|]. split; [reflexivity|].
  apply (find_closest_first_usable "IMG_20220815_120000.png" trip_index noon
           trip_world).
  reflexivity.
Defined.

(** C1 at a failing input.  In [equator_world] the first candidate of the
    walk, 5 minutes from the target, has a present coordinate, latitude 0
    and longitude 10, which is the coordinate that the rule of the
    specification returns.  The code tests the presence of the coordinate
    with [if lat and lon], takes the latitude 0 for an absent one, passes the
    candidate over and returns the coordinate of the second candidate, 12
    minutes away: the rule does not hold of the code. *)
Lemma first_present_wins_fails :
  map fst (walk_order noon trip_index) = [300; 720; 2400]
  /\ (exists c rest lat lon,
        walk_order noon trip_index = c :: rest
        /\ present_gps equator_world (snd c) = Some (Fin lat, Fin lon)
        /\ (lat == 0)%Q /\ (lon == 10)%Q)
  /\ snd (find_closest_gps_in_reference "IMG_20220815_120000.png" trip_index
            equator_world)
     = Ok (Some paris_lat, Some paris_lon)
  /\ ~ first_present_wins.
Proof.
  split; [reflexivity|]. split.
  { eexists _, _, _, _. split; [reflexivity|]. split; [reflexivity|].
    split; reflexivity. }
  split; [reflexivity|].
  intros H.
  specialize (H equator_world "IMG_20220815_120000.png" trip_index noon []
                (tl (walk_order noon trip_index))
                (hd (0, mkRef noon "" "") (walk_order noon trip_index))
                (Fin 0) (Fin 10)
                eq_refl eq_refl (fun _ F => match F with end) eq_refl).
  vm_compute in H. discriminate H.
Qed.

(** ** Zero coordinates *)

(** C10.  A coordinate whose latitude or longitude is exactly zero counts
    as absent.  In the resolver, a candidate whose metadata decodes to such
    a pair is passed over: the walk goes on with the rest as if the
    candidate were not there, and the resolver never returns a pair with a
    zero in it.  In the orchestrator, a resolved pair with a zero in it has
    the photo skipped: the one effect is the printed line, no file is
    written and no entry is added to [new_photos_data]. *)
Theorem zero_coordinate_absent :
  (forall (delta : Z) (ref : ref_entry) (rest : list (Z * ref_entry))
          (w : world) (lat lon : pyfloat),
      present_gps w ref = Some (lat, lon) ->
      is_zero lat \/ is_zero lon ->
      scan_candidates ((delta, ref) :: rest) w = scan_candidates rest w)
  /\ (forall (target : string) (refs : list ref_entry) (w : world)
             (lat lon : pyfloat),
        snd (find_closest_gps_in_reference target refs w) = Ok (Some lat, Some lon) ->
        ~ is_zero lat /\ ~ is_zero lon)
  /\ (forall (filename filepath : string) (lat lon : option pyfloat)
             (data : list photo_data) (w : world),
        (exists a, lat = Some a /\ is_zero a) \/ (exists a, lon = Some a /\ is_zero a) ->
        process_resolved filename filepath lat lon data w
        = (with_printed (printed w ++ [Skipping filename])%list w, Ok data)).
Proof.
  split; [|split].
  - intros delta ref rest w lat lon Hp Hz.
    cbn [scan_candidates]. unfold bind. rewrite try_candidate_run.
    unfold present_gps in Hp.
    destruct (gps_of w ref) as [[[la|] [lo|]]|e]; try discriminate.
    injection Hp as -> ->. cbn [fst snd truthy_opt].
    assert (Hf : Float.truthy lat && Float.truthy lon = false).
    { apply andb_false_iff.
      destruct Hz as [Hz|Hz]; [left|right];
        (destruct (Float.truthy _) eqn:E; [|reflexivity]);
        apply truthy_not_zero in E; contradiction. }
    now rewrite Hf.
  - intros target refs w lat lon Hr.
    destruct (find_closest_total target refs w) as (l & r & Hrun & Htr & _).
    rewrite Hrun in Hr. cbn [snd] in Hr. injection Hr as ->.
    destruct (Htr lat lon eq_refl) as [H1 H2].
    split; now apply truthy_not_zero.
  - intros filename filepath lat lon data w Hz.
    unfold process_resolved.
    destruct lat as [la|], lon as [lo|]; try reflexivity.
    assert (Hf : Float.truthy la && Float.truthy lo = false).
    { apply andb_false_iff.
      destruct Hz as [(a & [= ->] & Hz)|(a & [= ->] & Hz)]; [left|right];
        (destruct (Float.truthy _) eqn:E; [|reflexivity]);
        apply truthy_not_zero in E; contradiction. }
    rewrite Hf. reflexivity.
Qed.

Lemma zero_coordinate_absent_witness :
  scan_candidates (walk_order noon trip_index) equator_world
  = scan_candidates (tl (walk_order noon trip_index)) equator_world
  /\ process_resolved "IMG_20220815_120000.png" "photos/IMG_20220815_120000.png"
       (Some (Fin 0)) (Some paris_lon) [] equator_world
     = (with_printed [Skipping "IMG_20220815_120000.png"] equator_world, Ok []).
Proof.
  destruct zero_coordinate_absent as (Hscan & _ & Hskip).
  split.
  - apply (Hscan 300 (mkRef (Datetime.mkDatetime 2022 8 15 12 5 0)
                        "photo_all/IMG_20220815_120500.jpg"
                        "IMG_20220815_120500.jpg")
             (tl (walk_order noon trip_index)) equator_world
             (Fin 0) (Fin 10)).
    + reflexivity.
    + left. vm_compute. reflexivity.
  - apply (Hskip "IMG_20220815_120000.png" "photos/IMG_20220815_120000.png"
             (Some (Fin 0)) (Some paris_lon) [] equator_world).
    left. exists (Fin 0). split; [reflexivity | vm_compute; reflexivity].
Defined.

(** ** Metadata writer *)

Lemma require_piexif_run (w : world) :
  require_piexif w =
  if piexif_installed w then (w, Ok tt)
  else (with_printed (printed w ++ [WarnPiexifMissing])%list w, Raise ImportError).
Proof.
  unfold require_piexif, try_except, import_piexif.
  destruct (piexif_installed w); reflexivity.
Qed.

Lemma Image_open_run (p : string) (w : world) : Image_open p w = (w, opened w p).
Proof.
  unfold opened, Image_open.
  destruct (fault w OpOpen p); [reflexivity|].
  destruct (files w !! p) as [f|]; [|reflexivity].
  destruct (fmt f); reflexivity.
Qed.

Lemma opened_with_printed (l : list msg) (w : world) (p : string) :
  opened (with_printed l w) p = opened w p.
Proof.
  unfold opened, Image_open. cbn [with_printed fault files].
  destruct (fault w OpOpen p); [reflexivity|].
  destruct (files w !! p) as [f|]; [|reflexivity].
  destruct (fmt f); reflexivity.
Qed.

Lemma opened_Ok (w : world) (p : string) (f : file) :
  opened w p = Ok f -> files w !! p = Some f /\ fault w OpOpen p = false.
Proof.
  unfold opened, Image_open.
  destruct (fault w OpOpen p); [discriminate|].
  destruct (files w !! p) as [f'|]; [|discriminate].
  destruct (fmt f'); cbn [snd]; intros [= <-]; auto.
Qed.

(** The conversion of a PNG file, run. *)
Lemma convert_png_run (filepath : string) (w : world) :
  let name := OsPath.basename filepath in
  let w0 := with_printed (printed w ++ [Converting name])%list w in
  convert_png filepath w =
  match opened w filepath with
  | Ok img =>
      if fault w OpSave (converted_path filepath) then
        (with_printed (printed w0 ++ [ErrorConverting name OSError])%list w0,
         Ok (inr filepath))
      else
        (with_files
           (<[converted_path filepath := mkFile JPEG None (ConvertedRGB (body img))]>
              (files w)) w0,
         Ok (inl (converted_path filepath)))
  | Raise e =>
      (with_printed (printed w0 ++ [ErrorConverting name e])%list w0,
       Ok (inr filepath))
  end.
Proof.
  intros name w0.
  unfold convert_png, try_except, bind, print.
  rewrite Image_open_run, opened_with_printed.
  destruct (opened w filepath) as [img|e]; [|reflexivity].
  unfold Image_save_jpeg, converted_path. cbn [fault files with_printed].
  destruct (fault w OpSave _); reflexivity.
Qed.

(** The format gate never raises. *)
Lemma format_gate_total (filepath : string) (w : world) :
  exists w1 r, format_gate filepath w = (w1, Ok r).
Proof.
  unfold format_gate.
  destruct (negb (Str.endswith_any (Str.lower filepath) tiff_family)).
  - destruct (Str.endswith (Str.lower filepath) ".png").
    + rewrite convert_png_run.
      destruct (opened w filepath); [destruct (fault w OpSave _)|];
        eexists; eexists; reflexivity.
    + eexists; eexists; reflexivity.
  - eexists; eexists; reflexivity.
Qed.

(** The removal of the original, run. *)
Lemma remove_original_run (filepath original_filepath : string) (w : world) :
  remove_original filepath original_filepath w =
  if String.eqb filepath original_filepath then (w, Ok tt)
  else
    match files w !! original_filepath with
    | Some _ =>
        if fault w OpRemove original_filepath then (w, Ok tt)
        else
          (with_printed
             (printed w ++ [RemovedOriginal (OsPath.basename original_filepath)])%list
             (with_files (delete original_filepath (files w)) w),
           Ok tt)
    | None => (w, Ok tt)
    end.
Proof.
  unfold remove_original.
  destruct (String.eqb filepath original_filepath); [reflexivity|].
  cbn [negb]. unfold bind at 1. unfold os_path_exists.
  destruct (files w !! original_filepath) as [f|] eqn:Hf.
  - rewrite bool_decide_eq_true_2 by eauto.
    unfold try_except, bind, os_remove. rewrite Hf.
    destruct (fault w OpRemove original_filepath); reflexivity.
  - rewrite bool_decide_eq_false_2 by (intros [? ?]; discriminate).
    reflexivity.
Qed.

Lemma piexif_load_run (p : string) (w : world) :
  piexif_load p w = (w, snd (piexif_load p w)).
Proof.
  unfold piexif_load.
  destruct (fault w OpLoad p); [reflexivity|].
  destruct (files w !! p) as [f|]; [|reflexivity].
  destruct (fmt f); reflexivity.
Qed.

Lemma piexif_dump_run (p : string) (g : gps_info) (w : world) :
  piexif_dump p g w = (w, snd (piexif_dump p g w)).
Proof.
  unfold piexif_dump.
  destruct (fault w OpDump p); [reflexivity|].
  destruct (packable_tuple (GPSLatitude g) && packable_tuple (GPSLongitude g));
    reflexivity.
Qed.

Lemma piexif_dump_Ok (p : string) (g g' : gps_info) (w : world) :
  snd (piexif_dump p g w) = Ok g' -> g' = g.
Proof.
  unfold piexif_dump.
  destruct (fault w OpDump p); [discriminate|].
  destruct (packable_tuple (GPSLatitude g) && packable_tuple (GPSLongitude g));
    [|discriminate].
  now intros [= <-].
Qed.

(** An insertion that raises has left the world as it is, unless it was
    the write that failed: then the file is torn. *)
Lemma piexif_insert_raise (g : gps_info) (p : string) (w w' : world) (e : exn) :
  piexif_insert g p w = (w', Raise e) ->
  w' = w
  \/ (fault w OpInsert p = false /\ fault w OpWrite p = true
      /\ exists f, files w !! p = Some f /\ (fmt f = JPEG \/ fmt f = WEBP)
                   /\ w' = with_files (<[p := torn f]> (files w)) w).
Proof.
  unfold piexif_insert.
  destruct (fault w OpInsert p); [intros [= <-]; now left|].
  destruct (files w !! p) as [f|]; [|intros [= <-]; now left].
  destruct (fmt f) eqn:Hfmt; try (intros [= <-]; now left);
    (destruct (fault w OpWrite p); [|discriminate]);
    intros [= <- _]; right; repeat split; exists f; auto.
Qed.

(** An insertion that succeeds rewrites the metadata of a JPEG or WebP
    file. *)
Lemma piexif_insert_Ok (g : gps_info) (p : string) (w w' : world) :
  piexif_insert g p w = (w', Ok tt) ->
  exists f, files w !! p = Some f
            /\ (fmt f = JPEG \/ fmt f = WEBP)
            /\ w' = with_files (<[p := mkFile (fmt f) (Some g) (body f)]> (files w)) w.
Proof.
  unfold piexif_insert.
  destruct (fault w OpInsert p); [discriminate|].
  destruct (files w !! p) as [f|]; [|discriminate].
  destruct (fmt f) eqn:Hfmt; try discriminate;
    (destruct (fault w OpWrite p); [discriminate|]);
    intros [= <-]; exists f; rewrite ?Hfmt; repeat split; auto.
Qed.

(** The body of the last [try], run. *)
Lemma write_gps_run (filepath original_filepath : string) (lat lon : pyfloat)
    (w : world) :
  write_gps filepath original_filepath lat lon w =
  match snd (piexif_load filepath w) with
  | Raise e => (w, Raise e)
  | Ok exif_dict =>
      match to_deg lat ["N"; "S"] with
      | Raise e => (w, Raise e)
      | Ok lat_dms =>
          match to_deg lon ["E"; "W"] with
          | Raise e => (w, Raise e)
          | Ok lon_dms =>
              let exif_dict' :=
                set_gps_fields exif_dict (snd lat_dms) (fst lat_dms)
                               (snd lon_dms) (fst lon_dms) in
              match snd (piexif_dump filepath exif_dict' w) with
              | Raise e => (w, Raise e)
              | Ok exif_bytes =>
                  match piexif_insert exif_bytes filepath w with
                  | (w1, Raise e) => (w1, Raise e)
                  | (w1, Ok _) =>
                      (fst (remove_original filepath original_filepath
                              (with_printed (printed w1 ++ [SavedGps filepath])%list w1)),
                       Ok filepath)
                  end
              end
          end
      end
  end.
Proof.
  unfold write_gps. unfold bind at 1. rewrite piexif_load_run. cbn [snd].
  destruct (snd (piexif_load filepath w)) as [g|e]; [|reflexivity].
  unfold bind at 1. unfold lift at 1.
  destruct (to_deg lat ["N"; "S"]) as [lat_dms|e]; [|reflexivity].
  unfold bind at 1. unfold lift at 1.
  destruct (to_deg lon ["E"; "W"]) as [lon_dms|e]; [|reflexivity].
  unfold bind at 1. rewrite piexif_dump_run. cbn [snd].
  destruct (snd (piexif_dump filepath _ w)) as [bytes|e]; [|reflexivity].
  unfold bind at 1.
  destruct (piexif_insert bytes filepath w) as [w1 [[]|e]]; [|reflexivity].
  unfold bind at 1. unfold print at 1.
  unfold bind, ret.
  rewrite remove_original_run.
  destruct (String.eqb filepath original_filepath); [reflexivity|].
  cbn [files with_printed fault printed].
  destruct (files w1 !! original_filepath); [|reflexivity].
  destruct (fault w1 OpRemove original_filepath); reflexivity.
Qed.

(** When the body of the last [try] raises, the world is as it was, unless
    the body got as far as the write of the insertion and that write failed:
    then the file at the working path is torn, and nothing else has
    changed. *)
Lemma write_gps_raise (filepath original_filepath : string) (lat lon : pyfloat)
    (w w' : world) (e : exn) :
  write_gps filepath original_filepath lat lon w = (w', Raise e) ->
  (w' = w /\ (reaches_write w filepath lat lon -> fault w OpWrite filepath = false))
  \/ (reaches_write w filepath lat lon /\ fault w OpWrite filepath = true
      /\ exists f, files w !! filepath = Some f
                   /\ w' = with_files (<[filepath := torn f]> (files w)) w).
Proof.
  rewrite write_gps_run.
  destruct (snd (piexif_load filepath w)) as [g|e0] eqn:Hload.
  2:{ intros [= <- _]. left. split; [reflexivity|].
      intros (g & _ & _ & _ & Hg & _). congruence. }
  destruct (to_deg lat ["N"; "S"]) as [lat_dms|e0] eqn:Hlat.
  2:{ intros [= <- _]. left. split; [reflexivity|].
      intros (_ & la & _ & _ & _ & Hla & _). congruence. }
  destruct (to_deg lon ["E"; "W"]) as [lon_dms|e0] eqn:Hlon.
  2:{ intros [= <- _]. left. split; [reflexivity|].
      intros (_ & _ & lo & _ & _ & _ & Hlo & _). congruence. }
  cbv zeta.
  destruct (snd (piexif_dump filepath _ w)) as [bytes|e0] eqn:Hdump.
  2:{ intros [= <- _]. left. split; [reflexivity|].
      intros (g' & la & lo & _ & Hg & Hla & Hlo & [b Hb] & _).
      assert (g' = g) by congruence. assert (la = lat_dms) by congruence.
      assert (lo = lon_dms) by congruence. subst. congruence. }
  assert (Hreach : forall f, fault w OpInsert filepath = false ->
            files w !! filepath = Some f -> fmt f = JPEG \/ fmt f = WEBP ->
            reaches_write w filepath lat lon).
  { intros f Hfi Hf Hfmt. exists g, lat_dms, lon_dms, f.
    repeat split; try assumption. now exists bytes. }
  unfold piexif_insert.
  destruct (fault w OpInsert filepath) eqn:Hfi.
  { intros [= <- _]. left. split; [reflexivity|].
    intros (_ & _ & _ & _ & _ & _ & _ & _ & Hfi' & _). congruence. }
  destruct (files w !! filepath) as [f|] eqn:Hf.
  2:{ intros [= <- _]. left. split; [reflexivity|].
      intros (_ & _ & _ & f & _ & _ & _ & _ & _ & Hf' & _). congruence. }
  assert (Hother : fmt f <> JPEG -> fmt f <> WEBP ->
            reaches_write w filepath lat lon -> fault w OpWrite filepath = false).
  { intros H1 H2 (_ & _ & _ & f' & _ & _ & _ & _ & _ & Hf' & Hfmt).
    assert (f' = f) by congruence. subst f'. destruct Hfmt; contradiction. }
  destruct (fmt f) eqn:Hfmt;
    try (intros [= <- _]; left; split; [reflexivity|];
         apply Hother; discriminate);
    (destruct (fault w OpWrite filepath) eqn:Hfw; [|discriminate]);
    intros [= <- _]; right;
    (split; [apply (Hreach f); auto | split; [reflexivity | now exists f]]).
Qed.

(** [set_gps_location] with piexif installed, run. *)
Lemma set_gps_location_run (filepath : string) (lat lon : pyfloat) (w : world) :
  piexif_installed w = true ->
  set_gps_location filepath lat lon w =
  match format_gate filepath w with
  | (w1, Ok (inr p)) => (w1, Ok p)
  | (w1, Ok (inl work)) =>
      match write_gps work filepath lat lon w1 with
      | (w2, Raise e) =>
          (with_printed (printed w2 ++ [ErrorSavingGps work e])%list w2, Ok filepath)
      | r => r
      end
  | (w1, Raise e) => (w1, Raise e)
  end.
Proof.
  intros Hinst. unfold set_gps_location.
  unfold bind at 1. rewrite require_piexif_run, Hinst.
  unfold bind at 1.
  destruct (format_gate filepath w) as [w1 [[work|p]|e]]; reflexivity.
Qed.

(** C9.  Without piexif, [set_gps_location] prints the warning and raises
    the [ImportError] again: the call ends in the exception, not in a
    returned path, and the only change of the world is the printed line. *)
Theorem missing_piexif_raises (filepath : string) (lat lon : pyfloat) (w : world) :
  piexif_installed w = false ->
  set_gps_location filepath lat lon w
  = (with_printed (printed w ++ [WarnPiexifMissing])%list w, Raise ImportError).
Proof.
  intros Hmissing. unfold set_gps_location, bind.
  now rewrite require_piexif_run, Hmissing.
Qed.

Lemma missing_piexif_raises_witness :
  piexif_installed no_piexif_world = false
  /\ set_gps_location "photos/IMG_20220815_120100.jpg" paris_lat paris_lon
       no_piexif_world
     = (with_printed [WarnPiexifMissing] no_piexif_world, Raise ImportError).
Proof.
  split; [reflexivity|].
  apply (missing_piexif_raises "photos/IMG_20220815_120100.jpg" paris_lat
           paris_lon no_piexif_world).
  reflexivity.
Defined.

(** C7.  With piexif installed, a file whose name ends neither in an
    extension of the TIFF family (jpg, jpeg, tif, tiff) nor in png, letter
    case aside, is refused: [set_gps_location] returns the path it was
    given, prints the warning, and leaves every file as it was. *)
Theorem unsupported_format_refused (filepath : string) (lat lon : pyfloat)
    (w : world) :
  piexif_installed w = true ->
  Str.endswith_any (Str.lower filepath) tiff_family = false ->
  Str.endswith (Str.lower filepath) ".png" = false ->
  let r := set_gps_location filepath lat lon w in
  snd r = Ok filepath
  /\ files (fst r) = files w
  /\ printed (fst r)
     = (printed w ++ [WarnFormatNotSupported (OsPath.basename filepath)])%list.
Proof.
  intros Hinst Htiff Hpng r. unfold r.
  rewrite (set_gps_location_run _ _ _ _ Hinst).
  unfold format_gate. rewrite Htiff, Hpng. cbn [negb].
  unfold bind, print, ret. cbn [fst snd files printed with_printed]. auto.
Qed.

Lemma unsupported_format_refused_witness :
  let r := set_gps_location "photos/IMG_20220815_120200.bmp" paris_lat paris_lon
             trip_world in
  snd r = Ok "photos/IMG_20220815_120200.bmp"
  /\ files (fst r) = files trip_world
  /\ printed (fst r) = [WarnFormatNotSupported "IMG_20220815_120200.bmp"].
Proof.
  apply (unsupported_format_refused "photos/IMG_20220815_120200.bmp" paris_lat
           paris_lon trip_world); reflexivity.
Defined.

(** What the format gate leaves of the file it was given. *)
Lemma format_gate_keeps_original (filepath work : string) (w w1 : world) :
  format_gate filepath w = (w1, Ok (inl work)) ->
  files w1 !! filepath = files w !! filepath.
Proof.
  unfold format_gate.
  destruct (Str.endswith_any (Str.lower filepath) tiff_family) eqn:Htiff;
    cbn [negb].
  - now intros [= <- _].
  - destruct (Str.endswith (Str.lower filepath) ".png").
    + rewrite convert_png_run.
      destruct (opened w filepath) as [img|e]; [|discriminate].
      destruct (fault w OpSave (converted_path filepath)); [discriminate|].
      intros [= <- _]. cbn [files with_files with_printed].
      apply lookup_insert_ne. now apply converted_path_differs.
    + discriminate.
Qed.

(** C6, as the code has it.  When the body of the last [try] of
    [set_gps_location] (the load of the metadata, the conversion of the two
    coordinates, the dump and the insertion) raises on the working path that
    the format gate gave, the write is given up: the function prints the
    error and returns the path it was given, and no file but the one at the
    working path can have changed.  When the exception comes from the load,
    a conversion, the dump, or from the insertion before it writes the file
    back, every file is as the format gate left it and the file that was
    given is as it was before the call.  When the body got as far as the
    write of the insertion and that write failed, the file at the working
    path (the file that was given or, for a PNG name, its converted copy) is
    torn. *)
Theorem failed_write_keeps_file (filepath work : string) (lat lon : pyfloat)
    (w w1 w2 : world) (e : exn) :
  piexif_installed w = true ->
  format_gate filepath w = (w1, Ok (inl work)) ->
  write_gps work filepath lat lon w1 = (w2, Raise e) ->
  let r := set_gps_location filepath lat lon w in
  snd r = Ok filepath
  /\ printed (fst r) = (printed w1 ++ [ErrorSavingGps work e])%list
  /\ (forall q, q <> work -> files (fst r) !! q = files w1 !! q)
  /\ (work <> filepath -> files (fst r) !! filepath = files w !! filepath)
  /\ (~ reaches_write w1 work lat lon \/ fault w1 OpWrite work = false ->
      files (fst r) = files w1
      /\ files (fst r) !! filepath = files w !! filepath)
  /\ (reaches_write w1 work lat lon -> fault w1 OpWrite work = true ->
      exists f, files w1 !! work = Some f
                /\ files (fst r) = <[work := torn f]> (files w1)).
Proof.
  intros Hinst Hgate Hwrite r. unfold r.
  rewrite (set_gps_location_run _ _ _ _ Hinst), Hgate, Hwrite.
  pose proof (format_gate_keeps_original _ _ _ _ Hgate) as Horig.
  cbn [fst snd files printed with_printed].
  destruct (write_gps_raise _ _ _ _ _ _ _ Hwrite)
    as [[-> Hno] | (Hreach & Hfw & f & Hf & ->)].
  - split; [reflexivity|]. split; [reflexivity|]. split; [reflexivity|].
    split; [intros _; exact Horig|]. split; [intros _; now split|].
    intros Hreach Hfw. specialize (Hno Hreach). congruence.
  - cbn [files with_files].
    split; [reflexivity|]. split; [reflexivity|].
    split; [intros q Hq; now apply lookup_insert_ne|].
    split; [intros Hne; now rewrite lookup_insert_ne|].
    split; [intros [Hn | Hn]; [contradiction | congruence]|].
    intros _ _. now exists f.
Qed.

Lemma failed_write_keeps_file_witness :
  (let r := set_gps_location "photos/IMG_20220815_120100.jpg" paris_lat paris_lon
              unreadable_world in
   snd r = Ok "photos/IMG_20220815_120100.jpg"
   /\ files (fst r) = files unreadable_world
   /\ printed (fst r) = [ErrorSavingGps "photos/IMG_20220815_120100.jpg" OSError])
  /\ (let r := set_gps_location "photos/IMG_20220815_120100.jpg" paris_lat paris_lon
                 locked_world in
      snd r = Ok "photos/IMG_20220815_120100.jpg"
      /\ files (fst r) = files locked_world)
  /\ (let r := set_gps_location "photos/IMG_20220815_120100.jpg" paris_lat paris_lon
                 full_world in
      snd r = Ok "photos/IMG_20220815_120100.jpg"
      /\ files (fst r)
         = <["photos/IMG_20220815_120100.jpg" := torn (mkFile JPEG None (Original 5))]>
             (files full_world)).
Proof.
  split; [|split].
  - destruct (failed_write_keeps_file "photos/IMG_20220815_120100.jpg"
                "photos/IMG_20220815_120100.jpg" paris_lat paris_lon
                unreadable_world unreadable_world unreadable_world OSError
                eq_refl eq_refl eq_refl)
      as (Hret & Hprint & _ & _ & Hkeep & _).
    split; [exact Hret|]. split; [|exact Hprint].
    apply Hkeep. left. intros (g & _ & _ & _ & Hload & _). discriminate Hload.
  - destruct (failed_write_keeps_file "photos/IMG_20220815_120100.jpg"
                "photos/IMG_20220815_120100.jpg" paris_lat paris_lon
                locked_world locked_world locked_world OSError
                eq_refl eq_refl eq_refl)
      as (Hret & _ & _ & _ & Hkeep & _).
    split; [exact Hret|]. apply Hkeep. right. reflexivity.
  - set (r := set_gps_location "photos/IMG_20220815_120100.jpg" paris_lat
                paris_lon full_world).
    assert (Hw : exists w2,
               write_gps "photos/IMG_20220815_120100.jpg"
                 "photos/IMG_20220815_120100.jpg" paris_lat paris_lon full_world
               = (w2, Raise OSError)).
    { eexists. vm_compute. reflexivity. }
    destruct Hw as [w2 Hw].
    destruct (failed_write_keeps_file "photos/IMG_20220815_120100.jpg"
                "photos/IMG_20220815_120100.jpg" paris_lat paris_lon
                full_world full_world w2 OSError eq_refl eq_refl Hw)
      as (Hret & _ & _ & _ & _ & Htorn).
    split; [exact Hret|].
    destruct Htorn as (f & Hf & Hfiles).
    + eexists _, _, _, _. split; [vm_compute; reflexivity|].
      split; [vm_compute; reflexivity|]. split; [vm_compute; reflexivity|].
      split; [eexists; vm_compute; reflexivity|].
      split; [reflexivity|]. split; [reflexivity|]. left. reflexivity.
    + reflexivity.
    + vm_compute in Hf. injection Hf as <-. exact Hfiles.
Defined.

(** C6, as the specification words it, fails for the persist step.  In
    [full_world] the write of the insertion fails on the JPEG target after
    the file has been truncated: [set_gps_location] catches the error and
    returns the path it was given, but the file at that path is torn, not
    as it was. *)
Lemma torn_write_changes_file :
  files full_world !! "photos/IMG_20220815_120100.jpg"
  = Some (mkFile JPEG None (Original 5))
  /\ snd (set_gps_location "photos/IMG_20220815_120100.jpg" paris_lat paris_lon
            full_world)
     = Ok "photos/IMG_20220815_120100.jpg"
  /\ files (fst (set_gps_location "photos/IMG_20220815_120100.jpg" paris_lat
                   paris_lon full_world))
       !! "photos/IMG_20220815_120100.jpg"
     = Some (mkFile NotAnImage None (Torn (Original 5)))
  /\ ~ failed_write_leaves_file.
Proof.
  split; [reflexivity|]. split; [vm_compute; reflexivity|].
  split; [vm_compute; reflexivity|].
  intros H.
  assert (Hw : exists w2,
             write_gps "photos/IMG_20220815_120100.jpg"
               "photos/IMG_20220815_120100.jpg" paris_lat paris_lon full_world
             = (w2, Raise OSError)).
  { eexists. vm_compute. reflexivity. }
  destruct Hw as [w2 Hw].
  destruct (H full_world full_world w2 "photos/IMG_20220815_120100.jpg"
              "photos/IMG_20220815_120100.jpg" paris_lat paris_lon OSError
              eq_refl eq_refl Hw) as [_ Hsame].
  vm_compute in Hsame. discriminate Hsame.
Qed.

(** The raising steps of the body of the last [try]: if it raises, one of
    the load, the two conversions, the dump and the insertion did, in that
    order. *)
Lemma write_gps_raise_cause (filepath original_filepath : string)
    (lat lon : pyfloat) (w w' : world) (e : exn) :
  write_gps filepath original_filepath lat lon w = (w', Raise e) ->
  snd (piexif_load filepath w) = Raise e
  \/ to_deg lat ["N"; "S"] = Raise e
  \/ to_deg lon ["E"; "W"] = Raise e
  \/ (exists g, snd (piexif_dump filepath g w) = Raise e)
  \/ (exists g, snd (piexif_insert g filepath w) = Raise e).
Proof.
  rewrite write_gps_run.
  destruct (snd (piexif_load filepath w)) as [g|e0]; [|intros [= _ <-]; auto].
  destruct (to_deg lat ["N"; "S"]) as [lat_dms|e0]; [|intros [= _ <-]; auto].
  destruct (to_deg lon ["E"; "W"]) as [lon_dms|e0]; [|intros [= _ <-]; auto].
  cbv zeta.
  destruct (snd (piexif_dump filepath _ w)) as [bytes|e0] eqn:Hdump;
    [|intros [= _ <-]; eauto 6].
  destruct (piexif_insert bytes filepath w) as [w1 [[]|e0]] eqn:Hins;
    [discriminate|].
  intros [= _ <-]. right. right. right. right. exists bytes. now rewrite Hins.
Qed.

(** C4.  A call of [set_gps_location] with a coordinate (a latitude
    between -90 and 90, a longitude between -180 and 180) on a file whose
    name ends in [.png] (letter case aside) that succeeds, that is, returns
    a path other than the one it was given, returns the path with the
    extension replaced by [.jpg]; at that path there is a JPEG file made
    from the picture of the original, whose metadata decodes to the given
    latitude and longitude within the rounding tolerance; and the original
    is gone, unless [os.remove] failed on it, in which case it is still
    there and the call has succeeded all the same. *)
Theorem png_write_converts (filepath : string) (a b : Q)
    (w w' : world) (p : string) :
  Str.endswith (Str.lower filepath) ".png" = true ->
  (Qabs a <= 90)%Q -> (Qabs b <= 180)%Q ->
  set_gps_location filepath (Fin a) (Fin b) w = (w', Ok p) ->
  p <> filepath ->
  p = converted_path filepath
  /\ exists orig f a' b',
       files w !! filepath = Some orig
       /\ files w' !! p = Some f
       /\ fmt f = JPEG /\ body f = ConvertedRGB (body orig)
       /\ decode_file f = Ok (Some (Fin a'), Some (Fin b'))
       /\ within_tolerance a' a /\ within_tolerance b' b
       /\ (if fault w OpRemove filepath
           then files w' !! filepath = Some orig
           else files w' !! filepath = None).
Proof.
  intros Hpng Hlatr Hlonr Hrun Hne.
  assert (Hlatr' : (Qabs a <= 180)%Q) by lra.
  pose proof (png_not_tiff_family _ Hpng) as Htiff.
  pose proof (converted_path_differs _ Htiff) as Hdiff.
  fold (converted_path filepath) in Hdiff.
  destruct (piexif_installed w) eqn:Hinst.
  2:{ unfold set_gps_location, bind in Hrun.
      rewrite require_piexif_run, Hinst in Hrun. discriminate. }
  rewrite (set_gps_location_run _ _ _ _ Hinst) in Hrun.
  unfold format_gate in Hrun. rewrite Htiff, Hpng in Hrun. cbn [negb] in Hrun.
  rewrite convert_png_run in Hrun.
  destruct (opened w filepath) as [orig|e] eqn:Hopen;
    [|injection Hrun as _ Hp; congruence].
  destruct (opened_Ok _ _ _ Hopen) as [Horig _].
  destruct (fault w OpSave (converted_path filepath));
    [injection Hrun as _ Hp; congruence|].
  set (new := converted_path filepath) in *.
  set (w1 := with_files _ _) in Hrun.
  assert (Hnew1 : files w1 !! new = Some (mkFile JPEG None (ConvertedRGB (body orig))))
    by apply lookup_insert_eq.
  assert (Horig1 : files w1 !! filepath = Some orig).
  { unfold w1. cbn [files with_files]. now rewrite lookup_insert_ne. }
  rewrite write_gps_run in Hrun.
  destruct (snd (piexif_load new w1)) as [g|e] eqn:Hload;
    [|injection Hrun as _ Hp; congruence].
  assert (Hg : g = empty_gps).
  { unfold piexif_load in Hload. rewrite Hnew1 in Hload.
    destruct (fault w1 OpLoad new); [discriminate|].
    cbn in Hload. congruence. }
  destruct (to_deg (Fin a) ["N"; "S"]) as [lat_dms|e] eqn:Hlat;
    [|injection Hrun as _ Hp; congruence].
  destruct (to_deg (Fin b) ["E"; "W"]) as [lon_dms|e] eqn:Hlon;
    [|injection Hrun as _ Hp; congruence].
  cbv zeta in Hrun.
  destruct (snd (piexif_dump new _ w1)) as [bytes|e] eqn:Hdump;
    [|injection Hrun as _ Hp; congruence].
  apply piexif_dump_Ok in Hdump.
  destruct (piexif_insert bytes new w1) as [w2 [[]|e]] eqn:Hins;
    [|injection Hrun as _ Hp; congruence].
  injection Hrun as Hw' Hp. subst p. split; [reflexivity|].
  destruct (piexif_insert_Ok _ _ _ _ Hins) as (f0 & Hf0 & _ & Hw2).
  rewrite Hnew1 in Hf0. injection Hf0 as <-. cbn [fmt body] in Hw2.
  destruct (to_deg_get_decimal a "N" "S" Hlatr' eq_refl eq_refl)
    as (dms1 & ref1 & a' & Ha1 & Ha2 & Ha3 & d1 & m1 & s1 & Hs1 & Hr1 & _).
  destruct (to_deg_get_decimal b "E" "W" Hlonr eq_refl eq_refl)
    as (dms2 & ref2 & b' & Hb1 & Hb2 & Hb3 & d2 & m2 & s2 & Hs2 & Hr2 & _).
  rewrite Ha1 in Hlat. injection Hlat as <-.
  rewrite Hb1 in Hlon. injection Hlon as <-.
  cbn [fst snd] in Hdump.
  set (f := mkFile JPEG (Some bytes) (ConvertedRGB (body orig))) in *.
  assert (Hdecode : decode_file f = Ok (Some (Fin a'), Some (Fin b'))).
  { unfold decode_file, f, get_exif_data, getexif. cbn [fmt gps].
    rewrite Hdump. unfold get_lat_lon, set_gps_fields.
    cbn [GPSLatitude GPSLatitudeRef GPSLongitude GPSLongitudeRef].
    rewrite Hs1, Hs2 in *.
    destruct Hr1 as [-> | ->], Hr2 as [-> | ->]; cbv beta iota;
      unfold rational in *; now rewrite Ha2, Hb2. }
  assert (Heqb : String.eqb new filepath = false)
    by now apply String.eqb_neq.
  rewrite remove_original_run, Heqb in Hw'.
  assert (Horig2 : files w2 !! filepath = Some orig).
  { rewrite Hw2. cbn [files with_files]. now rewrite lookup_insert_ne. }
  assert (Hnew2 : files w2 !! new = Some f).
  { rewrite Hw2. cbn [files with_files]. apply lookup_insert_eq. }
  assert (Hfault : fault w2 OpRemove filepath = fault w OpRemove filepath).
  { rewrite Hw2. reflexivity. }
  cbn [files with_printed fault] in Hw'. rewrite Horig2, Hfault in Hw'.
  exists orig, f, a', b'.
  destruct (fault w OpRemove filepath).
  - cbn [fst] in Hw'. subst w'. cbn [files with_printed].
    repeat split; assumption.
  - cbn [fst] in Hw'. subst w'. cbn [files with_printed with_files].
    repeat split; try assumption.
    + rewrite lookup_delete_ne by (intros Heq; now apply Hdiff). exact Hnew2.
    + apply lookup_delete_eq.
Qed.

Lemma paris_lat_range : (Qabs paris_lat_q <= 90)%Q.
Proof. vm_compute. discriminate. Qed.

Lemma paris_lon_range : (Qabs paris_lon_q <= 180)%Q.
Proof. vm_compute. discriminate. Qed.

Lemma png_write_converts_witness :
  (exists w',
      set_gps_location "photos/IMG_20220815_120000.png" paris_lat paris_lon trip_world
      = (w', Ok "photos/IMG_20220815_120000.jpg")
      /\ files w' !! "photos/IMG_20220815_120000.png" = None
      /\ exists f, files w' !! "photos/IMG_20220815_120000.jpg" = Some f
                   /\ fmt f = JPEG)
  /\ (exists w',
        set_gps_location "photos/IMG_20220815_120000.png" paris_lat paris_lon
          sticky_world
        = (w', Ok "photos/IMG_20220815_120000.jpg")
        /\ files w' !! "photos/IMG_20220815_120000.png"
           = Some (mkFile PNG None (Original 4))
        /\ exists f, files w' !! "photos/IMG_20220815_120000.jpg" = Some f
                     /\ fmt f = JPEG).
Proof.
  split.
  - set (r := set_gps_location "photos/IMG_20220815_120000.png" paris_lat
                paris_lon trip_world).
    assert (Hr : r = (fst r, Ok "photos/IMG_20220815_120000.jpg"))
      by (vm_compute; reflexivity).
    exists (fst r). split; [exact Hr|].
    destruct (png_write_converts "photos/IMG_20220815_120000.png" paris_lat_q
                paris_lon_q trip_world (fst r) "photos/IMG_20220815_120000.jpg"
                eq_refl paris_lat_range paris_lon_range Hr)
      as (_ & orig & f & a' & b' & Horig & Hf & Hfmt & _ & _ & _ & _ & Hrem).
    + discriminate.
    + split; [exact Hrem|]. exists f. split; assumption.
  - set (r := set_gps_location "photos/IMG_20220815_120000.png" paris_lat
                paris_lon sticky_world).
    assert (Hr : r = (fst r, Ok "photos/IMG_20220815_120000.jpg"))
      by (vm_compute; reflexivity).
    exists (fst r). split; [exact Hr|].
    destruct (png_write_converts "photos/IMG_20220815_120000.png" paris_lat_q
                paris_lon_q sticky_world (fst r) "photos/IMG_20220815_120000.jpg"
                eq_refl paris_lat_range paris_lon_range Hr)
      as (_ & orig & f & a' & b' & Horig & Hf & Hfmt & _ & _ & _ & _ & Hrem).
    + discriminate.
    + split.
      * change (fault sticky_world OpRemove "photos/IMG_20220815_120000.png")
          with true in Hrem.
        rewrite Hrem. rewrite <- Horig. reflexivity.
      * exists f. split; assumption.
Defined.

(** The other direction: when nothing fails up to the end of the insertion,
    a PNG file is converted and written, and the call returns the new path
    whether or not [os.remove] then fails on the original. *)
Lemma png_write_succeeds (filepath : string) (a b : Q) (w : world) (orig : file) :
  piexif_installed w = true ->
  Str.endswith (Str.lower filepath) ".png" = true ->
  opened w filepath = Ok orig ->
  fault w OpSave (converted_path filepath) = false ->
  fault w OpLoad (converted_path filepath) = false ->
  fault w OpDump (converted_path filepath) = false ->
  fault w OpInsert (converted_path filepath) = false ->
  fault w OpWrite (converted_path filepath) = false ->
  (Qabs a <= 180)%Q -> (Qabs b <= 180)%Q ->
  snd (set_gps_location filepath (Fin a) (Fin b) w) = Ok (converted_path filepath).
Proof.
  intros Hinst Hpng Hopen Hsave Hload Hdump Hins Hwr Ha Hb.
  pose proof (png_not_tiff_family _ Hpng) as Htiff.
  rewrite (set_gps_location_run _ _ _ _ Hinst).
  unfold format_gate. rewrite Htiff, Hpng. cbn [negb].
  rewrite convert_png_run, Hopen, Hsave.
  set (new := converted_path filepath) in *.
  set (w1 := with_files _ _).
  assert (Hnew1 : files w1 !! new = Some (mkFile JPEG None (ConvertedRGB (body orig))))
    by apply lookup_insert_eq.
  rewrite write_gps_run.
  assert (Hl : snd (piexif_load new w1) = Ok empty_gps).
  { unfold piexif_load. rewrite Hnew1.
    change (fault w1 OpLoad new) with (fault w OpLoad new). now rewrite Hload. }
  rewrite Hl.
  destruct (to_deg_get_decimal a "N" "S" Ha eq_refl eq_refl)
    as (dms1 & ref1 & a' & Ha1 & _ & _ & d1 & m1 & s1 & -> & _ & Hd1 & Hm1 & Hs1).
  destruct (to_deg_get_decimal b "E" "W" Hb eq_refl eq_refl)
    as (dms2 & ref2 & b' & Hb1 & _ & _ & d2 & m2 & s2 & -> & _ & Hd2 & Hm2 & Hs2).
  rewrite Ha1, Hb1. cbv zeta. cbn [fst snd].
  assert (Hd : snd (piexif_dump new
                      (set_gps_fields empty_gps ref1 [(d1, 1); (m1, 1); (s1, 10000)]
                         ref2 [(d2, 1); (m2, 1); (s2, 10000)]) w1)
               = Ok (set_gps_fields empty_gps ref1 [(d1, 1); (m1, 1); (s1, 10000)]
                       ref2 [(d2, 1); (m2, 1); (s2, 10000)])).
  { unfold piexif_dump.
    change (fault w1 OpDump new) with (fault w OpDump new). rewrite Hdump.
    replace (packable_tuple _ && packable_tuple _) with true; [reflexivity|].
    symmetry. cbn [set_gps_fields GPSLatitude GPSLongitude packable_tuple
                   forallb packable].
    rewrite !andb_true_iff, !Z.leb_le, !Z.ltb_lt.
    change (2 ^ 32) with 4294967296. lia. }
  rewrite Hd.
  unfold piexif_insert.
  change (fault w1 OpInsert new) with (fault w OpInsert new).
  change (fault w1 OpWrite new) with (fault w OpWrite new).
  rewrite Hins, Hnew1. cbn [fmt]. rewrite Hwr. reflexivity.
Qed.

(** ** Batch orchestrator *)

Lemma closing_events_app (l1 l2 : list msg) :
  closing_events (l1 ++ l2) = (closing_events l1 + closing_events l2)%nat.
Proof. unfold closing_events. now rewrite List.filter_app, length_app. Qed.

Section Quiet.
Context {A B : Type}.

Lemma quiet_ret (P : A -> Prop) (a : A) : P a -> quiet_with P (ret a).
Proof.
  intros Ha w. exists []. cbn. rewrite app_nil_r. auto.
Qed.

Lemma quiet_raise (P : A -> Prop) (e : exn) : quiet_with P (raise e).
Proof.
  intros w. exists []. cbn. rewrite app_nil_r. auto.
Qed.

Lemma quiet_lift (P : A -> Prop) (o : outcome A) :
  (forall a, o = Ok a -> P a) -> quiet_with P (lift o).
Proof.
  intros Ho w. exists []. cbn. rewrite app_nil_r.
  repeat split. destruct o; auto.
Qed.

Lemma quiet_weaken (P Q : A -> Prop) (m : M A) :
  quiet_with P m -> (forall a, P a -> Q a) -> quiet_with Q m.
Proof.
  intros Hm HPQ w. destruct (Hm w) as (l & Hl & Hc & Hr).
  exists l. repeat split; try assumption.
  destruct (snd (m w)); auto.
Qed.

Lemma quiet_bind (Q : A -> Prop) (P : B -> Prop) (m : M A) (k : A -> M B) :
  quiet_with Q m -> (forall a, Q a -> quiet_with P (k a)) ->
  quiet_with P (bind m k).
Proof.
  intros Hm Hk w. destruct (Hm w) as (l & Hl & Hc & Hr).
  unfold bind. destruct (m w) as [w1 [a|e]]; cbn [fst snd] in *.
  - destruct (Hk a Hr w1) as (l' & Hl' & Hc' & Hr').
    exists (l ++ l')%list. rewrite Hl', Hl, closing_events_app, Hc, Hc'.
    rewrite app_assoc. auto.
  - exists l. auto.
Qed.

Lemma quiet_try (P : A -> Prop) (m : M A) (catches : exn -> bool)
    (h : exn -> M A) :
  quiet_with P m -> (forall e, quiet_with P (h e)) ->
  quiet_with P (try_except m catches h).
Proof.
  intros Hm Hh w. destruct (Hm w) as (l & Hl & Hc & Hr).
  unfold try_except. destruct (m w) as [w1 [a|e]]; cbn [fst snd] in *.
  - exists l. auto.
  - destruct (catches e).
    + destruct (Hh e w1) as (l' & Hl' & Hc' & Hr').
      exists (l ++ l')%list. rewrite Hl', Hl, closing_events_app, Hc, Hc'.
      rewrite app_assoc. auto.
    + exists l. auto.
Qed.

End Quiet.

Lemma quiet_print (P : unit -> Prop) (m : msg) :
  is_closing m = false -> P tt -> quiet_with P (print m).
Proof.
  intros Hm HP w. exists [m]. cbn [print fst snd printed with_printed].
  repeat split; [|exact HP].
  unfold closing_events. cbn [List.filter]. now rewrite Hm.
Qed.

(** The operations of the environment print nothing. *)
Ltac silent :=
  intros w; exists []; rewrite app_nil_r;
  repeat match goal with
  | |- context [match ?x with _ => _ end] => destruct x
  | |- context [if ?b then _ else _] => destruct b
  end; cbn; auto.

Lemma quiet_os_path_exists p : quiet (os_path_exists p).
Proof. unfold os_path_exists. intros w. exists []. rewrite app_nil_r. cbn. auto. Qed.

Lemma quiet_os_dir_exists d : quiet (os_dir_exists d).
Proof. unfold os_dir_exists. intros w. exists []. rewrite app_nil_r. cbn. auto. Qed.

Lemma quiet_os_remove p : quiet (os_remove p).
Proof. unfold os_remove. silent. Qed.

Lemma quiet_os_listdir d : quiet (os_listdir d).
Proof. unfold os_listdir. silent. Qed.

Lemma quiet_Image_open p : quiet (Image_open p).
Proof. unfold Image_open. silent. Qed.

Lemma quiet_Image_save_jpeg img p : quiet (Image_save_jpeg img p).
Proof. unfold Image_save_jpeg. silent. Qed.

Lemma quiet_piexif_load p : quiet (piexif_load p).
Proof. unfold piexif_load. silent. Qed.

Lemma quiet_piexif_dump p g : quiet (piexif_dump p g).
Proof. unfold piexif_dump. silent. Qed.

Lemma quiet_piexif_insert g p : quiet (piexif_insert g p).
Proof. unfold piexif_insert. silent. Qed.

Lemma quiet_import_piexif : quiet import_piexif.
Proof. unfold import_piexif. silent. Qed.

Lemma quiet_lift_any {A} (o : outcome A) : quiet (lift o).
Proof. apply quiet_lift. auto. Qed.

Create HintDb quiet.
#[local] Hint Resolve quiet_os_path_exists quiet_os_dir_exists quiet_os_remove
  quiet_os_listdir quiet_Image_open quiet_Image_save_jpeg quiet_piexif_load
  quiet_piexif_dump quiet_piexif_insert quiet_import_piexif quiet_lift_any
  : quiet.

(** Taking a computation apart along its binds, branches and handlers. *)
Ltac quiet_step :=
  match goal with
  | |- quiet _ => first [solve [eauto with quiet] | unfold quiet]
  | |- quiet_with _ (bind _ _) =>
      eapply (quiet_bind (fun _ => True)); [|intros ? _]
  | |- quiet_with _ (try_except _ _ _) => apply quiet_try; [|intros ?]
  | |- quiet_with _ (ret _) => apply quiet_ret
  | |- quiet_with _ (raise _) => apply quiet_raise
  | |- quiet_with _ (print _) => apply quiet_print; [reflexivity|]
  | |- quiet_with _ (if ?b then _ else _) => destruct b
  | |- quiet_with _ (match ?x with _ => _ end) => destruct x
  | |- quiet_with (fun _ => True) ?m => change (quiet m); solve [eauto with quiet]
  | |- True => exact I
  end.

Lemma quiet_print_all (l : list msg) :
  forallb (fun m => negb (is_closing m)) l = true -> quiet (print_all l).
Proof.
  induction l as [|m l IH]; cbn [forallb print_all]; intros H.
  - now apply quiet_ret.
  - apply andb_true_iff in H. destruct H as [Hm Hl].
    apply negb_true_iff in Hm.
    eapply (quiet_bind (fun _ => True)); [now apply quiet_print | intros _ _].
    now apply IH.
Qed.

Lemma quiet_call_extract_timestamp filename :
  quiet (call_extract_timestamp filename).
Proof.
  unfold call_extract_timestamp.
  eapply (quiet_bind (fun _ => True)); [|intros _ _; apply quiet_lift_any].
  apply quiet_print_all. unfold extract_timestamp_prints.
  destruct (re_search timestamp_pattern filename) as [m|]; [|reflexivity].
  destruct (groups m) as [[[[mo d] h] mi] s].
  destruct (Datetime.make 2022 mo d h mi s); reflexivity.
Qed.

Lemma quiet_read_lat_lon ref : quiet (read_lat_lon ref).
Proof. unfold read_lat_lon. repeat quiet_step. Qed.

Lemma quiet_try_candidate delta ref : quiet (try_candidate delta ref).
Proof.
  unfold try_candidate.
  apply quiet_try.
  - eapply (quiet_bind (fun _ => True)); [apply quiet_read_lat_lon|].
    intros ll _. repeat quiet_step.
  - intros e. repeat quiet_step.
Qed.

Lemma quiet_scan_candidates candidates : quiet (scan_candidates candidates).
Proof.
  induction candidates as [|[delta ref] rest IH]; cbn [scan_candidates].
  - repeat quiet_step.
  - eapply (quiet_bind (fun _ => True)); [apply quiet_try_candidate|].
    intros [ll|] _; [now apply quiet_ret | exact IH].
Qed.

Lemma quiet_find_closest target refs :
  quiet (find_closest_gps_in_reference target refs).
Proof.
  unfold find_closest_gps_in_reference.
  eapply (quiet_bind (fun _ => True)); [apply quiet_call_extract_timestamp|].
  intros [t|] _; [|repeat quiet_step].
  destruct (candidates_of t refs); [repeat quiet_step|].
  apply quiet_scan_candidates.
Qed.

Lemma quiet_require_piexif : quiet require_piexif.
Proof. unfold require_piexif. repeat quiet_step. Qed.

Lemma quiet_convert_png filepath : quiet (convert_png filepath).
Proof. unfold convert_png. repeat quiet_step. Qed.

Lemma quiet_format_gate filepath : quiet (format_gate filepath).
Proof.
  unfold format_gate.
  destruct (negb _); [|now apply quiet_ret].
  destruct (Str.endswith _ _); [apply quiet_convert_png | repeat quiet_step].
Qed.

Lemma quiet_remove_original filepath original_filepath :
  quiet (remove_original filepath original_filepath).
Proof. unfold remove_original. repeat quiet_step. Qed.

#[local] Hint Resolve quiet_remove_original : quiet.

Lemma quiet_write_gps filepath original_filepath lat lon :
  quiet (write_gps filepath original_filepath lat lon).
Proof. unfold write_gps, quiet. repeat quiet_step. Qed.

Lemma quiet_set_gps_location filepath lat lon :
  quiet (set_gps_location filepath lat lon).
Proof.
  unfold set_gps_location.
  eapply (quiet_bind (fun _ => True)); [apply quiet_require_piexif | intros _ _].
  eapply (quiet_bind (fun _ => True)); [apply quiet_format_gate | intros gate _].
  destruct gate as [work|p]; [|now apply quiet_ret].
  apply quiet_try; [apply quiet_write_gps | intros e; repeat quiet_step].
Qed.

(** What the orchestrator does with a resolved pair: an entry and no
    closing line, or a closing line and no entry, or an exception and no
    closing line. *)
Lemma process_resolved_turn (filename filepath : string)
    (lat lon : option pyfloat) (data : list photo_data) (w : world) :
  let r := process_resolved filename filepath lat lon data w in
  exists l,
    printed (fst r) = (printed w ++ l)%list
    /\ match snd r with
       | Ok data' =>
           (closing_events l = 0%nat /\ exists rec, data' = (data ++ [rec])%list)
           \/ (closing_events l = 1%nat /\ data' = data)
       | Raise _ => closing_events l = 0%nat
       end.
Proof.
  assert (Hskip : let r := (print (Skipping filename) ;; ret data) w in
            exists l,
              printed (fst r) = (printed w ++ l)%list
              /\ match snd r with
                 | Ok data' =>
                     (closing_events l = 0%nat
                      /\ exists rec, data' = (data ++ [rec])%list)
                     \/ (closing_events l = 1%nat /\ data' = data)
                 | Raise _ => closing_events l = 0%nat
                 end).
  { exists [Skipping filename]. cbn. auto. }
  unfold process_resolved.
  destruct lat as [la|], lon as [lo|]; try exact Hskip.
  destruct (Float.truthy la && Float.truthy lo); [|exact Hskip].
  match goal with |- exists l, printed (fst (?m w)) = _ /\ _ =>
    assert (Hq : quiet_with (fun data' => exists rec, data' = (data ++ [rec])%list) m)
  end.
  { eapply (quiet_bind (fun _ => True)); [apply quiet_set_gps_location|].
    intros final_path _.
    eapply (quiet_bind (fun _ => True)); [apply quiet_os_dir_exists|].
    intros present _.
    eapply (quiet_bind (fun _ => True)).
    - destruct present; [|now apply quiet_ret].
      eapply (quiet_bind (fun _ => True)); [apply quiet_os_listdir|].
      intros names _. now apply quiet_ret.
    - intros shot _. apply quiet_ret. eexists. reflexivity. }
  destruct (Hq w) as (l & Hl & Hc & Hr).
  exists l. split; [exact Hl|].
  match goal with |- match snd ?r with _ => _ end => destruct (snd r) end; auto.
Qed.

(** One turn of the loop never raises: it ends with an entry added and no
    closing line, or with one closing line and no entry. *)
Lemma process_photo_turn (filename : string) (refs : list ref_entry)
    (data : list photo_data) (w : world) :
  let r := process_photo filename refs data w in
  exists l,
    printed (fst r) = (printed w ++ l)%list
    /\ ((closing_events l = 0%nat /\ exists rec, snd r = Ok (data ++ [rec])%list)
        \/ (closing_events l = 1%nat /\ snd r = Ok data)).
Proof.
  unfold process_photo, try_except, bind.
  destruct (quiet_find_closest filename refs w) as (l1 & Hl1 & Hc1 & _).
  destruct (find_closest_gps_in_reference filename refs w) as [w1 [ll|e]];
    cbn [fst snd] in *.
  - pose proof (process_resolved_turn filename (OsPath.join PHOTOS_DIR filename)
                  (fst ll) (snd ll) data w1) as Hturn.
    cbv zeta in Hturn. destruct Hturn as (l2 & Hl2 & Hr2).
    destruct (process_resolved filename _ (fst ll) (snd ll) data w1)
      as [w2 [data'|e]]; cbn [fst snd Exception] in *.
    + exists (l1 ++ l2)%list. rewrite Hl2, Hl1, app_assoc, closing_events_app, Hc1.
      split; [reflexivity|].
      destruct Hr2 as [[Hc [rec ->]]|[Hc ->]]; [left|right]; eauto.
    + exists (l1 ++ l2 ++ [ErrorProcessing filename e])%list.
      cbn [print fst snd printed with_printed ret].
      rewrite Hl2, Hl1, <- !app_assoc, !closing_events_app, Hc1, Hr2.
      split; [reflexivity|]. right. split; reflexivity.
  - exists (l1 ++ [ErrorProcessing filename e])%list.
    cbn [Exception print fst snd printed with_printed ret].
    rewrite Hl1, <- !app_assoc, !closing_events_app, Hc1.
    split; [reflexivity|]. right. split; reflexivity.
Qed.

(** A turn of the loop on a machine without piexif, for a photo that
    resolves to a coordinate: the writer warns and raises, the orchestrator
    catches the [ImportError], prints it and ends the turn without an
    entry. *)
Lemma process_photo_without_piexif (filename : string) (refs : list ref_entry)
    (data : list photo_data) (w : world) (lat lon : pyfloat) :
  piexif_installed w = false ->
  snd (find_closest_gps_in_reference filename refs w) = Ok (Some lat, Some lon) ->
  exists l,
    process_photo filename refs data w
    = (with_printed
         (printed w ++ l ++ [WarnPiexifMissing; ErrorProcessing filename ImportError])%list
         w,
       Ok data).
Proof.
  intros Hmissing Hres.
  destruct (find_closest_total filename refs w) as (l & r & Hrun & Htr & _).
  rewrite Hrun in Hres. cbn [snd] in Hres. injection Hres as ->.
  destruct (Htr lat lon eq_refl) as [Hlat Hlon].
  exists l.
  unfold process_photo, try_except, bind at 1. rewrite Hrun.
  unfold process_resolved. cbn [fst snd]. rewrite Hlat, Hlon. cbn [andb].
  unfold bind at 1. unfold set_gps_location, bind at 1.
  rewrite require_piexif_run. cbn [piexif_installed with_printed].
  rewrite Hmissing. cbn [Exception]. unfold bind, print, ret.
  cbn [printed with_printed files piexif_installed fault listing].
  now rewrite <- !app_assoc.
Qed.

(** C5, as the code has it.  The loop over the photos never ends in an
    exception, whatever fails while a photo is processed: for every
    listing, index and world it runs to its end and returns
    [new_photos_data], the entries it had with the new ones behind them, and
    every name with an image extension has had its turn, closed either by
    its entry or by one printed line (skipped, or the error that was
    caught).  Nothing in the loop stops it early.  The missing dependency of
    the writer is no exception to this: without piexif, the turn of a photo
    that resolves to a coordinate ends with the caught [ImportError] printed
    and [new_photos_data] as it was. *)
Theorem photo_loop_never_aborts :
  (forall (names : list string) (refs : list ref_entry)
          (data : list photo_data) (w : world),
      let r := photo_loop names refs data w in
      exists (added : list photo_data) (l : list msg),
        snd r = Ok (data ++ added)%list
        /\ printed (fst r) = (printed w ++ l)%list
        /\ (List.length added + closing_events l)%nat
           = List.length (List.filter is_image_name names))
  /\ (forall (filename : string) (refs : list ref_entry)
             (data : list photo_data) (w : world) (lat lon : pyfloat),
        piexif_installed w = false ->
        snd (find_closest_gps_in_reference filename refs w) = Ok (Some lat, Some lon) ->
        exists l,
          process_photo filename refs data w
          = (with_printed
               (printed w ++ l
                ++ [WarnPiexifMissing; ErrorProcessing filename ImportError])%list
               w,
             Ok data)).
Proof.
  split; [|exact process_photo_without_piexif].
  intros names refs.
  induction names as [|filename rest IH]; intros data w; cbn [photo_loop].
  - exists [], []. cbn. now rewrite !app_nil_r.
  - cbn [List.filter]. destruct (is_image_name filename).
    + unfold bind.
      pose proof (process_photo_turn filename refs data w) as Hturn.
      cbv zeta in Hturn. destruct Hturn as (l1 & Hl1 & Hturn).
      destruct (process_photo filename refs data w) as [w1 r1]; cbn [fst snd] in *.
      destruct Hturn as [[Hc [rec ->]]|[Hc ->]].
      * specialize (IH (data ++ [rec])%list w1). cbv zeta in IH.
        destruct IH as (added & l2 & Hr & Hl2 & Hcount).
        exists (rec :: added), (l1 ++ l2)%list.
        rewrite Hr, Hl2, Hl1, <- !app_assoc, closing_events_app, Hc.
        cbn [List.length app]. repeat split. lia.
      * specialize (IH data w1). cbv zeta in IH.
        destruct IH as (added & l2 & Hr & Hl2 & Hcount).
        exists added, (l1 ++ l2)%list.
        rewrite Hr, Hl2, Hl1, <- !app_assoc, closing_events_app, Hc.
        cbn [List.length]. repeat split. lia.
    + apply IH.
Qed.

Lemma photo_loop_never_aborts_witness :
  piexif_installed no_piexif_world = false
  /\ snd (find_closest_gps_in_reference "IMG_20220815_120100.jpg" trip_index
            no_piexif_world)
     = Ok (Some paris_lat, Some paris_lon)
  /\ (exists l,
        process_photo "IMG_20220815_120100.jpg" trip_index [] no_piexif_world
        = (with_printed
             (printed no_piexif_world ++ l
              ++ [WarnPiexifMissing;
                  ErrorProcessing "IMG_20220815_120100.jpg" ImportError])%list
             no_piexif_world,
           Ok []))
  /\ (exists added l,
        snd (photo_loop ["IMG_20220815_120000.png"; "notes.txt"] trip_index []
               trip_world) = Ok added
        /\ printed (fst (photo_loop ["IMG_20220815_120000.png"; "notes.txt"]
                           trip_index [] trip_world)) = l
        /\ (List.length added + closing_events l)%nat = 1%nat).
Proof.
  destruct photo_loop_never_aborts as [Hloop Hturn].
  split; [reflexivity|]. split; [reflexivity|]. split.
  - apply (Hturn "IMG_20220815_120100.jpg" trip_index [] no_piexif_world
             paris_lat paris_lon); reflexivity.
  - destruct (Hloop ["IMG_20220815_120000.png"; "notes.txt"] trip_index []
                trip_world) as (added & l & Hr & Hl & Hcount).
    exists added, l. repeat split; assumption.
Defined.

(** C5, as the specification words it, fails for the missing dependency:
    without piexif the writer raises its [ImportError] on the first photo,
    the orchestrator catches it, prints it and goes on with the second
    photo, where the same happens, and the loop returns. *)
Lemma missing_dependency_does_not_abort :
  snd (set_gps_location "photos/IMG_20220815_120000.png" paris_lat paris_lon
         no_piexif_world) = Raise ImportError
  /\ photo_loop ["IMG_20220815_120000.png"; "IMG_20220815_120100.jpg"]
       trip_index [] no_piexif_world
     = (with_printed
          [FoundClosest "IMG_20220815_121200.jpg" 720;
           WarnPiexifMissing;
           ErrorProcessing "IMG_20220815_120000.png" ImportError;
           FoundClosest "IMG_20220815_121200.jpg" 660;
           WarnPiexifMissing;
           ErrorProcessing "IMG_20220815_120100.jpg" ImportError]
          no_piexif_world,
        Ok [])
  /\ ~ missing_dependency_aborts.
Proof.
  split; [reflexivity|]. split; [vm_compute; reflexivity|].
  intros H.
  destruct (H no_piexif_world "IMG_20220815_120000.png"
              ["IMG_20220815_120100.jpg"] trip_index paris_lat paris_lon
              eq_refl eq_refl eq_refl) as [e He].
  vm_compute in He. discriminate He.
Qed.

(** * Further properties *)

(** ** Timestamp codec: the rest of the name, and the shift *)

Lemma append_assoc_string (a b c : string) :
  ((a ++ b) ++ c)%string = (a ++ b ++ c)%string.
Proof.
  induction a as [|x a IH]; [reflexivity|].
  change (String x ((a ++ b) ++ c) = String x (a ++ b ++ c))%string.
  now rewrite IH.
Qed.

Lemma prefix_app_long (p : string) : forall s t,
  (String.length p <= String.length s)%nat ->
  String.prefix p (s ++ t) = String.prefix p s.
Proof.
  induction p as [|a p IH]; intros [|c s] t H; simpl in *;
    try reflexivity; try lia.
  - now destruct t.
  - destruct (ascii_dec a c); [|reflexivity]. apply IH. lia.
Qed.

Lemma re_search_unfold (p : list atom) (s : string) :
  re_search p s =
  match match_prefix p s with
  | Some m => Some m
  | None => match s with EmptyString => None | String _ t => re_search p t end
  end.
Proof. destruct s; reflexivity. Qed.

Lemma match_prefix_app (p : list atom) (s m post : string) :
  match_prefix p s = Some m -> match_prefix p (s ++ post) = Some m.
Proof.
  rewrite !match_prefix_Some. intros [Hm [post0 ->]].
  split; [assumption|]. exists (post0 ++ post)%string. apply append_assoc_string.
Qed.

Lemma match_prefix_length (p : list atom) : forall s m,
  match_prefix p s = Some m -> (List.length p <= String.length s)%nat.
Proof.
  induction p as [|a p IH]; intros [|c t] m; simpl; try discriminate; try lia.
  destruct (atom_matches a c); [|discriminate].
  destruct (match_prefix p t) as [m'|] eqn:E; [|discriminate].
  intros _. apply IH in E. lia.
Qed.

(** A pattern of atoms has one length: where the text is long enough and
    the match fails, more text behind does not help. *)
Lemma match_prefix_app_None (p : list atom) : forall s post,
  (List.length p <= String.length s)%nat ->
  match_prefix p s = None -> match_prefix p (s ++ post) = None.
Proof.
  induction p as [|a p IH]; intros [|c t] post Hlen; simpl in *;
    try discriminate; try lia.
  destruct (atom_matches a c); [|reflexivity].
  destruct (match_prefix p t) as [m'|] eqn:E; [discriminate|].
  intros _. rewrite (IH t post); [reflexivity | lia | exact E].
Qed.

Lemma re_search_length (p : list atom) : forall s m,
  re_search p s = Some m -> (List.length p <= String.length s)%nat.
Proof.
  induction s as [|c t IH]; intros m; rewrite re_search_unfold.
  - destruct (match_prefix p EmptyString) as [m0|] eqn:E; [|discriminate].
    intros _. now apply match_prefix_length in E.
  - destruct (match_prefix p (String c t)) as [m0|] eqn:E.
    + intros _. now apply match_prefix_length in E.
    + intros H. apply IH in H. simpl. lia.
Qed.

(** The leftmost match stays the leftmost match when the text goes on. *)
Lemma re_search_app (p : list atom) : forall s m post,
  re_search p s = Some m -> re_search p (s ++ post) = Some m.
Proof.
  induction s as [|c t IH]; intros m post; rewrite re_search_unfold.
  - destruct (match_prefix p EmptyString) as [m0|] eqn:E; [|discriminate].
    intros [= <-]. rewrite re_search_unfold.
    now rewrite (match_prefix_app _ _ _ post E).
  - destruct (match_prefix p (String c t)) as [m0|] eqn:E.
    + intros [= <-]. rewrite re_search_unfold.
      now rewrite (match_prefix_app _ _ _ post E).
    + intros H. pose proof (re_search_length _ _ _ H) as Hlen.
      rewrite re_search_unfold.
      rewrite match_prefix_app_None; [|simpl; lia|exact E].
      simpl. now apply IH.
Qed.

(** The pattern is not anchored at its end: once a name holds a match,
    whatever is put behind the name (a counter, an extension, more digits)
    changes nothing in what [extract_timestamp] returns. *)
Theorem extract_timestamp_ignores_rest (filename post m : string) :
  re_search timestamp_pattern filename = Some m ->
  extract_timestamp (filename ++ post) = extract_timestamp filename.
Proof.
  intros H. unfold extract_timestamp.
  rewrite (re_search_app _ _ _ post H), H.
  assert (Hs : Str.startswith (filename ++ post) "SAMSUNG"
               = Str.startswith filename "SAMSUNG").
  { unfold Str.startswith. apply prefix_app_long.
    apply re_search_length in H. simpl in *. lia. }
  now rewrite Hs.
Qed.

Lemma extract_timestamp_ignores_rest_witness :
  extract_timestamp ("IMG_20220815_120000" ++ "7~2.jpg")
  = extract_timestamp "IMG_20220815_120000".
Proof.
  apply (extract_timestamp_ignores_rest "IMG_20220815_120000" "7~2.jpg"
           "20220815_120000").
  reflexivity.
Defined.

(** What [extract_timestamp] returns is the time written in the name,
    moved back by the shift of the name. *)
Lemma extract_timestamp_parsed (filename : string) (t : Datetime.datetime) :
  extract_timestamp filename = Ok (Some t) ->
  exists p, parsed_time filename = Some p
            /\ Datetime.timestamp t = Datetime.timestamp p - shift_of filename.
Proof.
  unfold extract_timestamp, parsed_time, shift_of.
  destruct (re_search timestamp_pattern filename) as [m|]; [|discriminate].
  destruct (groups m) as [[[[mo d] h] mi] s].
  unfold Datetime.make.
  destruct (Datetime.valid 2022 mo d h mi s) eqn:Hv; [|discriminate].
  destruct (Str.startswith filename "SAMSUNG").
  - rewrite (sub_nine_hours _ _ _ _ _ Hv). intros [= <-].
    eexists. split; [reflexivity|].
    now destruct (nine_hours_before_spec _ _ _ _ _ Hv) as [_ ->].
  - intros [= <-]. eexists. split; [reflexivity | lia].
Qed.

(** The time difference that the resolver computes between a target and a
    reference is the difference of the times written in the two names, off
    by the difference of their shifts: nothing when both names start with
    [SAMSUNG] or neither does, nine hours when one of them does. *)
Theorem delta_of_written_times (target name : string) (t tr : Datetime.datetime) :
  extract_timestamp target = Ok (Some t) ->
  extract_timestamp name = Ok (Some tr) ->
  exists p pr,
    parsed_time target = Some p /\ parsed_time name = Some pr
    /\ Datetime.abs_delta (Datetime.diff tr t)
       = Z.abs (Datetime.timestamp pr - Datetime.timestamp p
                - (shift_of name - shift_of target))
    /\ (Str.startswith target "SAMSUNG" = Str.startswith name "SAMSUNG" ->
        Datetime.abs_delta (Datetime.diff tr t)
        = Z.abs (Datetime.timestamp pr - Datetime.timestamp p)).
Proof.
  intros Ht Hr.
  destruct (extract_timestamp_parsed _ _ Ht) as (p & Hp & Htp).
  destruct (extract_timestamp_parsed _ _ Hr) as (pr & Hpr & Htr).
  exists p, pr. split; [exact Hp|]. split; [exact Hpr|].
  unfold Datetime.abs_delta, Datetime.diff. rewrite Htp, Htr. split.
  - f_equal. lia.
  - intros Hsame. unfold shift_of. rewrite Hsame. f_equal. lia.
Qed.

Lemma delta_of_written_times_witness :
  exists p pr,
    parsed_time "SAMSUNG_20220101_031500.jpg" = Some p
    /\ parsed_time "IMG_20220101_031500.jpg" = Some pr
    /\ Datetime.abs_delta
         (Datetime.diff (Datetime.mkDatetime 2022 1 1 3 15 0)
                        (Datetime.mkDatetime 2021 12 31 18 15 0))
       = Z.abs (Datetime.timestamp pr - Datetime.timestamp p
                - (shift_of "IMG_20220101_031500.jpg"
                   - shift_of "SAMSUNG_20220101_031500.jpg")).
Proof.
  destruct (delta_of_written_times "SAMSUNG_20220101_031500.jpg"
              "IMG_20220101_031500.jpg"
              (Datetime.mkDatetime 2021 12 31 18 15 0)
              (Datetime.mkDatetime 2022 1 1 3 15 0) eq_refl eq_refl)
    as (p & pr & Hp & Hpr & Hd & _).
  exists p, pr. auto.
Defined.

(** ** Coordinate codec: the cases of the decoder, and the two hemispheres *)

(** Indexing a tuple of fewer than three values raises; a longer one
    decodes. *)
Lemma get_decimal_from_dms_cases (dms : list rational) (ref : string) :
  ((List.length dms < 3)%nat /\ get_decimal_from_dms dms ref = Raise IndexError)
  \/ ((3 <= List.length dms)%nat /\ exists v, get_decimal_from_dms dms ref = Ok v).
Proof.
  unfold get_decimal_from_dms.
  destruct dms as [|d0 [|d1 [|d2 l]]]; cbn [nth_error List.length];
    try (left; split; [lia | reflexivity]).
  right. split; [lia|]. eexists. reflexivity.
Qed.

(** The decoder of the metadata has three ways out.  With the four GPS
    values there and truthy and both tuples of three values or more, it
    returns latitude and longitude, each decoded from its tuple and its
    reference letter.  With one of the four values missing or empty it
    returns [(None, None)].  With the four values there but a tuple of fewer
    than three values it raises [IndexError].  It never returns one
    coordinate without the other. *)
Theorem get_lat_lon_cases (exif : option gps_info) :
  match get_lat_lon exif with
  | Ok (Some lat, Some lon) =>
      exists g dlat rlat dlon rlon,
        exif = Some g /\ gps_complete g = true
        /\ GPSLatitude g = Some dlat /\ GPSLatitudeRef g = Some rlat
        /\ GPSLongitude g = Some dlon /\ GPSLongitudeRef g = Some rlon
        /\ get_decimal_from_dms dlat rlat = Ok lat
        /\ get_decimal_from_dms dlon rlon = Ok lon
  | Ok (None, None) => forall g, exif = Some g -> gps_complete g = false
  | Ok _ => False
  | Raise e =>
      e = IndexError
      /\ exists g dlat dlon,
           exif = Some g /\ gps_complete g = true
           /\ GPSLatitude g = Some dlat /\ GPSLongitude g = Some dlon
           /\ ((List.length dlat < 3)%nat \/ (List.length dlon < 3)%nat)
  end.
Proof.
  destruct exif as [g|]; [|cbn; discriminate].
  unfold get_lat_lon.
  destruct (gps_complete g) eqn:Hc; pose proof Hc as Hc'; unfold gps_complete in Hc'.
  2:{ destruct (GPSLatitude g) as [[|d l]|];
        [| destruct (GPSLatitudeRef g) as [[|c r]|];
           [| destruct (GPSLongitude g) as [[|d' l']|];
              [| destruct (GPSLongitudeRef g) as [[|c' r']|]; [|discriminate|] | ]
           | ] | ];
        intros g' [= <-]; exact Hc. }
  destruct (GPSLatitude g) as [[|d l]|] eqn:Hlat; try discriminate.
  destruct (GPSLatitudeRef g) as [[|c r]|] eqn:Hlatr; try discriminate.
  destruct (GPSLongitude g) as [[|d' l']|] eqn:Hlon; try discriminate.
  destruct (GPSLongitudeRef g) as [[|c' r']|] eqn:Hlonr; try discriminate.
  clear Hc'.
  destruct (get_decimal_from_dms_cases (d :: l) (String c r))
    as [[Hn ->]|[Hn [lat Hla]]].
  { split; [reflexivity|]. exists g, (d :: l), (d' :: l'). auto 6. }
  destruct (get_decimal_from_dms_cases (d' :: l') (String c' r'))
    as [[Hn' ->]|[Hn' [lon Hlo]]].
  { rewrite Hla. split; [reflexivity|]. exists g, (d :: l), (d' :: l'). auto 6. }
  rewrite Hla, Hlo.
  exists g, (d :: l), (String c r), (d' :: l'), (String c' r').
  repeat split; assumption.
Qed.

Lemma Qabs_opp_eq (x : Q) : Qabs (- x) = Qabs x.
Proof. destruct x as [n d]. unfold Qabs, Qopp. cbn [Qnum Qden]. now rewrite Z.abs_opp. Qed.

(** The degrees, minutes and seconds that the encoder makes of a finite
    value, whatever the sign. *)
Lemma to_deg_Fin (x : Q) (pos neg : string) :
  exists dms deg mn sec,
    dms = [(deg, 1); (mn, 1); (sec, 10000)]
    /\ (forall y, Qabs y = Qabs x ->
          to_deg (Fin y) [pos; neg]
          = Ok (dms, if Float.ltb0 (Fin y) then neg else pos)).
Proof.
  eexists. eexists. eexists. eexists. split; [reflexivity|].
  intros y Hy. unfold to_deg.
  destruct (Float.ltb0 (Fin y)); cbn [nth_error Float.abs]; rewrite Hy;
    cbn [Float.int Float.sub Float.mul Float.of_Z Float.lift2 Float.round];
    reflexivity.
Qed.

(** The two hemispheres mirror each other.  A positive value and its
    negative are encoded to the same degrees, minutes and seconds, with the
    first letter of the pair for the positive value and the second for the
    negative one; and the decoder gives back two values that differ in
    their sign alone. *)
Theorem to_deg_mirror (x : Q) (pos neg : string) :
  (0 < x)%Q ->
  is_south_or_west pos = false -> is_south_or_west neg = true ->
  exists dms y,
    to_deg (Fin x) [pos; neg] = Ok (dms, pos)
    /\ to_deg (Fin (- x)) [pos; neg] = Ok (dms, neg)
    /\ get_decimal_from_dms dms pos = Ok (Fin y)
    /\ get_decimal_from_dms dms neg = Ok (Fin (- y)).
Proof.
  intros Hx Hpos Hneg.
  destruct (to_deg_Fin x pos neg) as (dms & deg & mn & sec & Hdms & Henc).
  assert (Hp : Float.ltb0 (Fin x) = false).
  { cbn [Float.ltb0]. destruct (Qcompare_spec x 0) as [H|H|H]; try reflexivity.
    exfalso. apply (Qlt_irrefl x). now apply Qlt_trans with 0%Q. }
  assert (Hn : Float.ltb0 (Fin (- x)) = true).
  { cbn [Float.ltb0]. destruct (Qcompare_spec (- x) 0) as [H|H|H]; try reflexivity.
    - exfalso. lra.
    - exfalso. lra. }
  pose proof (Henc x eq_refl) as H1. rewrite Hp in H1.
  pose proof (Henc (- x)%Q (Qabs_opp_eq x)) as H2. rewrite Hn in H2.
  exists dms. subst dms.
  unfold get_decimal_from_dms. cbn [nth_error]. rewrite Hpos, Hneg.
  unfold ifd_value. cbn [Z.eqb].
  unfold Float.of_fraction, Float.add, Float.div. cbn [Float.lift2 Float.neg].
  eexists. repeat split; [exact H1 | exact H2].
Qed.

Lemma to_deg_mirror_witness :
  exists dms y,
    to_deg (Fin (7 # 2)) ["N"; "S"] = Ok (dms, "N")
    /\ to_deg (Fin (- (7 # 2))) ["N"; "S"] = Ok (dms, "S")
    /\ get_decimal_from_dms dms "N" = Ok (Fin y)
    /\ get_decimal_from_dms dms "S" = Ok (Fin (- y)).
Proof.
  apply (to_deg_mirror (7 # 2) "N" "S"); reflexivity.
Defined.

(** ** Reference index *)

Lemma call_extract_timestamp_run (filename : string) (w : world) :
  call_extract_timestamp filename w
  = (with_printed (printed w ++ extract_timestamp_prints filename)%list w,
     extract_timestamp filename).
Proof.
  unfold call_extract_timestamp, bind. rewrite print_all_run.
  unfold lift. now destruct (extract_timestamp filename).
Qed.

Lemma index_of_cons (directory filename : string) (names : list string) :
  index_of directory (filename :: names)
  = (match index_entry directory filename with
     | Some entry => [entry]
     | None => []
     end ++ index_of directory names)%list.
Proof. reflexivity. Qed.

(** The loop of the index appends the entries of the names, in order, and
    changes nothing but the printed lines. *)
Lemma index_files_run (directory : string) (names : list string) :
  forall (references : list ref_entry) (w : world),
  exists l,
    index_files directory names references w
    = (with_printed (printed w ++ l)%list w,
       Ok (references ++ index_of directory names)%list).
Proof.
  induction names as [|filename rest IH]; intros references w.
  - exists []. cbn. rewrite !app_nil_r. now rewrite with_printed_printed.
  - cbn [index_files]. rewrite index_of_cons. unfold index_entry.
    destruct (is_image_name filename).
    + unfold bind at 1. rewrite call_extract_timestamp_run.
      destruct (extract_timestamp_total filename) as [[t|] Ht]; rewrite Ht.
      * destruct (IH (references
                        ++ [mkRef t (OsPath.join directory filename) filename])%list
                     (with_printed
                        (printed w ++ extract_timestamp_prints filename)%list w))
          as [l Hl].
        exists (extract_timestamp_prints filename ++ l)%list.
        rewrite Hl. cbn [printed with_printed]. now rewrite <- !app_assoc.
      * destruct (IH references
                     (with_printed
                        (printed w ++ extract_timestamp_prints filename)%list w))
          as [l Hl].
        exists (extract_timestamp_prints filename ++ l)%list.
        rewrite Hl. cbn [printed with_printed app]. now rewrite <- !app_assoc.
    + destruct (IH references w) as [l Hl]. exists l. exact Hl.
Qed.

(** [get_reference_images], run. *)
Lemma get_reference_images_run (directory : string) (w : world) :
  exists l,
    get_reference_images directory w
    = (with_printed (printed w ++ l)%list w,
       match listing w directory with
       | None => Ok []
       | Some names =>
           if fault w OpListdir directory then Raise OSError
           else Ok (index_of directory names)
       end).
Proof.
  unfold get_reference_images, bind at 1, os_dir_exists.
  destruct (listing w directory) as [names|] eqn:Hl; cbn [negb].
  - unfold bind at 1, print. unfold bind at 1, os_listdir.
    cbn [fault listing with_printed]. rewrite Hl.
    destruct (fault w OpListdir directory).
    + now exists [IndexingImages directory].
    + destruct (index_files_run directory names []
                  (with_printed (printed w ++ [IndexingImages directory])%list w))
        as [l Hrun].
      exists ([IndexingImages directory] ++ l)%list.
      rewrite Hrun. cbn [printed with_printed app]. now rewrite <- !app_assoc.
  - now exists [WarnReferenceDirMissing directory].
Qed.



(** ** Closest-match resolver: exceptions, empty inputs, ties *)

(** The resolver never raises, whatever the index holds and whatever fails
    when a reference is read: every exception of the walk is caught inside
    it.  Its one effect is what it prints, and it returns both coordinates
    or neither. *)
Theorem find_closest_never_raises (target : string) (refs : list ref_entry)
    (w : world) :
  exists l r,
    find_closest_gps_in_reference target refs w
    = (with_printed (printed w ++ l)%list w, Ok r)
    /\ (r = (None, None) \/ exists lat lon, r = (Some lat, Some lon)).
Proof.
  destruct (extract_timestamp_total target) as [[t|] Ht].
  - destruct (find_closest_run target refs t w Ht) as [l Hl].
    exists l, (pair_of (first_usable w (walk_order t refs))).
    split; [exact Hl|].
    destruct (first_usable w (walk_order t refs)) as [[lat lon]|]; cbn [pair_of];
      eauto.
  - destruct (find_closest_no_time target refs w Ht) as [l Hl].
    exists l, (None, None). auto.
Qed.

(** Nothing to match: a target without a timestamp, or an empty index.
    The resolver returns [(None, None)] and ends with the line of its case;
    no reference is read on the way. *)
Theorem find_closest_nothing_to_match (target : string) (refs : list ref_entry)
    (w : world) :
  extract_timestamp target = Ok None \/ refs = [] ->
  find_closest_gps_in_reference target refs w
  = (with_printed
       (printed w ++ extract_timestamp_prints target
        ++ [match extract_timestamp target with
            | Ok (Some _) => NoCandidates
            | _ => WarnNoTargetTimestamp target
            end])%list w,
     Ok (None, None)).
Proof.
  intros H.
  unfold find_closest_gps_in_reference, bind at 1.
  rewrite call_extract_timestamp_run.
  destruct (extract_timestamp_total target) as [[t|] Ht]; rewrite Ht.
  - destruct H as [H | ->]; [congruence|].
    cbn [candidates_of map]. unfold bind, print, ret.
    cbn [printed with_printed]. now rewrite <- app_assoc.
  - unfold bind, print, ret. cbn [printed with_printed].
    now rewrite <- app_assoc.
Qed.

Lemma find_closest_nothing_to_match_witness :
  find_closest_gps_in_reference "holiday.jpg" trip_index trip_world
  = (with_printed
       [NoTimestampFound "holiday.jpg"; WarnNoTargetTimestamp "holiday.jpg"]
       trip_world,
     Ok (None, None))
  /\ find_closest_gps_in_reference "IMG_20220815_120000.png" [] trip_world
     = (with_printed [NoCandidates] trip_world, Ok (None, None)).
Proof.
  split.
  - apply (find_closest_nothing_to_match "holiday.jpg" trip_index trip_world).
    left. reflexivity.
  - apply (find_closest_nothing_to_match "IMG_20220815_120000.png" [] trip_world).
    right. reflexivity.
Defined.

(** A reference that cannot be read (the file is gone or is no image, its
    image class has no [_getexif], a tuple of its metadata is too short)
    does not end the walk: the exception is caught, one line is printed, and
    the walk goes on with the next candidate. *)
Theorem failing_candidate_skipped (delta : Z) (ref : ref_entry)
    (rest : list (Z * ref_entry)) (w : world) (e : exn) :
  gps_of w ref = Raise e ->
  scan_candidates ((delta, ref) :: rest) w
  = scan_candidates rest
      (with_printed
         (printed w ++ [ErrorProcessingReference (ref_filename ref) e])%list w).
Proof.
  intros He. cbn [scan_candidates]. unfold bind.
  now rewrite try_candidate_run, He.
Qed.

Lemma failing_candidate_skipped_witness :
  gps_of trip_world bmp_reference = Raise AttributeError
  /\ scan_candidates ((120, bmp_reference) :: walk_order noon trip_index) trip_world
     = scan_candidates (walk_order noon trip_index)
         (with_printed
            [ErrorProcessingReference "IMG_20220815_120200.bmp" AttributeError]
            trip_world).
Proof.
  split; [reflexivity|].
  apply (failing_candidate_skipped 120 bmp_reference (walk_order noon trip_index)
           trip_world AttributeError).
  reflexivity.
Defined.

(** Candidates without a usable coordinate in front of a list do not
    count. *)
Lemma first_usable_app_unusable (w : world) (a b : list (Z * ref_entry)) :
  (forall c, In c a -> usable_gps w (snd c) = None) ->
  first_usable w (a ++ b) = first_usable w b.
Proof.
  induction a as [|c a IH]; intros H; [reflexivity|].
  cbn [app first_usable]. rewrite (H c (or_introl eq_refl)).
  apply IH. intros c' Hc'. apply H. now right.
Qed.

(** In an ascending list where no usable candidate has a key below [k] and
    one has the key [k], the first usable candidate is found among the
    candidates of key [k]. *)
Lemma first_usable_filter (w : world) (k : Z) (cs : list (Z * ref_entry)) :
  StronglySorted (key_le fst) cs ->
  (forall c, In c cs -> usable_gps w (snd c) <> None -> k <= fst c) ->
  (exists c, In c cs /\ usable_gps w (snd c) <> None /\ fst c = k) ->
  first_usable w cs = first_usable w (List.filter (fun c => fst c =? k) cs).
Proof.
  induction cs as [|c cs IH]; intros Hs Hmin Hex; [reflexivity|].
  inversion Hs as [|? ? Hs' Hall]; subst.
  cbn [first_usable List.filter].
  destruct (usable_gps w (snd c)) as [ll|] eqn:Hu.
  - assert (Hk : fst c = k).
    { assert (k <= fst c) by (apply Hmin; [now left | congruence]).
      destruct Hex as (x & [<- | Hin] & _ & Hx); [exact Hx|].
      pose proof (proj1 (List.Forall_forall _ _) Hall x Hin) as Hle.
      unfold key_le in Hle. lia. }
    rewrite (proj2 (Z.eqb_eq _ _) Hk). cbn [first_usable]. now rewrite Hu.
  - assert (IH' : first_usable w cs
                  = first_usable w (List.filter (fun c => fst c =? k) cs)).
    { apply IH; [exact Hs' | |].
      - intros c' Hin. apply Hmin. now right.
      - destruct Hex as (x & [<- | Hin] & Hx & Hk); [congruence|].
        now exists x. }
    destruct (fst c =? k); [|exact IH'].
    cbn [first_usable]. now rewrite Hu.
Qed.

(** The winner of the resolver, in terms of the index.  An entry with a
    usable coordinate wins when no usable entry is closer in time to the
    target and no usable entry in front of it in the index is as close: the
    sort is stable, so that among the entries of one time difference the
    order of the index decides. *)
Theorem ties_go_to_index_order (target : string) (t : Datetime.datetime)
    (front behind : list ref_entry) (r : ref_entry) (lat lon : pyfloat)
    (w : world) :
  extract_timestamp target = Ok (Some t) ->
  usable_gps w r = Some (lat, lon) ->
  (forall r', In r' front -> usable_gps w r' <> None ->
              delta_to t r < delta_to t r') ->
  (forall r', In r' behind -> usable_gps w r' <> None ->
              delta_to t r <= delta_to t r') ->
  snd (find_closest_gps_in_reference target (front ++ r :: behind) w)
  = Ok (Some lat, Some lon).
Proof.
  intros Ht Hr Hfront Hbehind.
  destruct (find_closest_run target (front ++ r :: behind) t w Ht) as [l Hl].
  rewrite Hl. cbn [snd]. f_equal.
  set (k := delta_to t r).
  set (refs := (front ++ r :: behind)%list).
  assert (Hmin : forall c, In c (walk_order t refs) ->
                           usable_gps w (snd c) <> None -> k <= fst c).
  { intros c Hin Hu.
    apply (Permutation_in _ (sort_by_key_perm fst _)) in Hin.
    apply candidates_of_In in Hin. destruct Hin as (r' & Hin & ->).
    cbn [fst snd] in *. unfold refs in Hin.
    apply in_app_or in Hin. destruct Hin as [Hin | [<- | Hin]].
    - specialize (Hfront r' Hin Hu). unfold k. lia.
    - unfold k. lia.
    - now apply Hbehind. }
  assert (Hex : exists c, In c (walk_order t refs)
                          /\ usable_gps w (snd c) <> None /\ fst c = k).
  { exists (k, r). split; [|split; [cbn [snd]; congruence | reflexivity]].
    apply (Permutation_in _ (Permutation_sym (sort_by_key_perm fst _))).
    apply candidates_of_In. exists r. split; [|reflexivity].
    unfold refs. apply in_or_app. right. now left. }
  rewrite (first_usable_filter w k (walk_order t refs)
             (sort_by_key_sorted fst _) Hmin Hex).
  unfold walk_order. rewrite sort_by_key_stable.
  unfold refs, candidates_of. rewrite map_app, List.filter_app.
  rewrite first_usable_app_unusable.
  - cbn [map List.filter]. fold (delta_to t r). fold k.
    rewrite Z.eqb_refl. cbn [first_usable snd]. now rewrite Hr.
  - intros c Hin. apply List.filter_In in Hin. destruct Hin as [Hin Hk].
    apply in_map_iff in Hin. destruct Hin as (r' & <- & Hin).
    cbn [fst snd] in *. apply Z.eqb_eq in Hk.
    destruct (usable_gps w r') as [ll|] eqn:Hu; [|reflexivity].
    exfalso. assert (Hlt : delta_to t r < delta_to t r')
      by (apply Hfront; [exact Hin | congruence]).
    unfold delta_to in *. unfold k in Hk. unfold delta_to in Hk. lia.
Qed.

Lemma ties_go_to_index_order_witness :
  delta_to noon after_noon = 720 /\ delta_to noon before_noon = 720
  /\ (exists ll, usable_gps tie_world before_noon = Some ll)
  /\ snd (find_closest_gps_in_reference "IMG_20220815_120000.png"
            [after_noon; before_noon] tie_world)
     = Ok (Some paris_lat, Some paris_lon).
Proof.
  split; [reflexivity|]. split; [reflexivity|].
  split; [eexists; vm_compute; reflexivity|].
  apply (ties_go_to_index_order "IMG_20220815_120000.png" noon [] [before_noon]
           after_noon paris_lat paris_lon tie_world).
  - reflexivity.
  - vm_compute. reflexivity.
  - intros r' [].
  - intros r' [<- | []] _. vm_compute. discriminate.
Defined.

(** ** What a computation keeps *)

Section Keeps.
Context (R : world -> world -> Prop).
Hypothesis R_refl : forall w, R w w.
Hypothesis R_trans : forall a b c, R a b -> R b c -> R a c.

Lemma keeps_ret {A} (P : A -> Prop) (a : A) : P a -> keeps R P (ret a).
Proof. intros Ha w. cbn. auto. Qed.

Lemma keeps_raise {A} (P : A -> Prop) (e : exn) : keeps R P (raise e).
Proof. intros w. cbn. auto. Qed.

(** A computation that leaves the world as it is. *)
Lemma keeps_still {A} (P : A -> Prop) (m : M A) :
  (forall w, fst (m w) = w) ->
  (forall w a, snd (m w) = Ok a -> P a) ->
  keeps R P m.
Proof.
  intros Hw Ha w. rewrite Hw. split; [apply R_refl|].
  destruct (snd (m w)) eqn:E; [|exact I]. eapply Ha, E.
Qed.

Lemma keeps_weaken {A} (P Q : A -> Prop) (m : M A) :
  keeps R P m -> (forall a, P a -> Q a) -> keeps R Q m.
Proof.
  intros Hm HPQ w. destruct (Hm w) as [Hr Hp]. split; [exact Hr|].
  destruct (snd (m w)); auto.
Qed.

Lemma keeps_bind {A B} (Q : A -> Prop) (P : B -> Prop) (m : M A) (k : A -> M B) :
  keeps R Q m -> (forall a, Q a -> keeps R P (k a)) -> keeps R P (bind m k).
Proof.
  intros Hm Hk w. destruct (Hm w) as [Hr Hq]. unfold bind.
  destruct (m w) as [w1 [a|e]]; cbn [fst snd] in *.
  - destruct (Hk a Hq w1) as [Hr' Hp]. split; [|exact Hp].
    eapply R_trans; [exact Hr | exact Hr'].
  - auto.
Qed.

Lemma keeps_try {A} (P : A -> Prop) (m : M A) (catches : exn -> bool)
    (h : exn -> M A) :
  keeps R P m -> (forall e, keeps R P (h e)) -> keeps R P (try_except m catches h).
Proof.
  intros Hm Hh w. destruct (Hm w) as [Hr Hp]. unfold try_except.
  destruct (m w) as [w1 [a|e]]; cbn [fst snd] in *.
  - auto.
  - destruct (catches e); [|auto].
    destruct (Hh e w1) as [Hr' Hp']. split; [|exact Hp'].
    eapply R_trans; [exact Hr | exact Hr'].
Qed.

End Keeps.

(** ** Metadata writer: what it touches *)

Lemma touches_refl (S : list string) (w : world) : touches S w w.
Proof. repeat split. Qed.

Lemma touches_trans (S : list string) (a b c : world) :
  touches S a b -> touches S b c -> touches S a c.
Proof.
  intros [(H1 & H2 & H3) Hf] [(H1' & H2' & H3') Hf'].
  repeat split; try congruence.
  intros q Hq. now rewrite Hf', Hf.
Qed.

Lemma touches_printed (S : list string) (l : list msg) (w : world) :
  touches S w (with_printed l w).
Proof. repeat split. Qed.

Lemma touches_insert (S : list string) (p : string) (f : file) (w : world) :
  In p S -> touches S w (with_files (<[p := f]> (files w)) w).
Proof.
  intros Hp. repeat split. intros q Hq. cbn [files with_files].
  apply lookup_insert_ne. intros ->. contradiction.
Qed.

Lemma touches_delete (S : list string) (p : string) (w : world) :
  In p S -> touches S w (with_files (delete p (files w)) w).
Proof.
  intros Hp. repeat split. intros q Hq. cbn [files with_files].
  apply lookup_delete_ne. intros ->. contradiction.
Qed.

Section Touches.
Context (S : list string).

Lemma keeps_print (m : msg) : keeps (touches S) (fun _ => True) (print m).
Proof. intros w. split; [apply touches_printed | exact I]. Qed.

Lemma keeps_os_path_exists (p : string) :
  keeps (touches S) (fun _ => True) (os_path_exists p).
Proof. apply keeps_still; [apply touches_refl | reflexivity | auto]. Qed.

Lemma keeps_os_dir_exists (d : string) :
  keeps (touches S) (fun _ => True) (os_dir_exists d).
Proof. apply keeps_still; [apply touches_refl | reflexivity | auto]. Qed.

Lemma keeps_os_listdir (d : string) :
  keeps (touches S) (fun _ => True) (os_listdir d).
Proof.
  apply keeps_still; [apply touches_refl | | auto].
  intros w. unfold os_listdir.
  destruct (fault w OpListdir d); [reflexivity|].
  now destruct (listing w d).
Qed.

Lemma keeps_Image_open (p : string) :
  keeps (touches S) (fun _ => True) (Image_open p).
Proof.
  apply keeps_still; [apply touches_refl | | auto].
  intros w. now rewrite Image_open_run.
Qed.

Lemma keeps_piexif_load (p : string) :
  keeps (touches S) (fun _ => True) (piexif_load p).
Proof.
  apply keeps_still; [apply touches_refl | | auto].
  intros w. now rewrite piexif_load_run.
Qed.

Lemma keeps_piexif_dump (p : string) (g : gps_info) :
  keeps (touches S) (fun _ => True) (piexif_dump p g).
Proof.
  apply keeps_still; [apply touches_refl | | auto].
  intros w. now rewrite piexif_dump_run.
Qed.

Lemma keeps_import_piexif : keeps (touches S) (fun _ => True) import_piexif.
Proof.
  apply keeps_still; [apply touches_refl | | auto].
  intros w. unfold import_piexif. now destruct (piexif_installed w).
Qed.

Lemma keeps_lift_any {A} (o : outcome A) : keeps (touches S) (fun _ => True) (lift o).
Proof. apply keeps_still; [apply touches_refl | reflexivity | auto]. Qed.

Lemma keeps_os_remove (p : string) :
  In p S -> keeps (touches S) (fun _ => True) (os_remove p).
Proof.
  intros Hp w. unfold os_remove.
  destruct (fault w OpRemove p); [split; [apply touches_refl | exact I]|].
  destruct (files w !! p); (split; [|exact I]);
    [now apply touches_delete | apply touches_refl].
Qed.

Lemma keeps_Image_save_jpeg (img : file) (p : string) :
  In p S -> keeps (touches S) (fun _ => True) (Image_save_jpeg img p).
Proof.
  intros Hp w. unfold Image_save_jpeg.
  destruct (fault w OpSave p); (split; [|exact I]);
    [apply touches_refl | now apply touches_insert].
Qed.

Lemma keeps_piexif_insert (g : gps_info) (p : string) :
  In p S -> keeps (touches S) (fun _ => True) (piexif_insert g p).
Proof.
  intros Hp w. unfold piexif_insert.
  destruct (fault w OpInsert p); [split; [apply touches_refl | exact I]|].
  destruct (files w !! p) as [f|]; [|split; [apply touches_refl | exact I]].
  destruct (fmt f); try (split; [apply touches_refl | exact I]);
    destruct (fault w OpWrite p); (split; [|exact I]);
    now apply touches_insert.
Qed.

End Touches.

Create HintDb keeps.
#[local] Hint Resolve keeps_print keeps_os_path_exists keeps_os_dir_exists
  keeps_os_listdir keeps_Image_open keeps_piexif_load keeps_piexif_dump
  keeps_import_piexif keeps_lift_any keeps_os_remove keeps_Image_save_jpeg
  keeps_piexif_insert : keeps.

(** Taking a computation apart along its binds, branches and handlers, for
    the paths [S] it may touch. *)
Ltac touch_step S :=
  match goal with
  | |- keeps _ _ (bind _ _) =>
      eapply (keeps_bind (touches S) (touches_trans S) (fun _ => True));
      [|intros ? _]
  | |- keeps _ _ (try_except _ _ _) =>
      apply (keeps_try (touches S) (touches_trans S)); [|intros ?]
  | |- keeps _ _ (ret _) => apply (keeps_ret (touches S) (touches_refl S))
  | |- keeps _ _ (raise _) => apply (keeps_raise (touches S) (touches_refl S))
  | |- keeps _ _ (if ?b then _ else _) => destruct b
  | |- keeps _ (fun _ => True) _ => solve [eauto with keeps]
  | |- True => exact I
  end.

Lemma keeps_remove_original (S : list string) (filepath original_filepath : string) :
  In original_filepath S ->
  keeps (touches S) (fun _ => True) (remove_original filepath original_filepath).
Proof. intros Ho. unfold remove_original. repeat touch_step S. Qed.

Lemma keeps_write_gps (S : list string) (filepath original_filepath : string)
    (lat lon : pyfloat) :
  In filepath S -> In original_filepath S ->
  keeps (touches S) (fun p => p = filepath)
        (write_gps filepath original_filepath lat lon).
Proof.
  intros Hf Ho. unfold write_gps.
  pose proof (keeps_remove_original S filepath original_filepath Ho) as Hrem.
  repeat touch_step S. reflexivity.
Qed.

Lemma keeps_require_piexif (S : list string) :
  keeps (touches S) (fun _ => True) require_piexif.
Proof. unfold require_piexif. repeat touch_step S. Qed.

Lemma In_touched_by_self (filepath : string) : In filepath (touched_by filepath).
Proof. now left. Qed.

Lemma In_touched_by_converted (filepath : string) :
  Str.endswith (Str.lower filepath) ".png" = true ->
  In (converted_path filepath) (touched_by filepath).
Proof. intros H. unfold touched_by. rewrite H. right. now left. Qed.

(** The path that the format gate goes on with is one that the writer may
    touch and return. *)
Lemma keeps_format_gate (filepath : string) :
  keeps (touches (touched_by filepath))
        (fun gate => match gate with
                     | inl p => In p (touched_by filepath) /\ returned_for filepath p
                     | inr p => p = filepath
                     end)
        (format_gate filepath).
Proof.
  set (S := touched_by filepath).
  unfold format_gate.
  destruct (negb (Str.endswith_any (Str.lower filepath) tiff_family)).
  - destruct (Str.endswith (Str.lower filepath) ".png") eqn:Hpng.
    + pose proof (In_touched_by_converted filepath Hpng) as Hc.
      unfold convert_png. fold (converted_path filepath).
      apply (keeps_try (touches S) (touches_trans S)).
      * repeat touch_step S. split; [exact Hc|]. right. now split.
      * intros e. repeat touch_step S. reflexivity.
    + repeat touch_step S. reflexivity.
  - apply (keeps_ret (touches S) (touches_refl S)). split; [apply In_touched_by_self | now left].
Qed.

Lemma keeps_set_gps_location (filepath : string) (lat lon : pyfloat) :
  keeps (touches (touched_by filepath)) (returned_for filepath)
        (set_gps_location filepath lat lon).
Proof.
  set (S := touched_by filepath).
  unfold set_gps_location.
  eapply (keeps_bind (touches S) (touches_trans S) (fun _ => True));
    [apply keeps_require_piexif | intros _ _].
  eapply (keeps_bind (touches S) (touches_trans S));
    [apply keeps_format_gate | intros gate Hgate].
  destruct gate as [work|p].
  - destruct Hgate as [Hin Hret].
    apply (keeps_try (touches S) (touches_trans S)).
    + eapply keeps_weaken; [apply keeps_write_gps|].
      * exact Hin.
      * apply In_touched_by_self.
      * intros p ->. exact Hret.
    + intros e. repeat touch_step S. now left.
  - subst p. apply (keeps_ret (touches S) (touches_refl S)). now left.
Qed.

(** The format gate lets a name of the TIFF family through as it is. *)
Lemma format_gate_tiff (filepath : string) (w : world) :
  Str.endswith_any (Str.lower filepath) tiff_family = true ->
  format_gate filepath w = (w, Ok (inl filepath)).
Proof. intros H. unfold format_gate. now rewrite H. Qed.

(** The body of the last [try] that succeeds has inserted into JPEG or WebP
    data. *)
Lemma write_gps_Ok_insertable (filepath original_filepath : string)
    (lat lon : pyfloat) (w w' : world) (p : string) :
  write_gps filepath original_filepath lat lon w = (w', Ok p) ->
  insertable w filepath.
Proof.
  rewrite write_gps_run.
  destruct (snd (piexif_load filepath w)) as [g|e0]; [|discriminate].
  destruct (to_deg lat ["N"; "S"]) as [lat_dms|e0]; [|discriminate].
  destruct (to_deg lon ["E"; "W"]) as [lon_dms|e0]; [|discriminate].
  cbv zeta.
  destruct (snd (piexif_dump filepath _ w)) as [bytes|e0]; [|discriminate].
  destruct (piexif_insert bytes filepath w) as [w1 [[]|e0]] eqn:Hins;
    [|discriminate].
  intros _. destruct (piexif_insert_Ok _ _ _ _ Hins) as (f & Hf & Hfmt & _).
  now exists f.
Qed.

(** A blocked write raises and leaves the world as it is. *)
Lemma write_gps_blocked (filepath original_filepath : string)
    (lat lon : pyfloat) (w : world) :
  write_blocked w filepath lat lon ->
  exists e, write_gps filepath original_filepath lat lon w = (w, Raise e).
Proof.
  rewrite write_gps_run.
  intros [-> | [-> | [Hl | [Hd | Hi]]]].
  - destruct (snd (piexif_load filepath w)); eexists; reflexivity.
  - destruct (snd (piexif_load filepath w)); [|eexists; reflexivity].
    destruct (to_deg lat ["N"; "S"]); eexists; reflexivity.
  - unfold piexif_load at 1. rewrite Hl. eexists; reflexivity.
  - destruct (snd (piexif_load filepath w)); [|eexists; reflexivity].
    destruct (to_deg lat ["N"; "S"]); [|eexists; reflexivity].
    destruct (to_deg lon ["E"; "W"]); [|eexists; reflexivity].
    cbv zeta. unfold piexif_dump at 1. rewrite Hd. eexists; reflexivity.
  - destruct (snd (piexif_load filepath w)); [|eexists; reflexivity].
    destruct (to_deg lat ["N"; "S"]); [|eexists; reflexivity].
    destruct (to_deg lon ["E"; "W"]); [|eexists; reflexivity].
    cbv zeta. destruct (snd (piexif_dump filepath _ w)); [|eexists; reflexivity].
    unfold piexif_insert at 1. rewrite Hi. eexists; reflexivity.
Qed.

(** With piexif installed the writer returns a path that goes with the
    path it was given. *)
Lemma set_gps_location_total (filepath : string) (lat lon : pyfloat) (w : world) :
  piexif_installed w = true ->
  exists p, snd (set_gps_location filepath lat lon w) = Ok p
            /\ returned_for filepath p.
Proof.
  intros Hinst.
  destruct (keeps_set_gps_location filepath lat lon w) as [_ Hpost].
  rewrite (set_gps_location_run _ _ _ _ Hinst) in *.
  destruct (format_gate_total filepath w) as (w1 & gate & Hgate).
  rewrite Hgate in *. destruct gate as [work|p].
  - destruct (write_gps work filepath lat lon w1) as [w2 [p|e]];
      cbn [snd] in *; eauto.
  - cbn [snd] in *. eauto.
Qed.

(** With piexif installed, [set_gps_location] never raises: whatever the
    file is and whatever fails on the way, it returns a path, and the path is
    the one it was given or, for a PNG name only, the path of the converted
    copy.  What was printed before the call is still there, with the lines
    of the call behind it. *)
Theorem set_gps_location_returns (filepath : string) (lat lon : pyfloat)
    (w : world) :
  piexif_installed w = true ->
  exists p l,
    snd (set_gps_location filepath lat lon w) = Ok p
    /\ returned_for filepath p
    /\ printed (fst (set_gps_location filepath lat lon w)) = (printed w ++ l)%list.
Proof.
  intros Hinst.
  destruct (set_gps_location_total filepath lat lon w Hinst) as (p & Hp & Hret).
  destruct (quiet_set_gps_location filepath lat lon w) as (l & Hl & _).
  exists p, l. auto.
Qed.

Lemma set_gps_location_returns_witness :
  exists p l,
    snd (set_gps_location "photos/IMG_20220815_120200.bmp" paris_lat paris_lon
           trip_world) = Ok p
    /\ returned_for "photos/IMG_20220815_120200.bmp" p
    /\ printed (fst (set_gps_location "photos/IMG_20220815_120200.bmp" paris_lat
                       paris_lon trip_world))
       = (printed trip_world ++ l)%list.
Proof.
  apply (set_gps_location_returns "photos/IMG_20220815_120200.bmp" paris_lat
           paris_lon trip_world).
  reflexivity.
Defined.



(** A JPEG file under a name of the TIFF family is written in place.  When
    nothing fails, [set_gps_location] with a coordinate in range returns the
    path it was given; the file at that path keeps its picture and every GPS
    tag other than the four that are set; its metadata decodes to the given
    latitude and longitude within the rounding tolerance; no other file
    changes and nothing is removed. *)
Theorem jpeg_write_in_place (filepath : string) (a b : Q) (w : world) (f : file) :
  piexif_installed w = true ->
  Str.endswith_any (Str.lower filepath) tiff_family = true ->
  files w !! filepath = Some f -> fmt f = JPEG ->
  fault w OpLoad filepath = false -> fault w OpDump filepath = false ->
  fault w OpInsert filepath = false -> fault w OpWrite filepath = false ->
  (Qabs a <= 90)%Q -> (Qabs b <= 180)%Q ->
  exists g a' b',
    set_gps_location filepath (Fin a) (Fin b) w
    = (with_printed (printed w ++ [SavedGps filepath])%list
         (with_files (<[filepath := mkFile JPEG (Some g) (body f)]> (files w)) w),
       Ok filepath)
    /\ gps_rest g = gps_rest (match gps f with Some g0 => g0 | None => empty_gps end)
    /\ decode_file (mkFile JPEG (Some g) (body f)) = Ok (Some (Fin a'), Some (Fin b'))
    /\ within_tolerance a' a /\ within_tolerance b' b.
Proof.
  intros Hinst Htiff Hf Hfmt Hload Hdump Hins Hwr Ha Hb.
  assert (Ha' : (Qabs a <= 180)%Q) by lra.
  rewrite (set_gps_location_run _ _ _ _ Hinst), (format_gate_tiff _ _ Htiff).
  rewrite write_gps_run.
  set (g0 := match gps f with Some g0 => g0 | None => empty_gps end).
  assert (Hl : snd (piexif_load filepath w) = Ok g0).
  { unfold piexif_load. now rewrite Hload, Hf, Hfmt. }
  rewrite Hl.
  destruct (to_deg_get_decimal a "N" "S" Ha' eq_refl eq_refl)
    as (dms1 & ref1 & a' & Ha1 & Ha2 & Ha3 & d1 & m1 & s1 & Hs1 & Hr1 & Hd1 & Hm1 & Hsec1).
  destruct (to_deg_get_decimal b "E" "W" Hb eq_refl eq_refl)
    as (dms2 & ref2 & b' & Hb1 & Hb2 & Hb3 & d2 & m2 & s2 & Hs2 & Hr2 & Hd2 & Hm2 & Hsec2).
  rewrite Ha1, Hb1. cbv zeta. cbn [fst snd].
  set (g := set_gps_fields g0 ref1 dms1 ref2 dms2).
  assert (Hd : snd (piexif_dump filepath g w) = Ok g).
  { unfold piexif_dump. rewrite Hdump.
    replace (packable_tuple _ && packable_tuple _) with true; [reflexivity|].
    symmetry. unfold g. rewrite Hs1, Hs2.
    cbn [set_gps_fields GPSLatitude GPSLongitude packable_tuple forallb packable].
    rewrite !andb_true_iff, !Z.leb_le, !Z.ltb_lt.
    change (2 ^ 32) with 4294967296. lia. }
  rewrite Hd. unfold piexif_insert. rewrite Hins, Hf, Hfmt, Hwr.
  rewrite remove_original_run, String.eqb_refl.
  cbn [fst printed with_files with_printed].
  exists g, a', b'. split; [reflexivity|]. split; [reflexivity|].
  split; [|split; assumption].
  unfold decode_file, get_exif_data, getexif. cbn [fmt gps].
  unfold get_lat_lon, g, set_gps_fields.
  cbn [GPSLatitude GPSLatitudeRef GPSLongitude GPSLongitudeRef].
  rewrite Hs1, Hs2 in *.
  destruct Hr1 as [-> | ->], Hr2 as [-> | ->]; cbv beta iota;
    unfold rational in *; now rewrite Ha2, Hb2.
Qed.

Lemma jpeg_write_in_place_witness :
  exists g a' b',
    set_gps_location "photos/IMG_20220815_120100.jpg" paris_lat paris_lon trip_world
    = (with_printed [SavedGps "photos/IMG_20220815_120100.jpg"]
         (with_files
            (<["photos/IMG_20220815_120100.jpg" := mkFile JPEG (Some g) (Original 5)]>
               (files trip_world)) trip_world),
       Ok "photos/IMG_20220815_120100.jpg")
    /\ gps_rest g = 0
    /\ decode_file (mkFile JPEG (Some g) (Original 5)) = Ok (Some (Fin a'), Some (Fin b'))
    /\ within_tolerance a' paris_lat_q /\ within_tolerance b' paris_lon_q.
Proof.
  apply (jpeg_write_in_place "photos/IMG_20220815_120100.jpg" paris_lat_q
           paris_lon_q trip_world (mkFile JPEG None (Original 5)));
    try reflexivity.
  - apply paris_lat_range.
  - apply paris_lon_range.
Defined.

(** A file that cannot take the metadata is never changed.  Under a name of
    the TIFF family, when the file is missing or holds anything but JPEG or
    WebP data (TIFF data, for one), [set_gps_location] returns the path it
    was given and every file is as before: the insertion of piexif takes
    JPEG and WebP data only. *)
Theorem uninsertable_file_untouched (filepath : string) (lat lon : pyfloat)
    (w : world) :
  piexif_installed w = true ->
  Str.endswith_any (Str.lower filepath) tiff_family = true ->
  ~ insertable w filepath ->
  let r := set_gps_location filepath lat lon w in
  snd r = Ok filepath /\ files (fst r) = files w.
Proof.
  intros Hinst Htiff Hno r. unfold r.
  rewrite (set_gps_location_run _ _ _ _ Hinst), (format_gate_tiff _ _ Htiff).
  destruct (write_gps filepath filepath lat lon w) as [w2 [p|e]] eqn:Hw.
  - exfalso. apply Hno. eapply write_gps_Ok_insertable, Hw.
  - destruct (write_gps_raise _ _ _ _ _ _ _ Hw)
      as [[-> _] | ((_ & _ & _ & f & _ & _ & _ & _ & _ & Hf & Hfmt) & _)].
    + split; reflexivity.
    + exfalso. apply Hno. now exists f.
Qed.

Lemma uninsertable_file_untouched_witness :
  let r := set_gps_location "photos/IMG_20220815_120300.tiff" paris_lat paris_lon
             scan_world in
  snd r = Ok "photos/IMG_20220815_120300.tiff" /\ files (fst r) = files scan_world.
Proof.
  apply (uninsertable_file_untouched "photos/IMG_20220815_120300.tiff" paris_lat
           paris_lon scan_world).
  - reflexivity.
  - reflexivity.
  - intros (f & Hf & Hfmt). vm_compute in Hf. injection Hf as <-.
    destruct Hfmt; discriminate.
Defined.

(** A write that is blocked before the file is written changes nothing.
    Under a name of the TIFF family, a coordinate that is not a number (its
    conversion raises [ValueError]) or a fault of the load, of the dump or of
    the insertion before its write ends the call with the error printed, the
    given path returned and every file as before. *)
Theorem blocked_write_changes_nothing (filepath : string) (lat lon : pyfloat)
    (w : world) :
  piexif_installed w = true ->
  Str.endswith_any (Str.lower filepath) tiff_family = true ->
  write_blocked w filepath lat lon ->
  exists e,
    set_gps_location filepath lat lon w
    = (with_printed (printed w ++ [ErrorSavingGps filepath e])%list w, Ok filepath).
Proof.
  intros Hinst Htiff Hblocked.
  rewrite (set_gps_location_run _ _ _ _ Hinst), (format_gate_tiff _ _ Htiff).
  destruct (write_gps_blocked filepath filepath lat lon w Hblocked) as [e ->].
  now exists e.
Qed.

Lemma blocked_write_changes_nothing_witness :
  exists e,
    set_gps_location "photos/IMG_20220815_120100.jpg" NaN paris_lon trip_world
    = (with_printed [ErrorSavingGps "photos/IMG_20220815_120100.jpg" e] trip_world,
       Ok "photos/IMG_20220815_120100.jpg").
Proof.
  apply (blocked_write_changes_nothing "photos/IMG_20220815_120100.jpg" NaN
           paris_lon trip_world).
  - reflexivity.
  - reflexivity.
  - left. reflexivity.
Defined.

(** After the conversion of a PNG file, a write that is blocked leaves the
    converted copy behind.  [set_gps_location] returns the path of the PNG
    file, which is as it was; the JPEG copy made by the conversion stays at
    its path, without a coordinate, in place of whatever was there. *)
Theorem blocked_write_leaves_copy (filepath : string) (lat lon : pyfloat)
    (w : world) (orig : file) :
  piexif_installed w = true ->
  Str.endswith (Str.lower filepath) ".png" = true ->
  opened w filepath = Ok orig ->
  fault w OpSave (converted_path filepath) = false ->
  write_blocked w (converted_path filepath) lat lon ->
  let r := set_gps_location filepath lat lon w in
  snd r = Ok filepath
  /\ files (fst r)
     = <[converted_path filepath := mkFile JPEG None (ConvertedRGB (body orig))]>
         (files w)
  /\ files (fst r) !! filepath = Some orig.
Proof.
  intros Hinst Hpng Hopen Hsave Hblocked r. unfold r.
  pose proof (png_not_tiff_family _ Hpng) as Htiff.
  pose proof (converted_path_differs _ Htiff) as Hdiff.
  fold (converted_path filepath) in Hdiff.
  destruct (opened_Ok _ _ _ Hopen) as [Horig _].
  rewrite (set_gps_location_run _ _ _ _ Hinst).
  unfold format_gate. rewrite Htiff, Hpng. cbn [negb].
  rewrite convert_png_run, Hopen, Hsave.
  set (new := converted_path filepath) in *.
  set (w1 := with_files _ _).
  assert (Hb1 : write_blocked w1 new lat lon) by exact Hblocked.
  destruct (write_gps_blocked new filepath lat lon w1 Hb1) as [e ->].
  cbn [fst snd files with_files with_printed]. unfold w1. cbn [files with_files].
  split; [reflexivity|]. split; [reflexivity|].
  now rewrite lookup_insert_ne.
Qed.

Lemma blocked_write_leaves_copy_witness :
  let r := set_gps_location "photos/IMG_20220815_120000.png" paris_lat paris_lon
             half_done_world in
  snd r = Ok "photos/IMG_20220815_120000.png"
  /\ files (fst r)
     = <[converted_path "photos/IMG_20220815_120000.png"
         := mkFile JPEG None (ConvertedRGB (Original 4))]> (files half_done_world)
  /\ files (fst r) !! "photos/IMG_20220815_120000.png"
     = Some (mkFile PNG None (Original 4)).
Proof.
  apply (blocked_write_leaves_copy "photos/IMG_20220815_120000.png" paris_lat
           paris_lon half_done_world (mkFile PNG None (Original 4))).
  - reflexivity.
  - reflexivity.
  - reflexivity.
  - reflexivity.
  - right. right. left. reflexivity.
Defined.

(** ** Batch orchestrator: the screenshot, the entries, the run *)

(** The search of the screenshot directory stops at the first name that
    goes with the title: a name that is not hidden and whose base name,
    letter case aside, is the base name of the title, whatever its
    extension.  Every name in front of it does not go with the title; when
    none does, there is no screenshot. *)
Theorem find_screenshot_first (target_base : string) (names : list string) :
  match find_screenshot target_base names with
  | Some p =>
      exists before f after,
        names = (before ++ f :: after)%list
        /\ p = (screenshot_dir ++ "/" ++ f)%string
        /\ screenshot_match target_base f = true
        /\ forall g, In g before -> screenshot_match target_base g = false
  | None => forall g, In g names -> screenshot_match target_base g = false
  end.
Proof.
  induction names as [|f rest IH]; cbn [find_screenshot].
  - intros g [].
  - assert (Hm : screenshot_match target_base f
                 = if Str.startswith f "." then false
                   else String.eqb (Str.lower (fst (OsPath.splitext f))) target_base).
    { unfold screenshot_match. now destruct (Str.startswith f "."). }
    destruct (Str.startswith f ".").
    + destruct (find_screenshot target_base rest) as [p|].
      * destruct IH as (before & f' & after & -> & Hp & Hf' & Hb).
        exists (f :: before), f', after. repeat split; try assumption.
        intros g [<- | Hg]; [exact Hm | now apply Hb].
      * intros g [<- | Hg]; [exact Hm | now apply IH].
    + destruct (String.eqb (Str.lower (fst (OsPath.splitext f))) target_base).
      * exists [], f, rest. repeat split; [exact Hm|]. intros g [].
      * destruct (find_screenshot target_base rest) as [p|].
        -- destruct IH as (before & f' & after & -> & Hp & Hf' & Hb).
           exists (f :: before), f', after. repeat split; try assumption.
           intros g [<- | Hg]; [exact Hm | now apply Hb].
        -- intros g [<- | Hg]; [exact Hm | now apply IH].
Qed.

(** Forgetting what a computation does to the world. *)
Lemma keeps_any (R : world -> world -> Prop) {A} (P : A -> Prop) (m : M A) :
  keeps R P m -> keeps (fun _ _ => True) P m.
Proof. intros Hm w. destruct (Hm w) as [_ Hp]. now split. Qed.



(** What a turn of the loop makes of [new_photos_data]: nothing, or one
    entry for the name. *)
Lemma process_resolved_entry (filename : string) (lat lon : option pyfloat)
    (data : list photo_data) :
  keeps (fun _ _ => True)
        (fun data' => data' = data
                      \/ exists rec, data' = (data ++ [rec])%list
                                     /\ entry_of filename rec)
        (process_resolved filename (OsPath.join PHOTOS_DIR filename) lat lon data).
Proof.
  set (R := fun _ _ : world => True).
  assert (Rrefl : forall w, R w w) by (intros; exact I).
  assert (Rtrans : forall a b c, R a b -> R b c -> R a c) by (intros; exact I).
  assert (Hskip : keeps R
            (fun data' => data' = data
                          \/ exists rec, data' = (data ++ [rec])%list
                                         /\ entry_of filename rec)
            (print (Skipping filename) ;; ret data)).
  { intros w. split; [exact I | now left]. }
  unfold process_resolved.
  destruct lat as [la|], lon as [lo|]; try exact Hskip.
  destruct (Float.truthy la && Float.truthy lo) eqn:Htr; [|exact Hskip].
  apply andb_true_iff in Htr. destruct Htr as [Hla Hlo].
  eapply (keeps_bind R Rtrans (returned_for (OsPath.join PHOTOS_DIR filename))).
  { eapply keeps_any, keeps_set_gps_location. }
  intros final_path Hret.
  eapply (keeps_bind R Rtrans (fun _ => True)).
  { intros w. now split. }
  intros present _.
  eapply (keeps_bind R Rtrans (fun _ => True)).
  { intros w. split; [exact I|].
    now destruct (snd ((if present
                        then names <- os_listdir screenshot_dir ;;
                             ret (find_screenshot
                                    (Str.lower
                                       (fst (OsPath.splitext
                                               (OsPath.basename final_path))))
                                    names)
                        else ret None) w)). }
  intros shot _. apply (keeps_ret R Rrefl). right. eexists. split; [reflexivity|].
  unfold entry_of. cbn [photo_lat photo_lon photo_img photo_title].
  repeat split; try assumption.
  destruct Hret as [-> | [_ ->]]; [now left | now right].
Qed.

Lemma process_photo_entry (filename : string) (refs : list ref_entry)
    (data : list photo_data) (w : world) :
  snd (process_photo filename refs data w) = Ok data
  \/ exists rec, snd (process_photo filename refs data w) = Ok (data ++ [rec])%list
                 /\ entry_of filename rec.
Proof.
  pose proof (process_photo_turn filename refs data w) as Hturn.
  cbv zeta in Hturn. destruct Hturn as (l & _ & Hturn).
  assert (Hpost : match snd (process_photo filename refs data w) with
                  | Ok data' => data' = data
                                \/ exists rec, data' = (data ++ [rec])%list
                                               /\ entry_of filename rec
                  | Raise _ => True
                  end).
  { unfold process_photo, try_except, bind.
    destruct (find_closest_gps_in_reference filename refs w) as [w1 [ll|e]].
    - destruct (process_resolved_entry filename (fst ll) (snd ll) data w1)
        as [_ Hp].
      destruct (process_resolved filename _ (fst ll) (snd ll) data w1)
        as [w2 [data'|e]]; cbn [fst snd Exception] in *; [exact Hp | now left].
    - cbn. now left. }
  destruct Hturn as [[_ [rec Hr]] | [_ Hr]]; rewrite Hr in *.
  - destruct Hpost as [Hp | (rec' & Hp & He)].
    + left. now rewrite Hp.
    + right. exists rec'. rewrite Hp. auto.
  - now left.
Qed.

(** The entries that the loop adds go with the names of the listing. *)
Lemma photo_loop_entries (names : list string) (refs : list ref_entry) :
  forall (data : list photo_data) (w : world),
  exists added,
    snd (photo_loop names refs data w) = Ok (data ++ added)%list
    /\ entries_of names added.
Proof.
  induction names as [|filename rest IH]; intros data w; cbn [photo_loop].
  - exists []. cbn. rewrite app_nil_r. split; [reflexivity | constructor].
  - destruct (is_image_name filename) eqn:Himg.
    + unfold bind.
      pose proof (process_photo_entry filename refs data w) as Hentry.
      destruct (process_photo filename refs data w) as [w1 o]; cbn [snd] in *.
      destruct Hentry as [-> | (rec & -> & Hrec)].
      * destruct (IH data w1) as (added & Hr & He).
        exists added. split; [exact Hr | now constructor].
      * destruct (IH (data ++ [rec])%list w1) as (added & Hr & He).
        exists (rec :: added). rewrite Hr, <- app_assoc.
        split; [reflexivity | now constructor].
    + destruct (IH data w) as (added & Hr & He).
      exists added. split; [exact Hr | now constructor].
Qed.

(** The run of [main] up to the end of its loop.  A reference directory
    that is there but cannot be listed ends the run in an [OSError], and so
    does a photo directory that cannot be listed; without a photo directory
    the run ends early; in these three cases no file has changed.  Otherwise
    the run comes to the end of the loop, whatever happens to the single
    photos, with [new_photos_data] holding entries that go with names of the
    listing that have an image extension, in the order of the listing, at
    most one for each: both coordinates of an entry pass [if lat and lon],
    its title is the base name of the photo or of its converted copy, and
    its image path is the title under [PHOTOS_DIR]. *)
Theorem main_outcome (all_pictures_dir : string) (w : world) :
  let r := main all_pictures_dir w in
  let unlisted d :=
    match listing w d with Some _ => fault w OpListdir d | None => false end in
  if unlisted all_pictures_dir then
    snd r = Raise OSError /\ files (fst r) = files w
  else
    match listing w PHOTOS_DIR with
    | None => snd r = Ok None /\ files (fst r) = files w
    | Some names =>
        if fault w OpListdir PHOTOS_DIR then
          snd r = Raise OSError /\ files (fst r) = files w
        else exists data, snd r = Ok (Some data) /\ entries_of names data
    end.
Proof.
  intros r unlisted. unfold r, unlisted. clear r unlisted.
  destruct (get_reference_images_run all_pictures_dir w) as [l Hidx].
  unfold main, bind. rewrite Hidx.
  set (w1 := with_printed (printed w ++ l)%list w).
  unfold os_dir_exists, os_listdir, print, ret.
  assert (Hloop : forall refs names,
            exists data,
              snd (let (w', o) := photo_loop names refs [] w1 in
                   match o with
                   | Ok a => (w', Ok (Some a))
                   | Raise e => (w', Raise e)
                   end) = Ok (Some data)
              /\ entries_of names data).
  { intros refs names.
    destruct (photo_loop_entries names refs [] w1) as (added & Hr & He).
    destruct (photo_loop names refs [] w1) as [w2 o]. cbn [snd] in *. subst o.
    exists added. now split. }
  assert (Hf : fault w1 = fault w) by reflexivity.
  assert (Hl : listing w1 = listing w) by reflexivity.
  assert (Hfi : files w1 = files w) by reflexivity.
  clearbody w1.
  destruct (listing w all_pictures_dir) as [refnames|];
    [destruct (fault w OpListdir all_pictures_dir);
     [split; [reflexivity | exact Hfi]|]|];
    cbv beta iota; rewrite ?Hl;
    (destruct (listing w PHOTOS_DIR) as [names|] eqn:Hls; cbn [negb];
     cbv beta iota; [|split; [reflexivity | exact Hfi]]);
    rewrite ?Hf, ?Hl, ?Hls;
    (destruct (fault w OpListdir PHOTOS_DIR); cbv beta iota;
     [split; [reflexivity | exact Hfi]|]);
    apply Hloop.
Qed.

(** ** The page *)

Lemma find_here_unfold (sub s : string) :
  find_here sub s =
  if String.prefix sub s then Some O
  else match s with
       | EmptyString => None
       | String _ t => option_map S (find_here sub t)
       end.
Proof. destruct s; reflexivity. Qed.

Lemma contains_unfold (sub s : string) :
  contains sub s =
  String.prefix sub s
  || match s with
     | EmptyString => false
     | String _ t => contains sub t
     end.
Proof. destruct s; reflexivity. Qed.

Lemma prefix_app_self (p rest : string) : String.prefix p (p ++ rest) = true.
Proof.
  induction p as [|a p IH]; [now destruct rest|].
  simpl. destruct (ascii_dec a a); [exact IH | contradiction].
Qed.

(** [find] gives -1 exactly when the text is not there. *)
Lemma find_here_None (sub : string) : forall s,
  find_here sub s = None <-> contains sub s = false.
Proof.
  induction s as [|c t IH]; rewrite find_here_unfold, contains_unfold.
  - destruct (String.prefix sub EmptyString); cbn; split; congruence.
  - destruct (String.prefix sub (String c t)); cbn [orb]; [split; discriminate|].
    rewrite <- IH. destruct (find_here sub t); cbn; split; congruence.
Qed.

Lemma take_app_length (a b : string) : Str.take (String.length a) (a ++ b) = a.
Proof.
  induction a as [|c a IH]; [now destruct b|].
  change (String c (Str.take (String.length a) (a ++ b)) = String c a).
  now rewrite IH.
Qed.

(** Where a text stands behind a head in which it does not start, [find]
    gives the length of the head.  The text is taken apart into its last
    character and what is in front of it: a start within the head would end
    in front of that last character at the latest. *)
Lemma find_here_behind (sub' : string) (last : ascii) : forall head rest,
  contains (sub' ++ String last EmptyString) (head ++ sub') = false ->
  find_here (sub' ++ String last EmptyString)
            (head ++ (sub' ++ String last EmptyString) ++ rest)
  = Some (String.length head).
Proof.
  set (sub := (sub' ++ String last EmptyString)%string).
  induction head as [|c h IH]; intros rest H.
  - rewrite find_here_unfold. change (EmptyString ++ sub ++ rest)%string
      with (sub ++ rest)%string. now rewrite prefix_app_self.
  - rewrite contains_unfold in H. apply orb_false_iff in H.
    destruct H as [Hp Hc].
    change (String c h ++ sub')%string with (String c (h ++ sub')) in Hp.
    rewrite find_here_unfold.
    change (String c h ++ sub ++ rest)%string with (String c (h ++ sub ++ rest)).
    assert (Hsplit : (h ++ sub ++ rest)%string
                     = ((h ++ sub') ++ String last rest)%string).
    { unfold sub.
      rewrite (append_assoc_string sub' (String last EmptyString) rest).
      now rewrite (append_assoc_string h sub' _). }
    assert (Hpre : String.prefix sub (String c (h ++ sub ++ rest)) = false).
    { rewrite Hsplit.
      change (String c ((h ++ sub') ++ String last rest))
        with (String c (h ++ sub') ++ String last rest)%string.
      rewrite prefix_app_long; [exact Hp|].
      unfold sub. cbn [String.length]. rewrite !length_app_string.
      cbn [String.length]. lia. }
    rewrite Hpre, (IH rest Hc). reflexivity.
Qed.

Lemma find_here_end_marker (old tail : string) :
  contains end_marker (old ++ "]") = false ->
  find_here end_marker (old ++ end_marker ++ tail) = Some (String.length old).
Proof. exact (find_here_behind "]" ";" old tail). Qed.

Lemma find_here_start_marker (head rest : string) :
  contains start_marker (head ++ "var photos = ") = false ->
  find_here start_marker (head ++ start_marker ++ rest) = Some (String.length head).
Proof. exact (find_here_behind "var photos = " "[" head rest). Qed.

(** The closing marker does not start within the start marker. *)
Lemma find_here_past_start_marker (rest : string) :
  find_here end_marker (start_marker ++ rest)
  = option_map (Nat.add 14) (find_here end_marker rest).
Proof.
  unfold start_marker, end_marker. simpl.
  change (EmptyString ++ rest)%string with rest.
  now destruct (find_here "];" rest).
Qed.

Lemma str_find_behind (head rest sub : string) (i : nat) :
  find_here sub rest = Some i ->
  str_find (head ++ rest) sub (String.length head) = Some (String.length head + i)%nat.
Proof.
  intros H. unfold str_find. rewrite length_app_string.
  replace (String.length head <=? String.length head + String.length rest)%nat
    with true by (symmetry; apply Nat.leb_le; lia).
  now rewrite drop_app_length, H.
Qed.

(** The splice.  In a page of the shape head, start marker, old array,
    closing marker, tail, where the start marker does not start anywhere in
    front of its place and the closing marker does not start anywhere in the
    old array, [main] writes the head, [var photos = ], the serialised data,
    a semicolon and the tail: the head and the tail are kept character for
    character, and nothing of the old array is. *)
Theorem inject_replaces_array (head old tail js_data : string) (locations : nat) :
  contains start_marker (head ++ "var photos = ") = false ->
  contains end_marker (old ++ "]") = false ->
  inject (head ++ start_marker ++ old ++ end_marker ++ tail) js_data locations
  = (Some (head ++ ("var photos = " ++ js_data ++ ";") ++ tail),
     SuccessCreated locations).
Proof.
  intros Hstart Hend. unfold inject.
  set (html := (head ++ start_marker ++ old ++ end_marker ++ tail)%string).
  assert (H0 : str_find html start_marker 0 = Some (String.length head)).
  { exact (str_find_behind EmptyString html start_marker _
             (find_here_start_marker head _ Hstart)). }
  rewrite H0.
  assert (H1 : str_find html end_marker (String.length head)
               = Some (String.length head + (14 + String.length old))%nat).
  { apply str_find_behind. rewrite find_here_past_start_marker.
    now rewrite (find_here_end_marker old tail Hend). }
  rewrite H1. cbv zeta. unfold html. rewrite take_app_length.
  replace (String.length head + (14 + String.length old) + String.length end_marker)%nat
    with (String.length (head ++ start_marker ++ old ++ end_marker)).
  2:{ rewrite !length_app_string. cbn [String.length start_marker end_marker]. lia. }
  replace (head ++ start_marker ++ old ++ end_marker ++ tail)%string
    with ((head ++ start_marker ++ old ++ end_marker) ++ tail)%string
    by (now rewrite !append_assoc_string).
  now rewrite drop_app_length.
Qed.

Lemma inject_replaces_array_witness :
  inject page "[]" 0
  = (Some (page_head ++ ("var photos = " ++ "[]" ++ ";") ++ page_tail),
     SuccessCreated 0).
Proof.
  apply (inject_replaces_array page_head page_old page_tail "[]" 0).
  - vm_compute. reflexivity.
  - vm_compute. reflexivity.
Defined.

(** A page without the markers is not written.  When the start marker is
    nowhere in the page, or when it is there and no closing marker starts
    behind the place where it first stands, [main] prints the error of the
    case and writes no output; a closing marker in front of the start
    marker does not count. *)
Theorem inject_without_markers (html js_data : string) (locations : nat) :
  (contains start_marker html = false ->
   inject html js_data locations = (None, ErrorNoStartMarker))
  /\ (forall head rest,
        html = (head ++ start_marker ++ rest)%string ->
        contains start_marker (head ++ "var photos = ") = false ->
        contains end_marker rest = false ->
        inject html js_data locations = (None, ErrorNoClosingMarker)).
Proof.
  split.
  - intros H. unfold inject, str_find. cbn [Nat.leb Str.drop].
    apply find_here_None in H. now rewrite H.
  - intros head rest -> Hstart Hend. unfold inject.
    assert (H0 : str_find (head ++ start_marker ++ rest) start_marker 0
                 = Some (String.length head))
      by exact (str_find_behind EmptyString _ start_marker _
                  (find_here_start_marker head rest Hstart)).
    rewrite H0.
    unfold str_find. rewrite length_app_string.
    replace (String.length head
             <=? String.length head + String.length (start_marker ++ rest))%nat
      with true by (symmetry; apply Nat.leb_le; lia).
    rewrite drop_app_length, find_here_past_start_marker.
    apply find_here_None in Hend. now rewrite Hend.
Qed.

Lemma inject_without_markers_witness :
  inject "<script>var photos = {};</script>" "[]" 0 = (None, ErrorNoStartMarker)
  /\ inject ("];<script>" ++ start_marker ++ "1, 2]</script>") "[]" 0
     = (None, ErrorNoClosingMarker).
Proof.
  split.
  - apply (inject_without_markers "<script>var photos = {};</script>" "[]" 0).
    vm_compute. reflexivity.
  - apply (inject_without_markers ("];<script>" ++ start_marker ++ "1, 2]</script>")
             "[]" 0) with (head := "];<script>") (rest := "1, 2]</script>").
    + reflexivity.
    + vm_compute. reflexivity.
    + vm_compute. reflexivity.
Defined.

(** ** Landmark detection *)

Lemma first_location_Some (landmarks : list landmark_annotation)
    (lat_lng : pyfloat * pyfloat) :
  first_location landmarks = Some lat_lng <->
  exists before locations after,
    landmarks = (before ++ (lat_lng :: locations) :: after)%list
    /\ forall landmark, In landmark before -> landmark = [].
Proof.
  induction landmarks as [|landmark rest IH]; cbn [first_location].
  - split; [discriminate|]. intros (before & ? & ? & H & _).
    destruct before; discriminate.
  - destruct landmark as [|x locations].
    + rewrite IH. split.
      * intros (before & locs & after & -> & Hb).
        exists ([] :: before), locs, after. split; [reflexivity|].
        intros l [<- | Hl]; [reflexivity | now apply Hb].
      * intros (before & locs & after & H & Hb).
        destruct before as [|b before]; [discriminate|].
        injection H as <- ->. exists before, locs, after.
        split; [reflexivity|]. intros l Hl. apply Hb. now right.
    + split.
      * intros [= <-]. exists [], locations, rest. split; [reflexivity|].
        intros l [].
      * intros (before & locs & after & H & Hb).
        destruct before as [|b before].
        -- now injection H as -> _ _.
        -- injection H as <- _. discriminate (Hb _ (or_introl eq_refl)).
Qed.

(** [get_vision_api_location] returns a coordinate exactly when the client
    library is there, the detection comes back without an exception, and a
    landmark of the response has a location: then it is the first location
    of the first landmark that has one, landmarks without a location in
    front of it being passed over.  In every other case, an exception of the
    detection among them, it returns [(None, None)]: never a latitude
    without a longitude. *)
Theorem vision_first_location (VISION_API_AVAILABLE : bool)
    (landmark_detection : string -> outcome (list landmark_annotation))
    (filepath : string) :
  let r := snd (get_vision_api_location VISION_API_AVAILABLE landmark_detection
                  filepath) in
  (forall latitude longitude,
      r = (Some latitude, Some longitude) <->
      VISION_API_AVAILABLE = true
      /\ exists before locations after,
           landmark_detection filepath
           = Ok (before ++ ((latitude, longitude) :: locations) :: after)%list
           /\ forall landmark, In landmark before -> landmark = [])
  /\ (r = (None, None) \/ exists latitude longitude, r = (Some latitude, Some longitude)).
Proof.
  intros r. unfold r, get_vision_api_location. clear r.
  destruct VISION_API_AVAILABLE; cbn [negb].
  2:{ split; [|now left]. intros la lo. split; [discriminate|].
      intros [H _]. discriminate. }
  destruct (landmark_detection filepath) as [landmarks|e].
  2:{ split; [|now left]. intros la lo. split; [discriminate|].
      intros (_ & ? & ? & ? & H & _). discriminate. }
  destruct (first_location landmarks) as [[la0 lo0]|] eqn:Hfirst; cbn [snd].
  - split; [|right; eauto]. intros la lo. split.
    + intros [= <- <-]. split; [reflexivity|].
      apply first_location_Some in Hfirst.
      destruct Hfirst as (before & locs & after & -> & Hb). eauto.
    + intros (_ & before & locs & after & [= ->] & Hb).
      assert (H : first_location (before ++ ((la, lo) :: locs) :: after)%list
                  = Some (la, lo)) by (apply first_location_Some; eauto).
      rewrite H in Hfirst. now injection Hfirst as -> ->.
  - split; [|now left]. intros la lo. split; [discriminate|].
    intros (_ & before & locs & after & [= ->] & Hb).
    assert (H : first_location (before ++ ((la, lo) :: locs) :: after)%list
                = Some (la, lo)) by (apply first_location_Some; eauto).
    rewrite H in Hfirst. discriminate.
Qed.
